(** * snmpgo client: a shallow embedding of [client.go]

    The development follows the Go source function by function.  Go values
    are modelled as the code has them: [int] as [Z], strings as byte
    strings, slices as lists (with the spare capacity of the backing array
    where a slice expression depends on it), pointers that may be [nil] as
    [option], and the ways a Go function with the results (value, error)
    can end (a value, an [error], a run-time panic, or [nil] for both
    results) as the constructors of [result].  Network
    and console effects are appended to an explicit trace of events; what
    the peer answers is read from an environment record. *)

From Stdlib Require Import ZArith String Ascii List Bool Lia Arith Sorted.
Import ListNotations.
Open Scope string_scope.
Open Scope list_scope.
Open Scope Z_scope.

(** ** Go prelude *)

Module Go.

Definition MaxInt32 : Z := 2147483647.
Definition MaxInt64 : Z := 9223372036854775807.
Definition MinInt64 : Z := -9223372036854775808.
Definition MaxUint64 : Z := 18446744073709551615.

(** Conversions [(byte)(x)], [(int32)(x)] and [(uint32)(x)] of an [int]. *)
Definition to_byte (x : Z) : Z := x mod 256.
Definition to_uint32 (x : Z) : Z := x mod 2 ^ 32.
Definition to_int32 (x : Z) : Z :=
  let u := x mod 2 ^ 32 in if u <? 2 ^ 31 then u else u - 2 ^ 32.

(** Conversions [uint64(x)] and [int(x)]: [int] and [uint] have 64 bits,
    and the conversion of a [uint] to [int] reads the same bits as a signed
    number. *)
Definition to_uint64 (x : Z) : Z := x mod 2 ^ 64.
Definition to_int (x : Z) : Z :=
  let u := x mod 2 ^ 64 in if u <? 2 ^ 63 then u else u - 2 ^ 64.

(** Run-time panics raised by the operations the client uses. *)
Inductive panic : Type :=
| SliceBoundsOutOfRange
| IndexOutOfRange
| NilDereference.

(** A slice: the [len] visible elements and what the backing array holds
    between [len] and [cap]. *)
Record slice (A : Type) : Type := mkSlice { elems : list A; spare : list A }.
Arguments mkSlice {A} _ _.
Arguments elems {A} _.
Arguments spare {A} _.

Definition len {A} (s : slice A) : Z := Z.of_nat (length (elems s)).
Definition cap {A} (s : slice A) : Z :=
  Z.of_nat (length (elems s) + length (spare s)).

(** [s[:n]]: the upper bound of a slice expression is the capacity. *)
Definition slice_to {A} (s : slice A) (n : Z) : option (list A) :=
  if (0 <=? n) && (n <=? cap s)
  then Some (firstn (Z.to_nat n) (elems s ++ spare s))
  else None.

(** [s[n:]]: the omitted upper bound is [len(s)], so [0 <= n <= len(s)]. *)
Definition slice_from {A} (s : slice A) (n : Z) : option (list A) :=
  if (0 <=? n) && (n <=? len s)
  then Some (skipn (Z.to_nat n) (elems s))
  else None.

(** [strings.Split(s, sep)] for a one-byte separator. *)
Fixpoint split_acc (sep : ascii) (cur : string) (s : string) : list string :=
  match s with
  | EmptyString => [cur]
  | String c rest =>
      if Ascii.eqb c sep then cur :: split_acc sep EmptyString rest
      else split_acc sep (cur ++ String c EmptyString)%string rest
  end.

Definition Split (s : string) (sep : ascii) : list string :=
  split_acc sep EmptyString s.

Definition is_digit (c : ascii) : bool :=
  let n := nat_of_ascii c in ((48 <=? n) && (n <=? 57))%nat.

Definition digit_val (c : ascii) : Z := Z.of_nat (nat_of_ascii c) - 48.




(** The two errors of package [strconv]. *)
Inductive NumError : Type :=
| ErrSyntax
| ErrRange.

(** The loop of [strconv.ParseUint(s, 10, 64)], from the value [n] on.
    A byte that is no decimal digit ends it with a syntax error and 0; a
    value that leaves 64 bits ends it with a range error and the largest
    value, whatever follows. *)
Fixpoint parse_uint_loop (n : Z) (s : string) : Z * option NumError :=
  match s with
  | EmptyString => (n, None)
  | String c rest =>
      if negb (is_digit c) then (0, Some ErrSyntax)
      else if n >=? MaxUint64 / 10 + 1 then (MaxUint64, Some ErrRange)
      else
        let n' := to_uint64 (n * 10) in
        let n1 := to_uint64 (n' + digit_val c) in
        if (n1 <? n') || (n1 >? MaxUint64) then (MaxUint64, Some ErrRange)
        else parse_uint_loop n1 rest
  end.

(** [strconv.ParseUint(s, 10, 64)] *)
Definition ParseUint (s : string) : Z * option NumError :=
  match s with
  | EmptyString => (0, Some ErrSyntax)
  | _ => parse_uint_loop 0 s
  end.

(** [strconv.ParseInt(s, 10, 0)] *)
Definition ParseInt (s : string) : Z * option NumError :=
  match s with
  | EmptyString => (0, Some ErrSyntax)
  | String c rest =>
      let neg := Ascii.eqb c "-" in
      let s' := if Ascii.eqb c "+" || neg then rest else s in
      match ParseUint s' with
      | (_, Some ErrSyntax) => (0, Some ErrSyntax)
      | (un, _) =>
          let cutoff := 2 ^ 63 in
          if negb neg && (un >=? cutoff) then (cutoff - 1, Some ErrRange)
          else if neg && (un >? cutoff) then (- cutoff, Some ErrRange)
          else (if neg then - un else un, None)
      end
  end.

(** The loop of the fast path of [strconv.Atoi]. *)
Fixpoint atoi_loop (n : Z) (s : string) : Z * option NumError :=
  match s with
  | EmptyString => (n, None)
  | String c rest =>
      if negb (is_digit c) then (0, Some ErrSyntax)
      else atoi_loop (n * 10 + digit_val c) rest
  end.

(** [strconv.Atoi]: the value and the error that comes with it.  Texts of
    fewer than 19 bytes take the fast path; the others go through
    [ParseInt].  A syntax error gives 0; a range error gives the nearest
    bound of [int]. *)
Definition Atoi (s : string) : Z * option NumError :=
  let sLen := Z.of_nat (String.length s) in
  if (0 <? sLen) && (sLen <? 19) then
    match s with
    | EmptyString => (0, Some ErrSyntax)
    | String c rest =>
        let signed := Ascii.eqb c "-" || Ascii.eqb c "+" in
        let s' := if signed then rest else s in
        if signed && (String.length s' <? 1)%nat then (0, Some ErrSyntax)
        else
          match atoi_loop 0 s' with
          | (n, None) => (if Ascii.eqb c "-" then - n else n, None)
          | other => other
          end
    end
  else ParseInt s.



End Go.

(** ** Errors and results *)

(** The [Value] an [ArgumentError] carries. *)
Inductive arg_value : Type :=
| VInt (n : Z)
| VStr (s : string).

(** Error messages; [Range what lo hi] stands for the text
    [fmt.Sprintf("%s is range %d..%d", what, lo, hi)]. *)
Inductive message : Type :=
| Text (s : string)
| Range (what : string) (lo hi : Z).

Inductive error : Type :=
| ArgumentError (Value : arg_value) (Message : message)
| TimeoutError
| TransientError (what : string)
| TransportError (what : string)
| MarshalError (what : string).

Inductive result (A : Type) : Type :=
| Ok (a : A)
| Err (e : error)
| Panic (p : Go.panic)
| Nil.
Arguments Ok {A} _.
Arguments Err {A} _.
Arguments Panic {A} _.
Arguments Nil {A}.

Definition is_argument_error {A} (r : result A) : Prop :=
  exists v m, r = Err (ArgumentError v m).

(** Sequencing of computations that may fail or panic. *)
Definition bind {A B} (r : result A) (k : A -> result B) : result B :=
  match r with
  | Ok a => k a
  | Err e => Err e
  | Panic p => Panic p
  | Nil => Nil
  end.

Notation "x <- r ;; k" := (bind r (fun x => k))
  (at level 61, r at next level, right associativity).

(** ** Constants declared outside [client.go] *)

(** Modelled from the spec: the declarations of [SNMPVersion],
    [SecurityLevel], [AuthProtocol], [PrivProtocol] and of the message size
    and timeout defaults are not part of [client.go].  The versions carry
    their wire values (the v3 message has [version=3]); the levels are
    ordered NoAuthNoPriv < AuthNoPriv < AuthPriv; the default size is 1400
    and the least size 484; the default timeout is 5 s (in nanoseconds). *)
Definition SNMPVersion := Z.

(** Modelled from the spec: the value of the constant [V1]. *)
Definition V1 : SNMPVersion := 0.

(** Modelled from the spec: the value of the constant [V2c]. *)
Definition V2c : SNMPVersion := 1.

(** Modelled from the spec: the value of the constant [V3]. *)
Definition V3 : SNMPVersion := 3.

Definition SecurityLevel := Z.

(** Modelled from the spec: the lowest security level. *)
Definition NoAuthNoPriv : SecurityLevel := 0.

(** Modelled from the spec: the middle security level. *)
Definition AuthNoPriv : SecurityLevel := 1.

(** Modelled from the spec: the highest security level. *)
Definition AuthPriv : SecurityLevel := 2.

Definition AuthProtocol := string.

(** Modelled from the spec: the constant [Md5]. *)
Definition Md5 : AuthProtocol := "MD5".

(** Modelled from the spec: the constant [Sha]. *)
Definition Sha : AuthProtocol := "SHA".

Definition PrivProtocol := string.

(** Modelled from the spec: the constant [Des]. *)
Definition Des : PrivProtocol := "DES".

(** Modelled from the spec: the constant [Aes]. *)
Definition Aes : PrivProtocol := "AES".

(** Modelled from the spec: the constant [Aes192]. *)
Definition Aes192 : PrivProtocol := "AES192".

(** Modelled from the spec: the constant [Aes256]. *)
Definition Aes256 : PrivProtocol := "AES256".

(** Modelled from the spec: the default message size. *)
Definition msgSizeDefault : Z := 1400.

(** Modelled from the spec: the least message size. *)
Definition msgSizeMinimum : Z := 484.

(** Modelled from the spec: the default timeout, 5 s. *)
Definition timeoutDefault : Z := 5000000000.

(** ** Engine identifiers *)

Definition is_hex_digit (c : ascii) : bool :=
  let n := nat_of_ascii c in
  (((48 <=? n) && (n <=? 57)) || ((97 <=? n) && (n <=? 102))
   || ((65 <=? n) && (n <=? 70)))%nat.

Definition hex_val (c : ascii) : Z :=
  let n := Z.of_nat (nat_of_ascii c) in
  if n <=? 57 then n - 48 else if n <=? 70 then n - 55 else n - 87.

(** Modelled from the spec: [stripHexPrefix] is not part of [client.go];
    an optional [0x] prefix is stripped. *)
Definition stripHexPrefix (s : string) : string :=
  match s with
  | String "0" (String "x" rest) => rest
  | _ => s
  end.

(** Pairs of hexadecimal digits to bytes; [None] on a character that is not
    a hexadecimal digit or on an odd number of them. *)
Fixpoint hex_decode (s : string) : option (list Z) :=
  match s with
  | EmptyString => Some []
  | String _ EmptyString => None
  | String a (String b rest) =>
      if is_hex_digit a && is_hex_digit b then
        match hex_decode rest with
        | Some bs => Some ((16 * hex_val a + hex_val b) :: bs)
        | None => None
        end
      else None
  end.

Definition valid_hex (s : string) : bool :=
  match hex_decode s with Some _ => true | None => false end.

(** Modelled from the spec: [engineIdToBytes] is not part of [client.go];
    an engine ID given in the configuration is a hexadecimal string, and
    one that is not is refused with an [ArgumentError]. *)
Definition engineIdToBytes (engineId : string) : option (list Z) * option error :=
  match hex_decode engineId with
  | Some b => (Some b, None)
  | None => (None, Some (ArgumentError (VStr engineId)
                           (Text "EngineId must be a hexadecimal string")))
  end.

(** ** [SNMPArguments] *)

(** In Go the fields [SecurityLevel], [AuthProtocol] and [PrivProtocol]
    bear the names of their types; here they are [SecLevel], [AuthProto]
    and [PrivProto].  [Timeout] is a duration in nanoseconds, [Retries] a
    [uint], a number in 0..2^64-1. *)
Record SNMPArguments : Type := mkArgs {
  Version : SNMPVersion;
  Network : string;
  Address : string;
  Timeout : Z;
  Retries : Z;
  MessageMaxSize : Z;
  Community : string;
  UserName : string;
  SecLevel : SecurityLevel;
  AuthPassword : string;
  AuthProto : AuthProtocol;
  PrivPassword : string;
  PrivProto : PrivProtocol;
  SecurityEngineId : string;
  ContextEngineId : string;
  ContextName : string;
  authEngineBoots : Z;
  authEngineTime : Z
}.

Definition set_Network (a : SNMPArguments) (x : string) :=
  mkArgs (Version a) x (Address a) (Timeout a) (Retries a) (MessageMaxSize a)
    (Community a) (UserName a) (SecLevel a) (AuthPassword a) (AuthProto a)
    (PrivPassword a) (PrivProto a) (SecurityEngineId a) (ContextEngineId a)
    (ContextName a) (authEngineBoots a) (authEngineTime a).

Definition set_Address (a : SNMPArguments) (x : string) :=
  mkArgs (Version a) (Network a) x (Timeout a) (Retries a) (MessageMaxSize a)
    (Community a) (UserName a) (SecLevel a) (AuthPassword a) (AuthProto a)
    (PrivPassword a) (PrivProto a) (SecurityEngineId a) (ContextEngineId a)
    (ContextName a) (authEngineBoots a) (authEngineTime a).

Definition set_Timeout (a : SNMPArguments) (x : Z) :=
  mkArgs (Version a) (Network a) (Address a) x (Retries a) (MessageMaxSize a)
    (Community a) (UserName a) (SecLevel a) (AuthPassword a) (AuthProto a)
    (PrivPassword a) (PrivProto a) (SecurityEngineId a) (ContextEngineId a)
    (ContextName a) (authEngineBoots a) (authEngineTime a).

Definition set_MessageMaxSize (a : SNMPArguments) (x : Z) :=
  mkArgs (Version a) (Network a) (Address a) (Timeout a) (Retries a) x
    (Community a) (UserName a) (SecLevel a) (AuthPassword a) (AuthProto a)
    (PrivPassword a) (PrivProto a) (SecurityEngineId a) (ContextEngineId a)
    (ContextName a) (authEngineBoots a) (authEngineTime a).

Definition set_SecurityEngineId (a : SNMPArguments) (x : string) :=
  mkArgs (Version a) (Network a) (Address a) (Timeout a) (Retries a)
    (MessageMaxSize a) (Community a) (UserName a) (SecLevel a)
    (AuthPassword a) (AuthProto a) (PrivPassword a) (PrivProto a) x
    (ContextEngineId a) (ContextName a) (authEngineBoots a) (authEngineTime a).

Definition set_ContextEngineId (a : SNMPArguments) (x : string) :=
  mkArgs (Version a) (Network a) (Address a) (Timeout a) (Retries a)
    (MessageMaxSize a) (Community a) (UserName a) (SecLevel a)
    (AuthPassword a) (AuthProto a) (PrivPassword a) (PrivProto a)
    (SecurityEngineId a) x (ContextName a) (authEngineBoots a)
    (authEngineTime a).

Definition set_authEngine (a : SNMPArguments) (boots time : Z) :=
  mkArgs (Version a) (Network a) (Address a) (Timeout a) (Retries a)
    (MessageMaxSize a) (Community a) (UserName a) (SecLevel a)
    (AuthPassword a) (AuthProto a) (PrivPassword a) (PrivProto a)
    (SecurityEngineId a) (ContextEngineId a) (ContextName a) boots time.

Definition strlen (s : string) : Z := Z.of_nat (String.length s).

(** [setDefault] *)
Definition setDefault (a : SNMPArguments) : SNMPArguments :=
  let a := if String.eqb (Network a) "" then set_Network a "udp" else a in
  let a := if Timeout a <=? 0 then set_Timeout a timeoutDefault else a in
  let a := if MessageMaxSize a =? 0
           then set_MessageMaxSize a msgSizeDefault else a in
  a.

(** The V3 branch of [validate], from the [UserName] test on.  The
    receiver is a pointer: the engine IDs are overwritten with their
    stripped form, so the arguments are returned with the verdict. *)
Definition validateV3 (a : SNMPArguments) : option error * SNMPArguments :=
  let l := strlen (UserName a) in
  if (l <? 1) || (l >? 32) then
    (Some (ArgumentError (VStr (UserName a))
             (Text "UserName length is range 1..32")), a)
  else if (SecLevel a >? NoAuthNoPriv) && (strlen (AuthPassword a) <? 8) then
    (Some (ArgumentError (VStr (AuthPassword a))
             (Text "AuthPassword is at least 8 characters in length")), a)
  else if (SecLevel a >? NoAuthNoPriv)
          && negb (String.eqb (AuthProto a) Md5)
          && negb (String.eqb (AuthProto a) Sha) then
    (Some (ArgumentError (VStr (AuthProto a)) (Text "Illegal AuthProtocol")), a)
  else if (SecLevel a >? AuthNoPriv) && (strlen (PrivPassword a) <? 8) then
    (Some (ArgumentError (VStr (PrivPassword a))
             (Text "PrivPassword is at least 8 characters in length")), a)
  else if (SecLevel a >? AuthNoPriv)
          && negb (String.eqb (PrivProto a) Des)
          && negb (String.eqb (PrivProto a) Aes)
          && negb (String.eqb (PrivProto a) Aes192)
          && negb (String.eqb (PrivProto a) Aes256) then
    (Some (ArgumentError (VStr (PrivProto a)) (Text "Illegal PrivProtocol")), a)
  else
    let step1 :=
      if negb (String.eqb (SecurityEngineId a) "") then
        let a1 := set_SecurityEngineId a (stripHexPrefix (SecurityEngineId a)) in
        (snd (engineIdToBytes (SecurityEngineId a1)), a1)
      else (None, a) in
    match step1 with
    | (Some e, a1) => (Some e, a1)
    | (None, a1) =>
        if negb (String.eqb (ContextEngineId a1) "") then
          let a2 := set_ContextEngineId a1 (stripHexPrefix (ContextEngineId a1)) in
          (snd (engineIdToBytes (ContextEngineId a2)), a2)
        else (None, a1)
    end.

(** [validate] *)
Definition validate (a : SNMPArguments) : option error * SNMPArguments :=
  let v := Version a in
  if negb (v =? V1) && negb (v =? V2c) && negb (v =? V3) then
    (Some (ArgumentError (VInt v) (Text "Unknown SNMP Version")), a)
  else
    let m := MessageMaxSize a in
    if (negb (m =? 0) && (m <? msgSizeMinimum)) || (m >? Go.MaxInt32) then
      (Some (ArgumentError (VInt m)
               (Range "MessageMaxSize" msgSizeMinimum Go.MaxInt32)), a)
    else if Version a =? V3 then validateV3 a
    else (None, a).

(** ** The client object *)

(** [conn] and [engine] are pointers: [true] stands for a live object,
    [false] for [nil]. *)
Record SNMP : Type := mkSNMP {
  conn : bool;
  args : SNMPArguments;
  engine : bool
}.

(** [NewSNMP] *)
Definition NewSNMP (a : SNMPArguments) : result SNMP :=
  match validate a with
  | (Some e, _) => Err e
  | (None, a') => Ok (mkSNMP false (setDefault a') false)
  end.

(** ** OIDs, variables and var-binds *)

(** An OID is its list of sub-identifiers; [*Oid] is [option Oid], with
    [None] for [nil]. *)
Definition Oid := list Z.
Definition Oids := list (option Oid).

(** Modelled from the spec: [Oid.Compare], [Oid.Equal] and [Oid.Contains]
    are not part of [client.go].  OIDs are totally ordered
    lexicographically, and [o] contains [b] when [o] starts with the
    components of [b]. *)
Fixpoint OidCompare (a b : Oid) : comparison :=
  match a, b with
  | [], [] => Eq
  | [], _ :: _ => Lt
  | _ :: _, [] => Gt
  | x :: a', y :: b' =>
      match x ?= y with
      | Eq => OidCompare a' b'
      | c => c
      end
  end.

(** Modelled from the spec: [Oid.Equal]. *)
Definition OidEqual (a b : Oid) : bool :=
  match OidCompare a b with Eq => true | _ => false end.

(** Modelled from the spec: [Oid.Contains], true when [o] starts with the components of [b]. *)
Fixpoint OidContains (o b : Oid) : bool :=
  match b, o with
  | [], _ => true
  | _ :: _, [] => false
  | y :: b', x :: o' => (x =? y) && OidContains o' b'
  end.

(** The same on pointers: a [nil] OID neither contains nor equals
    anything, and sorts first. *)
Definition ptrContains (o b : option Oid) : bool :=
  match o, b with
  | Some o, Some b => OidContains o b
  | _, _ => false
  end.

Definition ptrEqual (o b : option Oid) : bool :=
  match o, b with
  | Some o, Some b => OidEqual o b
  | _, _ => false
  end.

Definition ptrLeb (a b : option Oid) : bool :=
  match a, b with
  | None, _ => true
  | Some _, None => false
  | Some a, Some b => match OidCompare a b with Gt => false | _ => true end
  end.

(** The [Variable] interface and its implementations. *)
Inductive SnmpVariable : Type :=
| Integer (v : Z)
| OctetString (b : list Z)
| Null
| ObjectId (o : Oid)
| Ipaddress (b : list Z)
| Counter32 (v : Z)
| Gauge32 (v : Z)
| TimeTicks (v : Z)
| Opaque (b : list Z)
| Counter64 (v : Z)
| NoSucheObject
| NoSucheInstance
| EndOfMibView.

Record VarBind : Type := mkVarBind { vbOid : option Oid; vbVariable : SnmpVariable }.
Definition VarBinds := list VarBind.

(** A stable sort and the removal of adjacent elements related to the last
    element kept, shared by the helpers on [Oids] and [VarBinds]. *)
Section Sorting.
Context {A : Type}.

Fixpoint insert_sorted (leb : A -> A -> bool) (x : A) (l : list A) : list A :=
  match l with
  | [] => [x]
  | y :: l' => if leb x y then x :: l else y :: insert_sorted leb x l'
  end.

Fixpoint stable_sort (leb : A -> A -> bool) (l : list A) : list A :=
  match l with
  | [] => []
  | x :: l' => insert_sorted leb x (stable_sort leb l')
  end.

Fixpoint uniq_after (same : A -> A -> bool) (before : A) (l : list A) : list A :=
  match l with
  | [] => []
  | x :: l' =>
      if same before x then uniq_after same before l'
      else x :: uniq_after same x l'
  end.

Definition uniq (same : A -> A -> bool) (l : list A) : list A :=
  match l with
  | [] => []
  | x :: l' => x :: uniq_after same x l'
  end.
End Sorting.

(** Modelled from the spec: the helpers of [Oids] and [VarBinds] are not
    part of [client.go].  [Sort] orders by OID and is stable; [UniqBase]
    drops an OID that lies under the OID kept before it; [Uniq] removes
    consecutive duplicate OIDs; [MatchBaseOids] keeps the var-binds whose OID
    is a descendant of the prefix; [MatchOid] is the first var-bind with
    exactly that OID, or [nil]. *)
Definition OidsSort (o : Oids) : Oids := stable_sort ptrLeb o.

(** Modelled from the spec: [Oids.UniqBase], which drops an OID lying under the OID kept before it. *)
Definition OidsUniqBase (o : Oids) : Oids :=
  uniq (fun a b => ptrContains b a) o.

(** Modelled from the spec: [VarBinds.Sort], a stable sort by OID. *)
Definition VarBindsSort (v : VarBinds) : VarBinds :=
  stable_sort (fun a b => ptrLeb (vbOid a) (vbOid b)) v.

(** Modelled from the spec: [VarBinds.Uniq], which removes consecutive duplicate OIDs. *)
Definition VarBindsUniq (v : VarBinds) : VarBinds :=
  uniq (fun a b => ptrEqual (vbOid b) (vbOid a)) v.

(** Modelled from the spec: [VarBinds.MatchBaseOids], the var-binds whose OID is a descendant of the prefix. *)
Definition MatchBaseOids (v : VarBinds) (prefix : option Oid) : VarBinds :=
  filter (fun o => ptrContains (vbOid o) prefix) v.

(** Modelled from the spec: [VarBinds.MatchOid], the first var-bind with exactly that OID, or [nil]. *)
Definition MatchOid (v : VarBinds) (oid : option Oid) : option VarBind :=
  find (fun o => ptrEqual (vbOid o) oid) v.

(** ** PDUs *)

(** The constants [GetBulkRequest] and [InformRequest] of the PDU type
    share their names with methods of the client; the constants are
    [GetBulkRequestT] and [InformRequestT] here, and the methods
    [GetRequest] and [GetNextRequest] are [GetRequestOp] and
    [GetNextRequestOp]. *)
Inductive PduType : Type :=
| GetRequest
| GetNextRequest
| GetResponse
| SetRequest
| Trap
| GetBulkRequestT
| InformRequestT
| SNMPTrapV2
| Report.

(** Modelled from the spec: the error-status values of RFC 3416. *)
Definition NoError : Z := 0.

(** Modelled from the spec: the error-status noSuchName of RFC 3416. *)
Definition NoSuchName : Z := 2.

(** Modelled from the spec: the PDU type is not part of [client.go].  A PDU
    holds its type, request-id, error-status, error-index and var-bind
    list; GetBulk stores non-repeaters and max-repetitions in the
    error-status and error-index fields. *)
Record Pdu : Type := mkPdu {
  pduVersion : SNMPVersion;
  pduType : PduType;
  RequestId : Z;
  ErrorStatus : Z;
  ErrorIndex : Z;
  PduVarBinds : VarBinds
}.

(** Modelled from the spec: [NewPduWithVarBinds], a PDU of the given type around the var-binds. *)
Definition NewPduWithVarBinds (ver : SNMPVersion) (t : PduType)
    (varBinds : VarBinds) : Pdu :=
  mkPdu ver t 0 NoError 0 varBinds.

(** Modelled from the spec: [NewPduWithOids], a PDU that names the OIDs with [Null] values. *)
Definition NewPduWithOids (ver : SNMPVersion) (t : PduType) (oids : Oids) : Pdu :=
  NewPduWithVarBinds ver t (map (fun o => mkVarBind o Null) oids).

(** Modelled from the spec: [SetNonrepeaters], which stores the count in the error-status field. *)
Definition SetNonrepeaters (p : Pdu) (i : Z) : Pdu :=
  mkPdu (pduVersion p) (pduType p) (RequestId p) i (ErrorIndex p) (PduVarBinds p).

(** Modelled from the spec: [SetMaxRepetitions], which stores the count in the error-index field. *)
Definition SetMaxRepetitions (p : Pdu) (i : Z) : Pdu :=
  mkPdu (pduVersion p) (pduType p) (RequestId p) (ErrorStatus p) i (PduVarBinds p).

(** ** Effects *)

(** What the client does to the outside world, newest event first. *)
Inductive event : Type :=
| EvPrintln (text : string)
| EvHexDump (bytes : list Z)
| EvPrintErr (e : option error)
| EvDial (network address : string) (timeout : Z)
| EvDiscover (a : SNMPArguments)
| EvSendPdu (pdu : Pdu) (a : SNMPArguments)
| EvSetWriteDeadline (timeout : Z)
| EvWrite (bytes : list Z)
| EvConnClose.

Definition trace := list event.

(** The transport and the peer: each reply may depend on everything done so
    far, the call being answered included. *)
Record Env : Type := mkEnv {
  dial_reply : trace -> option error;
  discover_reply : trace -> option error;
  send_reply : trace -> Pdu + error;
  write_reply : trace -> option error
}.

Definition is_network (e : event) : bool :=
  match e with
  | EvDial _ _ _ | EvDiscover _ | EvSendPdu _ _ | EvSetWriteDeadline _
  | EvWrite _ | EvConnClose => true
  | _ => false
  end.

(** Modelled from the spec: [retry] is not part of [client.go].  An attempt
    that ends in a timeout or a transient transport error is repeated, up
    to [more] more times. *)
Fixpoint retry_loop {R St : Type} (more : nat) (f : St -> (R + error) * St)
    (st : St) : (R + error) * St :=
  let '(r, st') := f st in
  match r, more with
  | inr TimeoutError, S n | inr (TransientError _), S n => retry_loop n f st'
  | _, _ => (r, st')
  end.

(** Modelled from the spec: [retry(retries, f)] makes at most [retries + 1]
    attempts.  Its count is an [int]: below 0 there is no attempt at all,
    and [retry] returns with nothing done and no error, [None] here. *)
Definition retry {R St : Type} (retries : Z) (f : St -> (R + error) * St)
    (st : St) : option (R + error) * St :=
  if retries <? 0 then (None, st)
  else let '(r, st') := retry_loop (Z.to_nat retries) f st in (Some r, st').

Definition set_conn (s : SNMP) (c : bool) : SNMP := mkSNMP c (args s) (engine s).
Definition set_engine (s : SNMP) (e : bool) : SNMP := mkSNMP (conn s) (args s) e.
Definition set_args (s : SNMP) (a : SNMPArguments) : SNMP :=
  mkSNMP (conn s) a (engine s).

(** ** The operations of the client *)

Definition is_sentinel (v : SnmpVariable) : bool :=
  match v with
  | NoSucheObject | NoSucheInstance | EndOfMibView => true
  | _ => false
  end.

(** [l[i] = x] for an index within the list. *)
Fixpoint update {A} (i : nat) (x : A) (l : list A) : list A :=
  match l, i with
  | [], _ => []
  | _ :: l', O => x :: l'
  | y :: l', S i' => y :: update i' x l'
  end.

(** [append(l[:i], l[i+1:]...)] *)
Definition remove_at {A} (i : nat) (l : list A) : option (list A) :=
  if (i <? length l)%nat then Some (firstn i l ++ skipn (S i) l) else None.

(** [l[:n]] and [l[n:]] of a slice used at full capacity.  For the
    var-binds of a reply, whose capacity is not known, the two expressions
    are evaluated together, and one of them is out of range exactly when
    [n] is outside [0..len(l)]. *)
Definition list_to {A} (l : list A) (n : Z) : option (list A) :=
  Go.slice_to (Go.mkSlice l []) n.
Definition list_from {A} (l : list A) (n : Z) : option (list A) :=
  Go.slice_from (Go.mkSlice l []) n.

(** The variables of [GetBulkWalk] that live across iterations. *)
Record walk_state : Type := mkWalk {
  w_oids : Oids;
  w_reqOids : Oids;
  w_nonRepeaters : Z;
  w_nonRepBinds : VarBinds;
  w_resBinds : VarBinds
}.

(** The body of [for _, val := range matched] at position [i]. *)
Definition collect (i : nat) (acc : bool * VarBinds * Oids) (val : VarBind)
    : bool * VarBinds * Oids :=
  let '(hasError, resBinds, reqOids) := acc in
  if is_sentinel (vbVariable val) then (true, resBinds, reqOids)
  else (hasError, resBinds ++ [val], update i (vbOid val) reqOids).

(** The body of [for i, _ := range reqOids]. *)
Definition visit (maxRepetitions : Z) (filled : bool) (varBinds : VarBinds)
    (oids : Oids) (st : result (Oids * VarBinds)) (i : nat)
    : result (Oids * VarBinds) :=
  match st with
  | Ok (reqOids, resBinds) =>
      match nth_error oids i with
      | None => Panic Go.IndexOutOfRange
      | Some base =>
          let matched := MatchBaseOids varBinds base in
          let mLength := Z.of_nat (length matched) in
          if (mLength =? 0)
             || (match MatchOid resBinds
                         (vbOid (last matched (mkVarBind None Null))) with
                 | Some _ => true
                 | None => false
                 end)
          then Ok (update i None reqOids, resBinds)
          else
            let '(hasError, resBinds', reqOids') :=
              fold_left (collect i) matched (false, resBinds, reqOids) in
            if hasError || (filled && (mLength <? maxRepetitions))
            then Ok (update i None reqOids', resBinds')
            else Ok (reqOids', resBinds')
      end
  | other => other
  end.

(** The body of the sweep of completed OIDs. *)
Definition sweep_at (st : result (Oids * Oids)) (i : nat) : result (Oids * Oids) :=
  match st with
  | Ok (reqOids, oids) =>
      match nth_error reqOids i with
      | None => Panic Go.IndexOutOfRange
      | Some (Some _) => Ok (reqOids, oids)
      | Some None =>
          match remove_at i reqOids, remove_at i oids with
          | Some r, Some o => Ok (r, o)
          | _, _ => Panic Go.SliceBoundsOutOfRange
          end
      end
  | other => other
  end.

Definition sweep (reqOids oids : Oids) : result (Oids * Oids) :=
  fold_left sweep_at (rev (seq 0 (length reqOids))) (Ok (reqOids, oids)).

(** The non-repeaters are peeled off the first reply. *)
Definition peel (w : walk_state) (varBinds : VarBinds)
    : result (walk_state * VarBinds) :=
  let n := w_nonRepeaters w in
  if n >? 0 then
    match list_to varBinds n, list_from varBinds n,
          list_from (w_oids w) n, list_from (w_reqOids w) n with
    | Some hd, Some tl, Some o, Some r =>
        Ok (mkWalk o r 0 (w_nonRepBinds w ++ hd) (w_resBinds w), tl)
    | _, _, _, _ => Panic Go.SliceBoundsOutOfRange
    end
  else Ok (w, varBinds).

(** One iteration of the walk after a reply that does not end it. *)
Definition walk_iteration (maxRepetitions : Z) (w : walk_state) (pdu : Pdu)
    : result walk_state :=
  match peel w (PduVarBinds pdu) with
  | Ok (w1, varBinds) =>
      let filled :=
        Z.of_nat (length varBinds)
        =? Z.of_nat (length (w_reqOids w1)) * maxRepetitions in
      let varBinds := VarBindsUniq (VarBindsSort varBinds) in
      match fold_left (visit maxRepetitions filled varBinds (w_oids w1))
                      (seq 0 (length (w_reqOids w1)))
                      (Ok (w_reqOids w1, w_resBinds w1)) with
      | Ok (reqOids, resBinds) =>
          match sweep reqOids (w_oids w1) with
          | Ok (reqOids', oids') =>
              Ok (mkWalk oids' reqOids' (w_nonRepeaters w1)
                    (w_nonRepBinds w1) resBinds)
          | Err e => Err e
          | Panic p => Panic p
          | Nil => Nil
          end
      | Err e => Err e
      | Panic p => Panic p
      | Nil => Nil
      end
  | Err e => Err e
  | Panic p => Panic p
  | Nil => Nil
  end.

(** The first statements of [GetBulkWalk]: the non-repeaters are kept as
    they are, the others sorted and reduced to their base OIDs, and the
    result is copied to [reqOids].  [None] stands for the panic of a slice
    expression out of range. *)
Definition walk_init (oids : Go.slice (option Oid)) (nonRepeaters : Z)
    : option walk_state :=
  match Go.slice_to oids nonRepeaters, Go.slice_from oids nonRepeaters with
  | Some kept, Some rest =>
      let oids := kept ++ OidsUniqBase (OidsSort rest) in
      let reqOids := oids in
      Some (mkWalk oids reqOids nonRepeaters [] [])
  | _, _ => None
  end.

(** The test that makes the walk hand back the reply as it is. *)
Definition walk_stops (pdu : Pdu) (nonRepeaters : Z) : bool :=
  negb (ErrorStatus pdu =? NoError)
  && (negb (ErrorStatus pdu =? NoSuchName) || (ErrorIndex pdu <=? nonRepeaters)).

Section Client.
Variable env : Env.

(** One [net.DialTimeout] inside [Open]. *)
Definition dial_once (st : SNMP * trace) : (unit + error) * (SNMP * trace) :=
  let '(s, t) := st in
  let a := args s in
  let t1 := EvDial (Network a) (Address a) (Timeout a) :: t in
  match dial_reply env t1 with
  | None => (inl tt, (set_conn s true, t1))
  | Some e => (inr e, (s, t1))
  end.

(** [Close] *)
Definition Close (s : SNMP) (t : trace) : SNMP * trace :=
  let t1 := EvPrintln "Close" :: t in
  if conn s then (mkSNMP false (args s) false, EvConnClose :: t1)
  else (s, t1).

(** [Open] *)
Definition Open (s : SNMP) (t : trace) : option error * SNMP * trace :=
  if conn s then (None, s, t)
  else
    let '(r, (s1, t1)) :=
      retry (Go.to_int (Retries (args s))) dial_once (s, t) in
    match r with
    | Some (inr e) => (Some e, s1, t1)
    | Some (inl _) | None =>
        let s2 := set_engine s1 true in
        let t2 := EvDiscover (args s2) :: t1 in
        match discover_reply env t2 with
        | Some e => let '(s3, t3) := Close s2 t2 in (Some e, s3, t3)
        | None => (None, s2, t2)
        end
    end.

(** One [s.engine.SendPdu(pdu, s.conn, s.args)] inside [sendPdu]. *)
Definition send_once (pdu : Pdu) (a : SNMPArguments) (t : trace)
    : (Pdu + error) * trace :=
  let t1 := EvSendPdu pdu a :: t in
  (send_reply env t1, t1).

(** [sendPdu].  The engine is used by the attempts only: with no attempt
    made, [result] and [err] are returned as declared, both [nil]. *)
Definition sendPdu (pdu : Pdu) (s : SNMP) (t : trace)
    : result Pdu * SNMP * trace :=
  let t0 := EvPrintln "sendPdu" :: t in
  let '(err, s1, t1) := Open s t0 in
  match err with
  | Some e => (Err e, s1, t1)
  | None =>
      if Go.to_int (Retries (args s1)) <? 0 then (Nil, s1, t1)
      else if engine s1 then
        let '(r, t2) :=
          retry (Go.to_int (Retries (args s1))) (send_once pdu (args s1)) t1 in
        match r with
        | Some (inl result) => (Ok result, s1, t2)
        | Some (inr e) => (Err e, s1, t2)
        | None => (Nil, s1, t2)
        end
      else (Panic Go.NilDereference, s1, t1)
  end.

(** [GetRequest] and [GetNextRequest] *)
Definition GetRequestOp (oids : Oids) (s : SNMP) (t : trace) :=
  sendPdu (NewPduWithOids (Version (args s)) GetRequest oids) s t.

Definition GetNextRequestOp (oids : Oids) (s : SNMP) (t : trace) :=
  sendPdu (NewPduWithOids (Version (args s)) GetNextRequest oids) s t.

(** [GetBulkRequest] *)
Definition GetBulkRequest (oids : Oids) (nonRepeaters maxRepetitions : Z)
    (s : SNMP) (t : trace) : result Pdu * SNMP * trace :=
  if Version (args s) <? V2c then
    (Err (ArgumentError (VInt (Version (args s)))
            (Text "Unsupported SNMP Version")), s, t)
  else if (nonRepeaters <? 0) || (nonRepeaters >? Go.MaxInt32) then
    (Err (ArgumentError (VInt nonRepeaters)
            (Range "NonRepeaters" 0 Go.MaxInt32)), s, t)
  else if (maxRepetitions <? 0) || (maxRepetitions >? Go.MaxInt32) then
    (Err (ArgumentError (VInt maxRepetitions)
            (Range "NonRepeaters" 0 Go.MaxInt32)), s, t)
  else
    let pdu := NewPduWithOids (Version (args s)) GetBulkRequestT oids in
    let pdu := SetNonrepeaters pdu nonRepeaters in
    let pdu := SetMaxRepetitions pdu maxRepetitions in
    sendPdu pdu s t.

(** The loop [for len(reqOids) > 0] of [GetBulkWalk] and what follows it.
    [fuel] bounds the number of requests; [None] means the bound was
    reached with OIDs still to ask for. *)
Fixpoint walk_loop (fuel : nat) (maxRepetitions : Z) (w : walk_state)
    (s : SNMP) (t : trace) : option (result Pdu * SNMP * trace) :=
  match w_reqOids w with
  | [] =>
      let resBinds :=
        w_nonRepBinds w ++ VarBindsUniq (VarBindsSort (w_resBinds w)) in
      Some (Ok (NewPduWithVarBinds (Version (args s)) GetResponse resBinds),
            s, t)
  | _ :: _ =>
      match fuel with
      | O => None
      | S fuel' =>
          let '(r, s1, t1) :=
            GetBulkRequest (w_reqOids w) (w_nonRepeaters w) maxRepetitions s t in
          match r with
          | Err e => Some (Err e, s1, t1)
          | Panic p => Some (Panic p, s1, t1)
          | Nil => Some (Panic Go.NilDereference, s1, t1)
          | Ok pdu =>
              if walk_stops pdu (w_nonRepeaters w) then Some (Ok pdu, s1, t1)
              else
                match walk_iteration maxRepetitions w pdu with
                | Ok w' => walk_loop fuel' maxRepetitions w' s1 t1
                | Err e => Some (Err e, s1, t1)
                | Panic p => Some (Panic p, s1, t1)
                | Nil => Some (Nil, s1, t1)
                end
          end
      end
  end.

(** [GetBulkWalk] *)
Definition GetBulkWalk (fuel : nat) (oids : Go.slice (option Oid))
    (nonRepeaters maxRepetitions : Z) (s : SNMP) (t : trace)
    : option (result Pdu * SNMP * trace) :=
  match walk_init oids nonRepeaters with
  | Some w => walk_loop fuel maxRepetitions w s t
  | None => Some (Panic Go.SliceBoundsOutOfRange, s, t)
  end.

(** An iteration of the loop that goes on to the next one, as a step
    between the states of the walk. *)
Inductive walk_step (maxRepetitions : Z)
    : walk_state * SNMP * trace -> walk_state * SNMP * trace -> Prop :=
| walk_step_next : forall w s t pdu s1 t1 w',
    w_reqOids w <> [] ->
    GetBulkRequest (w_reqOids w) (w_nonRepeaters w) maxRepetitions s t
      = (Ok pdu, s1, t1) ->
    walk_stops pdu (w_nonRepeaters w) = false ->
    walk_iteration maxRepetitions w pdu = Ok w' ->
    walk_step maxRepetitions (w, s, t) (w', s1, t1).

Inductive walk_steps (maxRepetitions : Z)
    : nat -> walk_state * SNMP * trace -> walk_state * SNMP * trace -> Prop :=
| walk_steps_none : forall c, walk_steps maxRepetitions 0 c c
| walk_steps_more : forall n c1 c2 c3,
    walk_step maxRepetitions c1 c2 ->
    walk_steps maxRepetitions n c2 c3 ->
    walk_steps maxRepetitions (S n) c1 c3.

(** [v2trap] *)
Definition v2trap (pduType : PduType) (varBinds : VarBinds) (s : SNMP)
    (t : trace) : result unit * SNMP * trace :=
  let t0 := EvPrintln "v2trap" :: t in
  if Version (args s) <? V2c then
    (Err (ArgumentError (VInt (Version (args s)))
            (Text "Unsupported SNMP Version")), s, t0)
  else
    let pdu := NewPduWithVarBinds (Version (args s)) pduType varBinds in
    let '(r, s1, t1) := sendPdu pdu s t0 in
    (match r with
     | Ok _ | Nil => Ok tt
     | Err e => Err e
     | Panic p => Panic p
     end, s1, t1).

(** [V2Trap] and [InformRequest] *)
Definition V2Trap (varBinds : VarBinds) := v2trap SNMPTrapV2 varBinds.
Definition InformRequest (varBinds : VarBinds) := v2trap InformRequestT varBinds.

(** The function deferred by [V2TrapWithBootsTime]. *)
Definition reset_authEngine (s : SNMP) : SNMP :=
  set_args s (set_authEngine (args s) 0 0).

(** [V2TrapWithBootsTime] *)
Definition V2TrapWithBootsTime (varBinds : VarBinds) (eBoots eTime : Z)
    (s : SNMP) (t : trace) : result unit * SNMP * trace :=
  if (eBoots <? 0) || (eBoots >? Go.MaxInt32) then
    (Err (ArgumentError (VInt eBoots) (Range "EngineBoots" 0 Go.MaxInt32)), s, t)
  else if (eTime <? 0) || (eTime >? Go.MaxInt32) then
    (Err (ArgumentError (VInt eTime) (Range "EngineTime" 0 Go.MaxInt32)), s, t)
  else
    let s0 := set_args s (set_authEngine (args s) eBoots eTime) in
    let '(r, s1, t1) := v2trap SNMPTrapV2 varBinds s0 t in
    (r, reset_authEngine s1, t1).

End Client.

(** ** A simulated agent *)

Module Agent.

(** Modelled from the spec: the simulated agent of the walk-completeness
    property is not part of the repository.  Its MIB is a list of
    (OID, value) entries in increasing OID order; it answers GetBulk as
    RFC 3416 section 4.2.3 prescribes: one successor for each of the first
    non-repeaters names, then max-repetitions rounds of successors for
    the others, with [EndOfMibView] under the last name reached where the
    MIB has no successor. *)
Definition Mib := list (Oid * SnmpVariable).

(** Modelled from the spec: the entry [e] comes after the name [o] in the
    lexicographic order. *)
Definition after (o : Oid) (e : Oid * SnmpVariable) : bool :=
  match OidCompare o (fst e) with Lt => true | _ => false end.

(** Modelled from the spec: the first entry after a name, or
    [EndOfMibView] under that name when there is none. *)
Definition successor (mib : Mib) (name : option Oid) : VarBind :=
  let o := match name with Some o => o | None => [] end in
  match find (after o) mib with
  | Some (o', v) => mkVarBind (Some o') v
  | None => mkVarBind (Some o) EndOfMibView
  end.

(** Modelled from the spec: [r] repetitions for the repeaters, each
    continuing from the names of the one before. *)
Fixpoint rounds (mib : Mib) (r : nat) (names : Oids) : VarBinds :=
  match r with
  | O => []
  | S r' =>
      let row := map (successor mib) names in
      row ++ rounds mib r' (map vbOid row)
  end.

(** Modelled from the spec: the var-binds of a GetBulk reply. *)
Definition getbulk (mib : Mib) (names : Oids) (nonRepeaters maxRepetitions : Z)
    : VarBinds :=
  let n := Z.to_nat nonRepeaters in
  map (successor mib) (firstn n names)
  ++ rounds mib (Z.to_nat maxRepetitions) (skipn n names).

(** Modelled from the spec: the var-bind of a Get reply for one name. *)
Definition lookup (mib : Mib) (name : option Oid) : VarBind :=
  match name with
  | Some o =>
      match find (fun e => OidEqual (fst e) o) mib with
      | Some (_, v) => mkVarBind name v
      | None => mkVarBind name NoSucheInstance
      end
  | None => mkVarBind name NoSucheObject
  end.

(** Modelled from the spec: the Response PDU for a request. *)
Definition respond (mib : Mib) (req : Pdu) : Pdu :=
  let names := map vbOid (PduVarBinds req) in
  let binds :=
    match pduType req with
    | GetBulkRequestT => getbulk mib names (ErrorStatus req) (ErrorIndex req)
    | GetNextRequest => map (successor mib) names
    | GetRequest => map (lookup mib) names
    | _ => PduVarBinds req
    end in
  mkPdu (pduVersion req) GetResponse (RequestId req) NoError 0 binds.

(** Modelled from the spec: the transport towards the agent: connecting
    and discovery succeed and each PDU sent is answered by the agent. *)
Definition env (mib : Mib) : Env :=
  mkEnv (fun _ => None) (fun _ => None)
    (fun t =>
       match t with
       | EvSendPdu pdu _ :: _ => inl (respond mib pdu)
       | _ => inr (TransportError "nothing was sent")
       end)
    (fun _ => None).

End Agent.

(** ** The BER codec *)

Module Ber.

(** Modelled from the spec: the codec ([Marshal] of the variables, the
    ASN.1 encoder behind it and the decoder) is not part of [client.go].
    Every value is tag, length, content; the length is in short form
    below 128 and otherwise [0x80 | n] followed by [n] big-endian bytes;
    integers take the least number of two's-complement bytes, so that an
    unsigned value with its top bit set gets a leading zero byte; an OID
    packs its first two components as [40*a + b] and writes the others in
    base 128, high bit set on all bytes but the last. *)

(** Modelled from the spec: part of the codec, [tagInteger]. *)
Definition tagInteger : Z := 2.

(** Modelled from the spec: part of the codec, [tagOctetString]. *)
Definition tagOctetString : Z := 4.

(** Modelled from the spec: part of the codec, [tagOid]. *)
Definition tagOid : Z := 6.

(** Modelled from the spec: part of the codec, [tagSequence]. *)
Definition tagSequence : Z := 48.

(** Modelled from the spec: part of the codec, [tagIpaddress]. *)
Definition tagIpaddress : Z := 64.

(** Modelled from the spec: part of the codec, [tagTimeTicks]. *)
Definition tagTimeTicks : Z := 67.

(** Modelled from the spec: part of the codec, [tagTrapV1]. *)
Definition tagTrapV1 : Z := 164.

(** Modelled from the spec: big-endian base-256 digits of a non-negative number, least count. *)
Fixpoint unsigned_bytes_acc (fuel : nat) (n : Z) (acc : list Z) : list Z :=
  match fuel with
  | O => n :: acc
  | S fuel' =>
      if n <? 256 then n :: acc
      else unsigned_bytes_acc fuel' (n / 256) (n mod 256 :: acc)
  end.

(** Modelled from the spec: part of the codec, [unsigned_bytes]. *)
Definition unsigned_bytes (n : Z) : list Z :=
  unsigned_bytes_acc (Z.to_nat (Z.log2 n)) n [].

(** Modelled from the spec: part of the codec, [unsigned_value]. *)
Definition unsigned_value (bs : list Z) : Z :=
  fold_left (fun acc b => 256 * acc + b) bs 0.

(** Modelled from the spec: part of the codec, [encode_length]. *)
Definition encode_length (n : Z) : list Z :=
  if n <? 128 then [n]
  else let bs := unsigned_bytes n in (128 + Z.of_nat (length bs)) :: bs.

(** Modelled from the spec: part of the codec, [tlv]. *)
Definition tlv (tag : Z) (content : list Z) : list Z :=
  tag :: encode_length (Z.of_nat (length content)) ++ content.

(** Modelled from the spec: two's-complement bytes of a signed number, least count. *)
Fixpoint signed_bytes_fuel (fuel : nat) (v : Z) : list Z :=
  match fuel with
  | O => [v mod 256]
  | S fuel' =>
      if (-128 <=? v) && (v <? 128) then [v mod 256]
      else signed_bytes_fuel fuel' (v / 256) ++ [v mod 256]
  end.

(** Modelled from the spec: part of the codec, [signed_bytes]. *)
Definition signed_bytes (v : Z) : list Z :=
  signed_bytes_fuel (Z.to_nat (Z.log2 (Z.abs v))) v.

(** Modelled from the spec: part of the codec, [signed_value]. *)
Definition signed_value (bs : list Z) : Z :=
  match bs with
  | [] => 0
  | b :: _ =>
      if b <? 128 then unsigned_value bs
      else unsigned_value bs - 256 ^ Z.of_nat (length bs)
  end.

(** Modelled from the spec: base-128 digits of a sub-identifier. *)
Fixpoint base128_acc (fuel : nat) (n : Z) (acc : list Z) : list Z :=
  match fuel with
  | O => (128 + n mod 128) :: acc
  | S fuel' =>
      if n <? 128 then (128 + n) :: acc
      else base128_acc fuel' (n / 128) ((128 + n mod 128) :: acc)
  end.

(** Modelled from the spec: part of the codec, [base128]. *)
Definition base128 (n : Z) : list Z :=
  if n <? 128 then [n]
  else base128_acc (Z.to_nat (Z.log2 n)) (n / 128) [n mod 128].

(** Modelled from the spec: [asn1.Marshal] of an [int]. *)
Definition marshalInt (v : Z) : list Z := tlv tagInteger (signed_bytes v).

(** Modelled from the spec: [Marshal] of [Integer], [TimeTicks], [OctetString], [Ipaddress]. *)
Definition marshalInteger (v : Z) : list Z := marshalInt v.

(** Modelled from the spec: part of the codec, [marshalTimeTicks]. *)
Definition marshalTimeTicks (v : Z) : list Z := tlv tagTimeTicks (signed_bytes v).

(** Modelled from the spec: part of the codec, [marshalOctetString]. *)
Definition marshalOctetString (b : list Z) : list Z := tlv tagOctetString b.

(** Modelled from the spec: part of the codec, [marshalIpaddress]. *)
Definition marshalIpaddress (a b c d : Z) : list Z := tlv tagIpaddress [a; b; c; d].

(** Modelled from the spec: [Marshal] of an [*Oid]. *)
Definition marshalOid (oid : option Oid) : result (list Z) :=
  match oid with
  | None => Panic Go.NilDereference
  | Some (a :: b :: rest) =>
      if (a >? 2) || ((a <? 2) && (b >=? 40)) then
        Err (MarshalError "invalid object identifier")
      else Ok (tlv tagOid (base128 (40 * a + b) ++ flat_map base128 rest))
  | Some _ => Err (MarshalError "invalid object identifier")
  end.

(** Modelled from the spec: [asn1.Marshal] of the raw SEQUENCE that holds the message. *)
Definition marshalRawSequence (content : list Z) : list Z :=
  tlv tagSequence content.

(** *** Decoding *)

(** Modelled from the spec: part of the codec, [decode_length]. *)
Definition decode_length (bs : list Z) : option (Z * list Z) :=
  match bs with
  | [] => None
  | b :: rest =>
      if b <? 128 then Some (b, rest)
      else
        let n := Z.to_nat (b - 128) in
        if (n <=? length rest)%nat
        then Some (unsigned_value (firstn n rest), skipn n rest)
        else None
  end.

(** Modelled from the spec: one value off the front: its tag, its content and what follows.  The
    content never reaches beyond the declared length. *)
Definition read_tlv (bs : list Z) : option (Z * list Z * list Z) :=
  match bs with
  | [] => None
  | tag :: rest =>
      match decode_length rest with
      | Some (n, body) =>
          if (0 <=? n) && (Z.to_nat n <=? length body)%nat
          then Some (tag, firstn (Z.to_nat n) body, skipn (Z.to_nat n) body)
          else None
      | None => None
      end
  end.

(** Modelled from the spec: part of the codec, [expect]. *)
Definition expect (tag : Z) (bs : list Z) : option (list Z * list Z) :=
  match read_tlv bs with
  | Some (t, content, rest) => if t =? tag then Some (content, rest) else None
  | None => None
  end.

(** Modelled from the spec: sub-identifiers in base 128. *)
Fixpoint decode_subids (acc : Z) (pending : bool) (bs : list Z)
    : option (list Z) :=
  match bs with
  | [] => if pending then None else Some []
  | b :: rest =>
      if b <? 128 then
        match decode_subids 0 false rest with
        | Some l => Some ((128 * acc + b) :: l)
        | None => None
        end
      else decode_subids (128 * acc + (b - 128)) true rest
  end.

(** Modelled from the spec: part of the codec, [decode_oid]. *)
Definition decode_oid (content : list Z) : option Oid :=
  match decode_subids 0 false content with
  | Some (first :: rest) =>
      if first <? 40 then Some (0 :: first :: rest)
      else if first <? 80 then Some (1 :: (first - 40) :: rest)
      else Some (2 :: (first - 80) :: rest)
  | _ => None
  end.

(** Modelled from the spec: a var-bind as it is on the wire: the name and the value's tag and
    content. *)
Definition raw_varbind : Type := Oid * (Z * list Z).

(** Modelled from the spec: part of the codec, [decode_varbinds]. *)
Fixpoint decode_varbinds (fuel : nat) (bs : list Z) : option (list raw_varbind) :=
  match bs with
  | [] => Some []
  | _ :: _ =>
      match fuel with
      | O => None
      | S fuel' =>
          match expect tagSequence bs with
          | Some (vb, rest) =>
              match expect tagOid vb with
              | Some (name, value) =>
                  match decode_oid name, read_tlv value,
                        decode_varbinds fuel' rest with
                  | Some o, Some (t, c, []), Some l => Some ((o, (t, c)) :: l)
                  | _, _, _ => None
                  end
              | None => None
              end
          | None => None
          end
      end
  end.

(** Modelled from the spec: the fields of a Trap-v1 PDU and of the message around it. *)
Record TrapV1 : Type := mkTrapV1 {
  enterprise : Oid;
  agentAddr : list Z;
  genericTrap : Z;
  specificTrap : Z;
  timeStamp : Z;
  varBinds : list raw_varbind
}.

(** Modelled from the spec: part of the codec, [MessageV1]. *)
Record MessageV1 : Type := mkMessageV1 {
  version : Z;
  community : list Z;
  trap : TrapV1
}.

(** Modelled from the spec: part of the codec, [decode_trap]. *)
Definition decode_trap (pdu : list Z) : option TrapV1 :=
  match expect tagOid pdu with
  | Some (ent, r1) =>
      match decode_oid ent, expect tagIpaddress r1 with
      | Some o, Some (ip, r2) =>
          match expect tagInteger r2 with
          | Some (g, r3) =>
              match expect tagInteger r3 with
              | Some (sp, r4) =>
                  match expect tagTimeTicks r4 with
                  | Some (ts, r5) =>
                      match expect tagSequence r5 with
                      | Some (vbs, []) =>
                          match decode_varbinds (length vbs) vbs with
                          | Some l =>
                              if (length ip =? 4)%nat then
                                Some (mkTrapV1 o ip (signed_value g)
                                        (signed_value sp) (signed_value ts) l)
                              else None
                          | None => None
                          end
                      | _ => None
                      end
                  | None => None
                  end
              | None => None
              end
          | None => None
          end
      | _, _ => None
      end
  | None => None
  end.

(** Modelled from the spec: a datagram that holds a Trap-v1 message. *)
Definition decode_trap_message (datagram : list Z) : option MessageV1 :=
  match expect tagSequence datagram with
  | Some (body, []) =>
      match expect tagInteger body with
      | Some (v, r1) =>
          match expect tagOctetString r1 with
          | Some (c, r2) =>
              match expect tagTrapV1 r2 with
              | Some (pdu, []) =>
                  match decode_trap pdu with
                  | Some t => Some (mkMessageV1 (signed_value v) c t)
                  | None => None
                  end
              | _ => None
              end
          | None => None
          end
      | None => None
      end
  | _ => None
  end.

End Ber.

(** ** Trap-v1 *)

(** Modelled from the spec: the declaration of [TrapPduV1] is not part of
    [client.go]; its fields are those the Trap-v1 PDU is built from. *)
Record TrapPduV1 : Type := mkTrapPduV1 {
  Enterprise : string;
  AgentAddr : string;
  GenericTrap : Z;
  SpecificTrap : Z;
  TimeStamp : Z;
  VariableBindings : Z
}.

Definition bytes_of_string (s : string) : list Z :=
  map (fun c => Z.of_nat (nat_of_ascii c)) (list_ascii_of_string s).

(** Modelled from the spec: [NewOid] is not part of [client.go].  It reads
    the dot-decimal text form, every component a number in the range of a
    32-bit unsigned integer, and gives [nil] for any other text. *)
Definition parse_subid (v : string) : option Z :=
  match Go.Atoi v with
  | (n, None) => if (n <? 0) || (n >? 4294967295) then None else Some n
  | (_, Some _) => None
  end.

(** Modelled from the spec: the components of the text form, one by one. *)
Fixpoint parse_subids (l : list string) : option Oid :=
  match l with
  | [] => Some []
  | v :: l' =>
      match parse_subid v, parse_subids l' with
      | Some n, Some o => Some (n :: o)
      | _, _ => None
      end
  end.

(** Modelled from the spec: [NewOid]; a leading dot is allowed. *)
Definition NewOid (s : string) : option Oid :=
  match Go.Split s "." with
  | EmptyString :: subids => parse_subids subids
  | subids => parse_subids subids
  end.

(** The array [ipByte] and the assignment [ipByte[n] = b]. *)
Definition ip4 : Type := (Z * Z * Z * Z)%type.

Definition set_ipByte (n : nat) (b : Z) (ip : ip4) : result ip4 :=
  let '(b0, b1, b2, b3) := ip in
  match n with
  | 0%nat => Ok (b, b1, b2, b3)
  | 1%nat => Ok (b0, b, b2, b3)
  | 2%nat => Ok (b0, b1, b, b3)
  | 3%nat => Ok (b0, b1, b2, b)
  | _ => Panic Go.IndexOutOfRange
  end.

(** The body of [for n, v := range strings.Split(varPduV1.AgentAddr, ".")]. *)
Definition agentAddr_step (acc : result ip4) (nv : nat * string) : result ip4 :=
  ip <- acc ;;
  let input := fst (Go.Atoi (snd nv)) in
  set_ipByte (fst nv) (Go.to_byte input) ip.

Definition agentAddr_bytes (addr : string) : result ip4 :=
  let parts := Go.Split addr "." in
  fold_left agentAddr_step (combine (seq 0 (length parts)) parts)
    (Ok (0, 0, 0, 0)).

(** The bytes [V1Trap] puts into [raw.Bytes], up to the patch of the
    length byte of the PDU. *)
Definition trap_body (a : SNMPArguments) (varPduV1 : TrapPduV1)
    : result (list Z) :=
  let raw := Ber.marshalInt (Version a) in
  let raw := raw ++ Ber.marshalOctetString (bytes_of_string (Community a)) in
  let raw := raw ++ [164; 0] in
  let dataTrapLength := length raw in
  buf <- Ber.marshalOid (NewOid (Enterprise varPduV1)) ;;
  let raw := raw ++ buf in
  ip <- agentAddr_bytes (AgentAddr varPduV1) ;;
  let '(b0, b1, b2, b3) := ip in
  let raw := raw ++ Ber.marshalIpaddress b0 b1 b2 b3 in
  let raw := raw ++ Ber.marshalInteger (Go.to_int32 (GenericTrap varPduV1)) in
  let raw := raw ++ Ber.marshalInteger (Go.to_int32 (SpecificTrap varPduV1)) in
  let raw := raw ++ Ber.marshalTimeTicks (Go.to_uint32 (TimeStamp varPduV1)) in
  let raw := raw ++ [48; 0] in
  Ok (update (dataTrapLength - 1)
        (Go.to_byte (Z.of_nat (length raw) - Z.of_nat dataTrapLength)) raw).

Section TrapV1.
Variable env : Env.

(** [V1Trap] *)
Definition V1Trap (varPduV1 : TrapPduV1) (s : SNMP) (t : trace)
    : result unit * SNMP * trace :=
  if Version (args s) >? V1 then
    (Err (ArgumentError (VInt (Version (args s)))
            (Text "V1trap Unsupported other SNMP Version")), s, t)
  else
    match trap_body (args s) varPduV1 with
    | Err e => (Err e, s, t)
    | Panic p => (Panic p, s, t)
    | Nil => (Nil, s, t)
    | Ok raw =>
        let marbuf := Ber.marshalRawSequence raw in
        let t1 := EvHexDump marbuf :: t in
        if conn s then
          let t2 := EvWrite marbuf :: EvSetWriteDeadline (Timeout (args s)) :: t1 in
          let err := write_reply env t2 in
          (match err with None => Ok tt | Some e => Err e end,
           s, EvPrintErr err :: t2)
        else (Panic Go.NilDereference, s, t1)
    end.

End TrapV1.

(** * Verification *)

(** ** Booleans of the source as propositions *)

Ltac boolprop :=
  repeat match goal with
  | H : (_ && _) = true |- _ => apply andb_true_iff in H; destruct H
  | H : (_ || _) = false |- _ => apply orb_false_iff in H; destruct H
  | H : (_ && _) = false |- _ => apply andb_false_iff in H
  | H : (_ || _) = true |- _ => apply orb_true_iff in H
  | H : negb _ = true |- _ => apply negb_true_iff in H
  | H : negb _ = false |- _ => apply negb_false_iff in H
  | H : (_ <? _) = true |- _ => apply Z.ltb_lt in H
  | H : (_ <? _) = false |- _ => apply Z.ltb_ge in H
  | H : (_ >? _) = true |- _ => rewrite Z.gtb_ltb in H; apply Z.ltb_lt in H
  | H : (_ >? _) = false |- _ => rewrite Z.gtb_ltb in H; apply Z.ltb_ge in H
  | H : (_ <=? _) = true |- _ => apply Z.leb_le in H
  | H : (_ <=? _) = false |- _ => apply Z.leb_gt in H
  | H : (_ =? _) = true |- _ => apply Z.eqb_eq in H
  | H : (_ =? _) = false |- _ => apply Z.eqb_neq in H
  | H : String.eqb _ _ = true |- _ => apply String.eqb_eq in H
  | H : String.eqb _ _ = false |- _ => apply String.eqb_neq in H
  end.

(** ** Construction: [validate] and [NewSNMP] *)

Module Construction.

(** The message size is refused: non-zero and below the minimum, or
    above the largest 32-bit integer. *)
Definition size_refused (a : SNMPArguments) : Prop :=
  (MessageMaxSize a <> 0 /\ MessageMaxSize a < msgSizeMinimum)
  \/ MessageMaxSize a > Go.MaxInt32.

Definition engine_id_refused (id : string) : Prop :=
  id <> "" /\ valid_hex (stripHexPrefix id) = false.

(** The conditions on the V3 fields. *)
Definition v3_refused (a : SNMPArguments) : Prop :=
  (strlen (UserName a) < 1 \/ strlen (UserName a) > 32)
  \/ (SecLevel a > NoAuthNoPriv
      /\ (strlen (AuthPassword a) < 8
          \/ (AuthProto a <> Md5 /\ AuthProto a <> Sha)))
  \/ (SecLevel a > AuthNoPriv
      /\ (strlen (PrivPassword a) < 8
          \/ (PrivProto a <> Des /\ PrivProto a <> Aes
              /\ PrivProto a <> Aes192 /\ PrivProto a <> Aes256)))
  \/ engine_id_refused (SecurityEngineId a)
  \/ engine_id_refused (ContextEngineId a).

Lemma engineId_verdict : forall id,
  snd (engineIdToBytes id) = None <-> valid_hex id = true.
Proof.
  intros id. unfold engineIdToBytes, valid_hex.
  destruct (hex_decode id); simpl; split; congruence.
Qed.

Lemma engineId_error : forall id e,
  snd (engineIdToBytes id) = Some e -> exists v m, e = ArgumentError v m.
Proof.
  intros id e. unfold engineIdToBytes.
  destruct (hex_decode id); simpl; intros H; inversion H; eauto.
Qed.

(** What [validateV3] answers, field by field. *)
Lemma validateV3_refuses : forall a,
  (exists v m, fst (validateV3 a) = Some (ArgumentError v m)) <-> v3_refused a.
Proof.
  intros a. unfold validateV3, v3_refused, engine_id_refused.
  destruct ((strlen (UserName a) <? 1) || (strlen (UserName a) >? 32)) eqn:Hu.
  { simpl. split; [intros _ | eauto]. boolprop. left. destruct Hu; boolprop; lia. }
  destruct ((SecLevel a >? NoAuthNoPriv) && (strlen (AuthPassword a) <? 8)) eqn:Hap.
  { simpl. split; [intros _ | eauto]. boolprop. right; left. lia. }
  destruct ((SecLevel a >? NoAuthNoPriv) && negb (AuthProto a =? Md5)%string
            && negb (AuthProto a =? Sha)%string) eqn:Hapr.
  { simpl. split; [intros _ | eauto]. boolprop. right; left.
    split; [lia | right; split; assumption]. }
  destruct ((SecLevel a >? AuthNoPriv) && (strlen (PrivPassword a) <? 8)) eqn:Hpp.
  { simpl. split; [intros _ | eauto]. boolprop. right; right; left. lia. }
  destruct ((SecLevel a >? AuthNoPriv) && negb (PrivProto a =? Des)%string
            && negb (PrivProto a =? Aes)%string
            && negb (PrivProto a =? Aes192)%string
            && negb (PrivProto a =? Aes256)%string) eqn:Hppr.
  { simpl. split; [intros _ | eauto]. boolprop. right; right; left.
    split; [lia | right; repeat split; assumption]. }
  assert (Hfields :
    ~ ((strlen (UserName a) < 1 \/ strlen (UserName a) > 32)
       \/ (SecLevel a > NoAuthNoPriv
           /\ (strlen (AuthPassword a) < 8
               \/ (AuthProto a <> Md5 /\ AuthProto a <> Sha)))
       \/ (SecLevel a > AuthNoPriv
           /\ (strlen (PrivPassword a) < 8
               \/ (PrivProto a <> Des /\ PrivProto a <> Aes
                   /\ PrivProto a <> Aes192 /\ PrivProto a <> Aes256))))).
  { intros [Hc | [[Hl Hc] | [Hl Hc]]].
    - boolprop. lia.
    - apply Z.gt_lt, Z.ltb_lt in Hl. rewrite <- Z.gtb_ltb in Hl.
      rewrite Hl in Hap, Hapr. simpl in Hap, Hapr.
      destruct Hc as [Hc | [Hm Hs]].
      + boolprop. lia.
      + apply String.eqb_neq in Hm, Hs. rewrite Hm, Hs in Hapr. discriminate.
    - apply Z.gt_lt, Z.ltb_lt in Hl. rewrite <- Z.gtb_ltb in Hl.
      rewrite Hl in Hpp, Hppr. simpl in Hpp, Hppr.
      destruct Hc as [Hc | [Hd [Ha [Ha2 Ha3]]]].
      + boolprop. lia.
      + apply String.eqb_neq in Hd, Ha, Ha2, Ha3.
        rewrite Hd, Ha, Ha2, Ha3 in Hppr. discriminate. }
  clear Hu Hap Hapr Hpp Hppr.
  destruct (SecurityEngineId a =? "")%string eqn:Hs; simpl.
  - apply String.eqb_eq in Hs.
    destruct (ContextEngineId a =? "")%string eqn:Hc; simpl.
    + apply String.eqb_eq in Hc. split.
      * intros (v & m & H). discriminate.
      * intros H. exfalso. tauto.
    + apply String.eqb_neq in Hc.
      destruct (snd (engineIdToBytes (stripHexPrefix (ContextEngineId a)))) eqn:He; simpl.
      * split.
        -- intros _. right; right; right; right. split; [assumption|].
           destruct (valid_hex (stripHexPrefix (ContextEngineId a))) eqn:Hv; [|reflexivity].
           apply engineId_verdict in Hv. congruence.
        -- intros _. apply engineId_error in He. destruct He as (v & m & ->). eauto.
      * apply engineId_verdict in He. split.
        -- intros (v & m & H). discriminate.
        -- intros H. exfalso. intuition congruence.
  - apply String.eqb_neq in Hs.
    destruct (snd (engineIdToBytes (stripHexPrefix (SecurityEngineId a)))) eqn:He; simpl.
    + split.
      * intros _. right; right; right; left. split; [assumption|].
        destruct (valid_hex (stripHexPrefix (SecurityEngineId a))) eqn:Hv; [|reflexivity].
        apply engineId_verdict in Hv. congruence.
      * intros _. apply engineId_error in He. destruct He as (v & m & ->). eauto.
    + apply engineId_verdict in He.
      destruct (ContextEngineId a =? "")%string eqn:Hc; simpl.
      * apply String.eqb_eq in Hc. split.
        -- intros (v & m & H). discriminate.
        -- intros H. exfalso. intuition congruence.
      * apply String.eqb_neq in Hc.
        destruct (snd (engineIdToBytes (stripHexPrefix (ContextEngineId a)))) eqn:He2; simpl.
        -- split.
           ++ intros _. right; right; right; right. split; [assumption|].
              destruct (valid_hex (stripHexPrefix (ContextEngineId a))) eqn:Hv; [|reflexivity].
              apply engineId_verdict in Hv. congruence.
           ++ intros _. apply engineId_error in He2. destruct He2 as (v & m & ->). eauto.
        -- apply engineId_verdict in He2. split.
           ++ intros (v & m & H). discriminate.
           ++ intros H. exfalso. intuition congruence.
Qed.

(** A V3 configuration that is in order but for its message size. *)
Definition small_size_args : SNMPArguments :=
  mkArgs V3 "udp" "192.168.1.1:161" 0 0 100 "" "user" NoAuthNoPriv
    "" "" "" "" "" "" "" 0 0.

(** C6, counterexample: with [Version = V3], none of the listed conditions
    on the user name, the pass phrases, the protocols and the engine IDs
    holds for [small_size_args], and yet [NewSNMP] answers with an
    [ArgumentError], for the message size of 100. *)
Lemma NewSNMP_v3_refuses_small_size :
  ~ (forall a, Version a = V3 ->
       (is_argument_error (NewSNMP a) <-> v3_refused a)).
Proof.
  intros H. destruct (H small_size_args eq_refl) as [H1 _].
  assert (Hr : v3_refused small_size_args).
  { apply H1. unfold is_argument_error. vm_compute. eauto. }
  unfold v3_refused, engine_id_refused in Hr. vm_compute in Hr.
  intuition congruence.
Qed.

(** C6, amended: with [Version = V3], [NewSNMP] answers with an
    [ArgumentError] exactly when the message size is refused (non-zero
    and below 484, or above 2^31-1), or the user name's length is outside
    1..32, or the level is above NoAuthNoPriv and the authentication pass
    phrase is shorter than 8 or the protocol neither MD5 nor SHA, or the
    level is above AuthNoPriv and the privacy pass phrase is shorter than
    8 or the protocol none of DES, AES, AES192, AES256, or a non-empty
    engine ID is not hexadecimal once an optional 0x is stripped. *)
Theorem NewSNMP_v3_argument_error : forall a,
  Version a = V3 ->
  (is_argument_error (NewSNMP a) <-> size_refused a \/ v3_refused a).
Proof.
  intros a Hv. unfold is_argument_error, NewSNMP, validate, size_refused.
  rewrite Hv. simpl.
  destruct (negb (MessageMaxSize a =? 0) && (MessageMaxSize a <? msgSizeMinimum)
            || (MessageMaxSize a >? Go.MaxInt32)) eqn:Hm.
  - split; [intros _ | eauto]. left. boolprop.
    destruct Hm as [Hm | Hm]; boolprop; [left | right]; lia.
  - assert (Hsz : ~ ((MessageMaxSize a <> 0 /\ MessageMaxSize a < msgSizeMinimum)
                     \/ MessageMaxSize a > Go.MaxInt32)).
    { boolprop. intros [[Hn Hl] | Hg]; [|lia].
      destruct H as [H | H]; boolprop; [congruence | lia]. }
    pose proof (validateV3_refuses a) as Hv3.
    destruct (validateV3 a) as [[e|] a'] eqn:E; simpl in Hv3.
    + split.
      * intros (v & m & H). inversion H; subst. right. apply Hv3. eauto.
      * intros [H | H]; [tauto|]. apply Hv3 in H.
        destruct H as (v & m & H). inversion H; subst. eauto.
    + split.
      * intros (v & m & H). discriminate.
      * intros [H | H]; [tauto|]. apply Hv3 in H.
        destruct H as (v & m & H). discriminate.
Qed.

Lemma NewSNMP_v3_argument_error_witness :
  is_argument_error (NewSNMP small_size_args)
  <-> size_refused small_size_args \/ v3_refused small_size_args.
Proof. apply (NewSNMP_v3_argument_error small_size_args). reflexivity. Defined.

(** A V2c configuration in order, with no address. *)
Definition no_address_args : SNMPArguments :=
  mkArgs V2c "" "" 0 0 0 "public" "" NoAuthNoPriv "" "" "" "" "" "" "" 0 0.

(** C8, counterexample: [NewSNMP] with an empty [Address] hands back a
    client and no [ArgumentError]. *)
Lemma NewSNMP_accepts_empty_address :
  ~ (forall a, Address a = "" -> is_argument_error (NewSNMP a)).
Proof.
  intros H. destruct (H no_address_args eq_refl) as (v & m & E).
  vm_compute in E. discriminate.
Qed.

Lemma validateV3_address : forall a x,
  validateV3 (set_Address a x)
  = (fst (validateV3 a), set_Address (snd (validateV3 a)) x).
Proof.
  intros a x. unfold validateV3. simpl.
  repeat match goal with
         | |- context [if ?c then _ else _] => destruct c; simpl
         end; try reflexivity;
  repeat match goal with
         | |- context [match snd ?c with _ => _ end] => destruct (snd c); simpl
         end; reflexivity.
Qed.

Lemma validate_address : forall a x,
  validate (set_Address a x)
  = (fst (validate a), set_Address (snd (validate a)) x).
Proof.
  intros a x. unfold validate. simpl.
  repeat match goal with
         | |- context [if ?c then _ else _] => destruct c; simpl
         end; try reflexivity.
  apply validateV3_address.
Qed.

Lemma setDefault_address : forall a x,
  setDefault (set_Address a x) = set_Address (setDefault a) x.
Proof.
  intros a x. unfold setDefault. simpl.
  destruct (Network a =? "")%string; simpl;
    destruct (Timeout a <=? 0) eqn:Ht; simpl; try rewrite Ht;
    destruct (MessageMaxSize a =? 0) eqn:Hm; simpl; try rewrite Hm;
    reflexivity.
Qed.

(** C8, amended: [NewSNMP] does not look at [Address].  The outcome of
    construction is the same whatever the address, the empty one
    included: the same error when the other arguments are refused, and
    otherwise a client that holds the address as given. *)
Theorem NewSNMP_ignores_address : forall a x,
  NewSNMP (set_Address a x)
  = match NewSNMP a with
    | Ok s => Ok (set_args s (set_Address (args s) x))
    | Err e => Err e
    | Panic p => Panic p
    | Nil => Nil
    end.
Proof.
  intros a x. unfold NewSNMP. rewrite validate_address.
  destruct (validate a) as [[e|] a']; simpl; [reflexivity|].
  rewrite setDefault_address. reflexivity.
Qed.

End Construction.

(** ** Requests: what reaches the transport *)

Module Requests.

(** The arguments an event shows to the engine, if any. *)
Definition event_args (e : event) : option SNMPArguments :=
  match e with
  | EvSendPdu _ a | EvDiscover a => Some a
  | _ => None
  end.

Definition shows (a : SNMPArguments) (e : event) : Prop :=
  forall a', event_args e = Some a' -> a' = a.

Lemma retry_invariant : forall (R St : Type) (P Q : St -> Prop)
    (f : St -> (R + error) * St),
  (forall st, P st -> Q (snd (f st))) ->
  (forall st, Q st -> P st) ->
  forall n st, P st -> Q (snd (retry_loop n f st)).
Proof.
  intros R St P Q f Hstep Hback. induction n as [|n IH]; intros st Hst.
  - simpl. specialize (Hstep st Hst). destruct (f st) as [r st'].
    destruct r as [x|[]]; exact Hstep.
  - simpl. specialize (Hstep st Hst). destruct (f st) as [r st']. simpl in Hstep.
    destruct r as [x|[]]; try exact Hstep; apply IH, Hback, Hstep.
Qed.

(** What every attempt keeps, [retry] keeps, whatever its count. *)
Lemma retry_keeps : forall (R St : Type) (P : St -> Prop)
    (f : St -> (R + error) * St),
  (forall st, P st -> P (snd (f st))) ->
  forall n st, P st -> P (snd (retry n f st)).
Proof.
  intros R St P f Hstep n st Hst. unfold retry.
  destruct (n <? 0); [exact Hst|].
  pose proof (retry_invariant R St P P f Hstep (fun _ H => H) (Z.to_nat n) st Hst)
    as H.
  destruct (retry_loop _ f st) as [r st']. exact H.
Qed.

(** With a count that is not negative there is a first attempt. *)
Lemma retry_attempts : forall (R St : Type) (P Q : St -> Prop)
    (f : St -> (R + error) * St),
  (forall st, P st -> Q (snd (f st))) ->
  (forall st, Q st -> P st) ->
  forall n st, 0 <= n -> P st -> Q (snd (retry n f st)).
Proof.
  intros R St P Q f Hstep Hback n st Hn Hst. unfold retry.
  replace (n <? 0) with false by (symmetry; apply Z.ltb_ge; assumption).
  pose proof (retry_invariant R St P Q f Hstep Hback (Z.to_nat n) st Hst) as H.
  destruct (retry_loop _ f st) as [r st']. exact H.
Qed.

Section WithEnv.
Variable env : Env.

(** What a sequence of new events [new] on top of [t] looks like. *)
Definition extends (P : event -> Prop) (t t' : trace) : Prop :=
  exists new, t' = new ++ t /\ Forall P new.

Lemma extends_refl : forall P t, extends P t t.
Proof. intros. exists []. split; [reflexivity | constructor]. Qed.

Lemma extends_cons : forall (P : event -> Prop) t t' e,
  P e -> extends P t t' -> extends P t (e :: t').
Proof.
  intros P t t' e He (new & -> & Hn). exists (e :: new).
  split; [reflexivity | constructor; assumption].
Qed.

Lemma extends_trans : forall P t1 t2 t3,
  extends P t1 t2 -> extends P t2 t3 -> extends P t1 t3.
Proof.
  intros P t1 t2 t3 (n1 & -> & H1) (n2 & -> & H2). exists (n2 ++ n1).
  split; [apply app_assoc | apply Forall_app; split; assumption].
Qed.

Lemma dial_retry : forall a n s t,
  args s = a ->
  args (fst (snd (retry n (dial_once env) (s, t)))) = a
  /\ extends (shows a) t (snd (snd (retry n (dial_once env) (s, t)))).
Proof.
  intros a n s t Ha.
  apply (retry_keeps unit (SNMP * trace)
           (fun st => args (fst st) = a /\ extends (shows a) t (snd st))).
  - intros [s0 t0] [Hs Ht]. simpl in *. unfold dial_once.
    destruct (dial_reply env _); simpl; (split; [assumption|]);
      apply extends_cons; try assumption; intros a' E; discriminate.
  - simpl. split; [assumption | apply extends_refl].
Qed.

Lemma Close_args : forall a s t,
  args s = a ->
  args (fst (Close s t)) = a /\ extends (shows a) t (snd (Close s t)).
Proof.
  intros a s t Ha. unfold Close. destruct (conn s); simpl; (split; [assumption|]);
    repeat (apply extends_cons; [intros a' E; discriminate|]); apply extends_refl.
Qed.

(** [Open] leaves the arguments alone, and discovery sees them. *)
Lemma Open_args : forall a s t,
  args s = a ->
  args (snd (fst (Open env s t))) = a
  /\ extends (shows a) t (snd (Open env s t)).
Proof.
  intros a s t Ha. unfold Open. destruct (conn s).
  - simpl. split; [assumption | apply extends_refl].
  - destruct (dial_retry a (Go.to_int (Retries (args s))) s t Ha) as [H1 H2].
    destruct (retry (Go.to_int (Retries (args s))) (dial_once env) (s, t))
      as [r [s1 t1]].
    simpl in H1, H2.
    assert (Hd : extends (shows a) t (EvDiscover (args (set_engine s1 true)) :: t1)).
    { apply extends_cons; [|assumption]. intros a' E. simpl in E. congruence. }
    assert (Hgo :
      args (snd (fst (match discover_reply env
                              (EvDiscover (args (set_engine s1 true)) :: t1) with
                      | Some e =>
                          let '(s3, t3) :=
                            Close (set_engine s1 true)
                              (EvDiscover (args (set_engine s1 true)) :: t1) in
                          (Some e, s3, t3)
                      | None =>
                          (None, set_engine s1 true,
                           EvDiscover (args (set_engine s1 true)) :: t1)
                      end))) = a
      /\ extends (shows a) t
           (snd (match discover_reply env
                         (EvDiscover (args (set_engine s1 true)) :: t1) with
                 | Some e =>
                     let '(s3, t3) :=
                       Close (set_engine s1 true)
                         (EvDiscover (args (set_engine s1 true)) :: t1) in
                     (Some e, s3, t3)
                 | None =>
                     (None, set_engine s1 true,
                      EvDiscover (args (set_engine s1 true)) :: t1)
                 end))).
    { destruct (discover_reply env _).
      - destruct (Close_args a (set_engine s1 true)
                    (EvDiscover (args (set_engine s1 true)) :: t1) H1) as [C1 C2].
        destruct (Close _ _) as [s3 t3]. simpl in *.
        split; [assumption | eapply extends_trans; eassumption].
      - simpl. split; assumption. }
    destruct r as [[u|e]|]; simpl; [exact Hgo | split; assumption | exact Hgo].
Qed.

Lemma send_retry : forall pdu a n t,
  0 <= n ->
  exists new,
    snd (retry n (send_once env pdu a) t) = new ++ t
    /\ Forall (eq (EvSendPdu pdu a)) new
    /\ In (EvSendPdu pdu a) new.
Proof.
  intros pdu a n t Hn0.
  apply (retry_attempts Pdu trace
           (fun t' => exists new, t' = new ++ t /\ Forall (eq (EvSendPdu pdu a)) new)
           (fun t' => exists new, t' = new ++ t
                      /\ Forall (eq (EvSendPdu pdu a)) new
                      /\ In (EvSendPdu pdu a) new)).
  - intros t0 (new & -> & Hn). unfold send_once. simpl.
    exists (EvSendPdu pdu a :: new). repeat split.
    + constructor; [reflexivity | assumption].
    + left. reflexivity.
  - intros t0 (new & E & Hn & _). eauto.
  - assumption.
  - exists []. split; [reflexivity | constructor].
Qed.

(** [sendPdu] leaves the arguments alone, and every exchange it starts
    sees them. *)
Lemma sendPdu_args : forall a pdu s t,
  args s = a ->
  args (snd (fst (sendPdu env pdu s t))) = a
  /\ extends (shows a) t (snd (sendPdu env pdu s t)).
Proof.
  intros a pdu s t Ha. unfold sendPdu.
  destruct (Open_args a s (EvPrintln "sendPdu" :: t) Ha) as [H1 H2].
  assert (H3 : extends (shows a) t (snd (Open env s (EvPrintln "sendPdu" :: t)))).
  { eapply extends_trans; [|exact H2].
    apply extends_cons; [intros a' E; discriminate | apply extends_refl]. }
  destruct (Open env s (EvPrintln "sendPdu" :: t)) as [[err s1] t1].
  simpl in H1, H2, H3. destruct err as [e|]; simpl; [split; assumption|].
  destruct (Go.to_int (Retries (args s1)) <? 0) eqn:Hr; simpl; [split; assumption|].
  apply Z.ltb_ge in Hr.
  destruct (engine s1); simpl; [|split; assumption].
  destruct (send_retry pdu (args s1) (Go.to_int (Retries (args s1))) t1 Hr)
    as (new & E & Hn & _).
  destruct (retry _ _ t1) as [r t2]. simpl in E. subst t2.
  assert (H4 : extends (shows a) t (new ++ t1)).
  { eapply extends_trans; [exact H3|]. exists new. split; [reflexivity|].
    eapply Forall_impl; [|exact Hn]. intros e <- a' E. simpl in E. congruence. }
  destruct r as [[x|e]|]; simpl; split; assumption.
Qed.

(** On an open connection [sendPdu] hands the PDU to the engine, when the
    count given to [retry] is not negative. *)
Lemma sendPdu_sends : forall pdu s t,
  conn s = true -> engine s = true ->
  0 <= Go.to_int (Retries (args s)) ->
  exists new,
    snd (sendPdu env pdu s t) = new ++ t
    /\ In (EvSendPdu pdu (args s)) new.
Proof.
  intros pdu s t Hc He Hr. unfold sendPdu, Open. rewrite Hc, He.
  replace (Go.to_int (Retries (args s)) <? 0) with false
    by (symmetry; apply Z.ltb_ge; assumption).
  destruct (send_retry pdu (args s) (Go.to_int (Retries (args s)))
              (EvPrintln "sendPdu" :: t) Hr)
    as (new & E & _ & Hin).
  destruct (retry _ _ _) as [r t2]. simpl in E. subst t2.
  exists (new ++ [EvPrintln "sendPdu"]). split.
  - destruct r as [[x|e]|]; simpl; rewrite <- app_assoc; reflexivity.
  - apply in_or_app. left. assumption.
Qed.


End WithEnv.

(** *** GetBulkRequest *)

(** A client of version V2c whose connection is open. *)
Definition open_v2c : SNMP :=
  mkSNMP true
    (mkArgs V2c "udp" "192.168.1.1:161" timeoutDefault 0 msgSizeDefault
       "public" "" NoAuthNoPriv "" "" "" "" "" "" "" 0 0)
    true.

(** X24: [GetBulkRequest] answers with an [ArgumentError], the client and
    the trace of effects untouched, when the version is V1 or one of the
    two counts is outside 0..2^31-1; for V2c and V3 with both counts in
    range it is [sendPdu] of a GetBulkRequest PDU that names the OIDs
    given and carries the two counts, and on an open connection that PDU
    is handed to the engine when [int(Retries)] is not negative. *)
Theorem GetBulkRequest_checks_arguments :
  forall env oids nonRepeaters maxRepetitions s t,
    (Version (args s) = V1
     \/ nonRepeaters < 0 \/ nonRepeaters > Go.MaxInt32
     \/ maxRepetitions < 0 \/ maxRepetitions > Go.MaxInt32 ->
     exists v m,
       GetBulkRequest env oids nonRepeaters maxRepetitions s t
       = (Err (ArgumentError v m), s, t))
    /\ (Version (args s) = V2c \/ Version (args s) = V3 ->
        0 <= nonRepeaters <= Go.MaxInt32 ->
        0 <= maxRepetitions <= Go.MaxInt32 ->
        exists pdu,
          pduType pdu = GetBulkRequestT
          /\ ErrorStatus pdu = nonRepeaters
          /\ ErrorIndex pdu = maxRepetitions
          /\ map vbOid (PduVarBinds pdu) = oids
          /\ GetBulkRequest env oids nonRepeaters maxRepetitions s t
             = sendPdu env pdu s t
          /\ (conn s = true -> engine s = true ->
              0 <= Go.to_int (Retries (args s)) ->
              exists new,
                snd (GetBulkRequest env oids nonRepeaters maxRepetitions s t)
                = new ++ t
                /\ In (EvSendPdu pdu (args s)) new)).
Proof.
  intros env oids nr mr s t. split.
  - intros H. unfold GetBulkRequest.
    destruct (Version (args s) <? V2c) eqn:Hv; [eauto|].
    destruct ((nr <? 0) || (nr >? Go.MaxInt32)) eqn:Hn; [eauto|].
    destruct ((mr <? 0) || (mr >? Go.MaxInt32)) eqn:Hm; [eauto|].
    exfalso. boolprop. unfold V1, V2c in *. lia.
  - intros Hv Hn Hm.
    assert (E : GetBulkRequest env oids nr mr s t
                = sendPdu env
                    (SetMaxRepetitions
                       (SetNonrepeaters
                          (NewPduWithOids (Version (args s)) GetBulkRequestT oids) nr) mr)
                    s t).
    { unfold GetBulkRequest.
      replace (Version (args s) <? V2c) with false
        by (symmetry; apply Z.ltb_ge; unfold V2c, V3 in *; lia).
      replace ((nr <? 0) || (nr >? Go.MaxInt32)) with false
        by (symmetry; apply orb_false_iff; rewrite Z.gtb_ltb;
            split; apply Z.ltb_ge; lia).
      replace ((mr <? 0) || (mr >? Go.MaxInt32)) with false
        by (symmetry; apply orb_false_iff; rewrite Z.gtb_ltb;
            split; apply Z.ltb_ge; lia).
      reflexivity. }
    exists (SetMaxRepetitions
              (SetNonrepeaters
                 (NewPduWithOids (Version (args s)) GetBulkRequestT oids) nr) mr).
    split; [reflexivity|]. split; [reflexivity|]. split; [reflexivity|].
    split; [|split; [exact E|]].
    + simpl. rewrite map_map. simpl. apply map_id.
    + intros Hc He Hr. rewrite E. apply sendPdu_sends; assumption.
Qed.

Lemma GetBulkRequest_checks_arguments_witness :
  (exists v m,
     GetBulkRequest (Agent.env []) [Some [1; 3; 6; 1]] (-1) 5 open_v2c []
     = (Err (ArgumentError v m), open_v2c, []))
  /\ (exists pdu,
        pduType pdu = GetBulkRequestT
        /\ ErrorStatus pdu = 0
        /\ ErrorIndex pdu = 5
        /\ map vbOid (PduVarBinds pdu) = [Some [1; 3; 6; 1]]
        /\ GetBulkRequest (Agent.env []) [Some [1; 3; 6; 1]] 0 5 open_v2c []
           = sendPdu (Agent.env []) pdu open_v2c []
        /\ exists new,
             snd (GetBulkRequest (Agent.env []) [Some [1; 3; 6; 1]] 0 5 open_v2c [])
             = new ++ []
             /\ In (EvSendPdu pdu (args open_v2c)) new).
Proof.
  split.
  - apply (proj1 (GetBulkRequest_checks_arguments (Agent.env [])
                    [Some [1; 3; 6; 1]] (-1) 5 open_v2c [])).
    right. left. lia.
  - destruct (proj2 (GetBulkRequest_checks_arguments (Agent.env [])
                       [Some [1; 3; 6; 1]] 0 5 open_v2c []))
      as (pdu & H1 & H2 & H3 & H4 & H5 & H6).
    + left. reflexivity.
    + unfold Go.MaxInt32. lia.
    + unfold Go.MaxInt32. lia.
    + exists pdu. repeat split; try assumption.
      apply H6; [reflexivity | reflexivity | vm_compute; discriminate].
Defined.

(** A V2c client whose connection is open and whose [Retries] is 2^63,
    the least [uint] that [int(...)] turns into a negative number. *)
Definition wrapped_v2c : SNMP :=
  mkSNMP true
    (mkArgs V2c "udp" "192.168.1.1:161" timeoutDefault 9223372036854775808
       msgSizeDefault "public" "" NoAuthNoPriv "" "" "" "" "" "" "" 0 0)
    true.



(** *** V2TrapWithBootsTime *)

Lemma v2trap_args : forall env a pduType varBinds s t,
  args s = a ->
  args (snd (fst (v2trap env pduType varBinds s t))) = a
  /\ extends (shows a) t (snd (v2trap env pduType varBinds s t)).
Proof.
  intros env a ty vbs s t Ha. unfold v2trap.
  destruct (Version (args s) <? V2c); simpl.
  - split; [assumption|].
    apply extends_cons; [intros a' E; discriminate | apply extends_refl].
  - destruct (sendPdu_args env a (NewPduWithVarBinds (Version (args s)) ty vbs)
                s (EvPrintln "v2trap" :: t) Ha) as [H1 H2].
    destruct (sendPdu env _ s _) as [[r s1] t1]. simpl in *.
    split; [assumption|]. eapply extends_trans; [|exact H2].
    apply extends_cons; [intros a' E; discriminate | apply extends_refl].
Qed.

(** C5: [V2TrapWithBootsTime] answers with an [ArgumentError], the client
    and the trace of effects untouched, when [eBoots] or [eTime] is
    outside 0..2^31-1.  With both in range, whatever the outcome of the
    send, every exchange with the engine during the call sees the
    arguments with [authEngineBoots = eBoots] and [authEngineTime =
    eTime], and the client handed back holds the arguments it had with
    both fields at 0. *)
Theorem V2TrapWithBootsTime_frame : forall env varBinds eBoots eTime s t,
  (eBoots < 0 \/ eBoots > Go.MaxInt32 \/ eTime < 0 \/ eTime > Go.MaxInt32 ->
   exists v m,
     V2TrapWithBootsTime env varBinds eBoots eTime s t
     = (Err (ArgumentError v m), s, t))
  /\ (0 <= eBoots <= Go.MaxInt32 -> 0 <= eTime <= Go.MaxInt32 ->
      exists r s1 new,
        V2TrapWithBootsTime env varBinds eBoots eTime s t = (r, s1, new ++ t)
        /\ authEngineBoots (args s1) = 0
        /\ authEngineTime (args s1) = 0
        /\ args s1 = set_authEngine (args s) 0 0
        /\ Forall (shows (set_authEngine (args s) eBoots eTime)) new).
Proof.
  intros env vbs eBoots eTime s t. split.
  - intros H. unfold V2TrapWithBootsTime.
    destruct ((eBoots <? 0) || (eBoots >? Go.MaxInt32)) eqn:Hb; [eauto|].
    destruct ((eTime <? 0) || (eTime >? Go.MaxInt32)) eqn:Ht; [eauto|].
    exfalso. boolprop. lia.
  - intros Hb Ht. unfold V2TrapWithBootsTime.
    replace ((eBoots <? 0) || (eBoots >? Go.MaxInt32)) with false
      by (symmetry; apply orb_false_iff; rewrite Z.gtb_ltb;
          split; apply Z.ltb_ge; lia).
    replace ((eTime <? 0) || (eTime >? Go.MaxInt32)) with false
      by (symmetry; apply orb_false_iff; rewrite Z.gtb_ltb;
          split; apply Z.ltb_ge; lia).
    destruct (v2trap_args env (set_authEngine (args s) eBoots eTime) SNMPTrapV2 vbs
                (set_args s (set_authEngine (args s) eBoots eTime)) t eq_refl)
      as [H1 (new & H2 & H3)].
    destruct (v2trap env SNMPTrapV2 vbs _ t) as [[r s1] t1]. simpl in H1, H2.
    subst t1. exists r, (reset_authEngine s1), new.
    unfold reset_authEngine. simpl. rewrite H1. simpl.
    repeat split; assumption.
Qed.

Lemma V2TrapWithBootsTime_frame_witness :
  (exists v m,
     V2TrapWithBootsTime (Agent.env []) [] (-1) 7 open_v2c []
     = (Err (ArgumentError v m), open_v2c, []))
  /\ (exists r s1 new,
        V2TrapWithBootsTime (Agent.env []) [] 3 7 open_v2c [] = (r, s1, new ++ [])
        /\ authEngineBoots (args s1) = 0
        /\ authEngineTime (args s1) = 0
        /\ args s1 = set_authEngine (args open_v2c) 0 0
        /\ Forall (shows (set_authEngine (args open_v2c) 3 7)) new).
Proof.
  split.
  - apply (proj1 (V2TrapWithBootsTime_frame (Agent.env []) [] (-1) 7 open_v2c [])).
    left. lia.
  - apply (proj2 (V2TrapWithBootsTime_frame (Agent.env []) [] 3 7 open_v2c []));
      unfold Go.MaxInt32; lia.
Defined.

End Requests.

(** ** GetBulkWalk: the loop *)

Module Walk.

(** C9: [GetBulkWalk] checks nothing before it slices: with
    [nonRepeaters] negative or above the capacity of [oids], the
    expression [oids[:nonRepeaters]] is out of range and the call panics,
    whatever the fuel, before anything is sent; no [ArgumentError] is
    returned. *)
Theorem GetBulkWalk_slice_panic :
  forall env fuel oids nonRepeaters maxRepetitions s t,
    nonRepeaters < 0 \/ nonRepeaters > Go.cap oids ->
    Go.slice_to oids nonRepeaters = None
    /\ GetBulkWalk env fuel oids nonRepeaters maxRepetitions s t
       = Some (Panic Go.SliceBoundsOutOfRange, s, t).
Proof.
  intros env fuel oids nr mr s t H.
  assert (E : Go.slice_to oids nr = None).
  { unfold Go.slice_to.
    destruct ((0 <=? nr) && (nr <=? Go.cap oids)) eqn:Hc; [|reflexivity].
    exfalso. boolprop. lia. }
  split; [exact E|]. unfold GetBulkWalk, walk_init. rewrite E. reflexivity.
Qed.

Lemma GetBulkWalk_slice_panic_witness :
  Go.slice_to (Go.mkSlice [Some [1; 3; 6; 1]] [None]) 3 = None
  /\ GetBulkWalk (Agent.env []) 10 (Go.mkSlice [Some [1; 3; 6; 1]] [None]) 3 5
       Requests.open_v2c []
     = Some (Panic Go.SliceBoundsOutOfRange, Requests.open_v2c, []).
Proof.
  apply (GetBulkWalk_slice_panic (Agent.env []) 10
           (Go.mkSlice [Some [1; 3; 6; 1]] [None]) 3 5 Requests.open_v2c []).
  right. vm_compute. reflexivity.
Defined.

(** Iterations that go on only use up fuel. *)
Lemma walk_loop_steps : forall env maxRepetitions n c1 c2,
  walk_steps env maxRepetitions n c1 c2 ->
  forall fuel,
    walk_loop env (n + fuel) maxRepetitions
      (fst (fst c1)) (snd (fst c1)) (snd c1)
    = walk_loop env fuel maxRepetitions
        (fst (fst c2)) (snd (fst c2)) (snd c2).
Proof.
  intros env mr n c1 c2 H. induction H as [c | n c1 c2 c3 Hstep _ IH]; intros fuel.
  - reflexivity.
  - destruct Hstep as [w s t pdu s1 t1 w' Hne Hreq Hstop Hiter].
    simpl in *. destruct (w_reqOids w) eqn:Hr; [congruence|].
    rewrite Hreq, Hstop, Hiter. apply IH.
Qed.

(** The reply that ends the walk, whatever state the walk is in. *)
Lemma walk_loop_stops : forall env maxRepetitions fuel w s t pdu s1 t1,
  w_reqOids w <> [] ->
  GetBulkRequest env (w_reqOids w) (w_nonRepeaters w) maxRepetitions s t
    = (Ok pdu, s1, t1) ->
  walk_stops pdu (w_nonRepeaters w) = true ->
  walk_loop env (S fuel) maxRepetitions w s t = Some (Ok pdu, s1, t1).
Proof.
  intros env mr fuel w s t pdu s1 t1 Hne Hreq Hstop. simpl.
  destruct (w_reqOids w) eqn:Hr; [congruence|].
  rewrite Hreq, Hstop. reflexivity.
Qed.

Lemma walk_stops_true : forall pdu nonRepeaters,
  ErrorStatus pdu <> NoError ->
  ErrorStatus pdu <> NoSuchName \/ ErrorIndex pdu <= nonRepeaters ->
  walk_stops pdu nonRepeaters = true.
Proof.
  intros pdu nr H0 H1. unfold walk_stops.
  apply andb_true_iff. split.
  - apply negb_true_iff, Z.eqb_neq. assumption.
  - apply orb_true_iff. destruct H1 as [H1 | H1].
    + left. apply negb_true_iff, Z.eqb_neq. assumption.
    + right. apply Z.leb_le. assumption.
Qed.

(** C2: in a call of [GetBulkWalk], after any number of iterations that
    went on, a [GetBulkRequest] that yields a PDU with a non-zero
    error-status which is not NoSuchName, or whose error-index is at most
    the current [nonRepeaters], ends the walk: the call returns that very
    PDU, and no error. *)
Theorem GetBulkWalk_returns_error_reply :
  forall env oids nonRepeaters maxRepetitions s t w0 n w s' t' pdu s1 t1,
    walk_init oids nonRepeaters = Some w0 ->
    walk_steps env maxRepetitions n (w0, s, t) (w, s', t') ->
    w_reqOids w <> [] ->
    GetBulkRequest env (w_reqOids w) (w_nonRepeaters w) maxRepetitions s' t'
      = (Ok pdu, s1, t1) ->
    ErrorStatus pdu <> NoError ->
    ErrorStatus pdu <> NoSuchName \/ ErrorIndex pdu <= w_nonRepeaters w ->
    forall fuel, (n < fuel)%nat ->
      GetBulkWalk env fuel oids nonRepeaters maxRepetitions s t
      = Some (Ok pdu, s1, t1).
Proof.
  intros env oids nr mr s t w0 n w s' t' pdu s1 t1 Hinit Hsteps Hne Hreq He Hi
         fuel Hfuel.
  unfold GetBulkWalk. rewrite Hinit.
  replace fuel with (n + S (fuel - S n))%nat by lia.
  rewrite (walk_loop_steps env mr n _ _ Hsteps). simpl fst. simpl snd.
  apply walk_loop_stops; try assumption.
  apply walk_stops_true; assumption.
Qed.

(** A peer that answers every request with a general error. *)
Definition failing_reply : Pdu := mkPdu V2c GetResponse 0 5 1 [].

Definition failing_env : Env :=
  mkEnv (fun _ => None) (fun _ => None) (fun _ => inl failing_reply)
    (fun _ => None).

Lemma GetBulkWalk_returns_error_reply_witness :
  exists s1 t1,
    GetBulkWalk failing_env 1 (Go.mkSlice [Some [1; 3; 6; 1]] []) 0 5
      Requests.open_v2c []
    = Some (Ok failing_reply, s1, t1).
Proof.
  eexists. eexists.
  apply (GetBulkWalk_returns_error_reply failing_env
           (Go.mkSlice [Some [1; 3; 6; 1]] []) 0 5 Requests.open_v2c []
           (mkWalk [Some [1; 3; 6; 1]] [Some [1; 3; 6; 1]] 0 [] [])
           0 (mkWalk [Some [1; 3; 6; 1]] [Some [1; 3; 6; 1]] 0 [] [])
           Requests.open_v2c [] failing_reply).
  - reflexivity.
  - apply walk_steps_none.
  - discriminate.
  - reflexivity.
  - discriminate.
  - left. discriminate.
  - lia.
Defined.

End Walk.

(** ** Trap-v1: what [V1Trap] writes *)

Module TrapFacts.

(** *** The codec reads back what it wrote *)

Lemma unsigned_bytes_acc_value : forall fuel n acc,
  fold_left (fun a b => 256 * a + b) (Ber.unsigned_bytes_acc fuel n acc) 0
  = fold_left (fun a b => 256 * a + b) acc n.
Proof.
  induction fuel as [|fuel IH]; intros n acc; simpl.
  - reflexivity.
  - destruct (n <? 256); simpl; [reflexivity|].
    rewrite IH. simpl. f_equal.
    rewrite (Z.div_mod n 256) at 3 by lia. reflexivity.
Qed.

Lemma unsigned_bytes_value : forall n,
  Ber.unsigned_value (Ber.unsigned_bytes n) = n.
Proof.
  intros n. unfold Ber.unsigned_value, Ber.unsigned_bytes.
  apply unsigned_bytes_acc_value.
Qed.

Lemma decode_encode_length : forall n rest,
  0 <= n ->
  Ber.decode_length (Ber.encode_length n ++ rest) = Some (n, rest).
Proof.
  intros n rest Hn. unfold Ber.encode_length, Ber.decode_length.
  destruct (n <? 128) eqn:Hs; cbn [app].
  - rewrite Hs. reflexivity.
  - replace (128 + Z.of_nat (length (Ber.unsigned_bytes n)) <? 128) with false
      by (symmetry; apply Z.ltb_ge; lia).
    replace (128 + Z.of_nat (length (Ber.unsigned_bytes n)) - 128)
      with (Z.of_nat (length (Ber.unsigned_bytes n))) by lia.
    rewrite Nat2Z.id.
    replace (length (Ber.unsigned_bytes n) <=? length (Ber.unsigned_bytes n ++ rest))%nat
      with true by (symmetry; apply Nat.leb_le; rewrite length_app; lia).
    rewrite firstn_app, Nat.sub_diag, firstn_all. simpl. rewrite app_nil_r.
    rewrite skipn_app, Nat.sub_diag, skipn_all. simpl.
    rewrite unsigned_bytes_value. reflexivity.
Qed.

(** A value written by [tlv] is read back whole, and nothing of what
    follows it is touched. *)
Lemma read_tlv_tlv : forall tag content rest,
  Ber.read_tlv (Ber.tlv tag content ++ rest) = Some (tag, content, rest).
Proof.
  intros tag content rest. unfold Ber.tlv, Ber.read_tlv. cbn [app].
  rewrite <- app_assoc, decode_encode_length by lia.
  rewrite Nat2Z.id.
  replace (0 <=? Z.of_nat (length content)) with true
    by (symmetry; apply Z.leb_le; lia).
  replace (length content <=? length (content ++ rest))%nat with true
    by (symmetry; apply Nat.leb_le; rewrite length_app; lia).
  simpl. rewrite firstn_app, Nat.sub_diag, firstn_all. simpl. rewrite app_nil_r.
  rewrite skipn_app, Nat.sub_diag, skipn_all. reflexivity.
Qed.

Lemma expect_tlv : forall tag content rest,
  Ber.expect tag (Ber.tlv tag content ++ rest) = Some (content, rest).
Proof.
  intros. unfold Ber.expect. rewrite read_tlv_tlv, Z.eqb_refl. reflexivity.
Qed.

(** *** The body of the message *)

Lemma update_app : forall (A : Type) (l1 l2 : list A) n x,
  update (length l1 + n) x (l1 ++ l2) = l1 ++ update n x l2.
Proof.
  induction l1 as [|y l1 IH]; intros l2 n x; simpl.
  - reflexivity.
  - rewrite IH. reflexivity.
Qed.

(** What follows the header of the Trap-v1 PDU. *)
Definition trap_fields (buf : list Z) (ip : ip4) (varPduV1 : TrapPduV1) : list Z :=
  let '(b0, b1, b2, b3) := ip in
  buf ++ Ber.marshalIpaddress b0 b1 b2 b3
  ++ Ber.marshalInteger (Go.to_int32 (GenericTrap varPduV1))
  ++ Ber.marshalInteger (Go.to_int32 (SpecificTrap varPduV1))
  ++ Ber.marshalTimeTicks (Go.to_uint32 (TimeStamp varPduV1))
  ++ [48; 0].

Lemma trap_body_ok : forall a varPduV1 buf ip,
  Ber.marshalOid (NewOid (Enterprise varPduV1)) = Ok buf ->
  agentAddr_bytes (AgentAddr varPduV1) = Ok ip ->
  trap_body a varPduV1
  = Ok (Ber.marshalInt (Version a)
        ++ Ber.marshalOctetString (bytes_of_string (Community a))
        ++ 164 :: Go.to_byte (Z.of_nat (length (trap_fields buf ip varPduV1)))
        :: trap_fields buf ip varPduV1).
Proof.
  intros a p buf [[[b0 b1] b2] b3] Hoid Hip. unfold trap_body, bind.
  rewrite Hoid, Hip. cbv beta iota zeta. f_equal.
  set (pre := Ber.marshalInt (Version a)
              ++ Ber.marshalOctetString (bytes_of_string (Community a))).
  set (fields := trap_fields buf (b0, b1, b2, b3) p).
  replace ((((((((pre ++ [164; 0]) ++ buf) ++ Ber.marshalIpaddress b0 b1 b2 b3)
               ++ Ber.marshalInteger (Go.to_int32 (GenericTrap p)))
              ++ Ber.marshalInteger (Go.to_int32 (SpecificTrap p)))
             ++ Ber.marshalTimeTicks (Go.to_uint32 (TimeStamp p))) ++ [48; 0]))
    with (pre ++ 164 :: 0 :: fields)
    by (unfold fields, trap_fields; repeat rewrite <- app_assoc; reflexivity).
  replace (Z.of_nat (length (pre ++ 164 :: 0 :: fields))
           - Z.of_nat (length (pre ++ [164; 0])))
    with (Z.of_nat (length fields))
    by (repeat rewrite length_app; cbn [length]; lia).
  replace (length (pre ++ [164; 0]%Z) - 1)%nat with (length pre + 1)%nat
    by (rewrite length_app; cbn [length]; lia).
  rewrite update_app. cbn [update Nat.add].
  unfold pre. rewrite <- app_assoc. reflexivity.
Qed.


Lemma agentAddr_step_ok : forall ip n v,
  agentAddr_step (Ok ip) (n, v) = set_ipByte n (Go.to_byte (fst (Go.Atoi v))) ip.
Proof. reflexivity. Qed.









(** *** The version gate and the single write *)

(** A V1 client as [NewSNMP] and [Open] leave it: the configuration of the
    trap example. *)
Definition v1_client : SNMP :=
  mkSNMP true
    (mkArgs V1 "udp" "192.168.16.254:162" timeoutDefault 1 msgSizeDefault
       "public" "" NoAuthNoPriv "" "" "" "" "" "" "" 0 0)
    true.

(** The trap of the example. *)
Definition scenario_trap : TrapPduV1 :=
  mkTrapPduV1 "1.3.6.1.4.1.37072.302.2.3" "192.168.16.221" 4 0 11934 0.

Lemma V1Trap_writes : forall env varPduV1 s t raw,
  Version (args s) = V1 -> conn s = true ->
  trap_body (args s) varPduV1 = Ok raw ->
  V1Trap env varPduV1 s t
  = (match write_reply env
             (EvWrite (Ber.marshalRawSequence raw)
              :: EvSetWriteDeadline (Timeout (args s))
              :: EvHexDump (Ber.marshalRawSequence raw) :: t) with
     | None => Ok tt
     | Some e => Err e
     end,
     s,
     [EvPrintErr
        (write_reply env
           (EvWrite (Ber.marshalRawSequence raw)
            :: EvSetWriteDeadline (Timeout (args s))
            :: EvHexDump (Ber.marshalRawSequence raw) :: t));
      EvWrite (Ber.marshalRawSequence raw);
      EvSetWriteDeadline (Timeout (args s));
      EvHexDump (Ber.marshalRawSequence raw)] ++ t).
Proof.
  intros env p s t raw Hv Hc Hb. unfold V1Trap. rewrite Hv, Hb, Hc. reflexivity.
Qed.

(** X25: [V1Trap] answers with an [ArgumentError], the trace of effects
    untouched, when the version is V2c or V3.  When the version is V1, on
    an open connection and with a PDU that can be encoded, the only network
    effects of the call are the write deadline set from the configured
    timeout and then one write of the datagram; nothing is awaited.
    Whatever the connection and the PDU, a V1 call has these two network
    effects or none at all. *)
Theorem V1Trap_version_gate : forall env varPduV1 s t,
  (Version (args s) = V2c \/ Version (args s) = V3 ->
   exists v m, V1Trap env varPduV1 s t = (Err (ArgumentError v m), s, t))
  /\ (Version (args s) = V1 ->
      (conn s = true ->
       forall raw, trap_body (args s) varPduV1 = Ok raw ->
       exists r new,
         V1Trap env varPduV1 s t = (r, s, new ++ t)
         /\ filter is_network new
            = [EvWrite (Ber.marshalRawSequence raw);
               EvSetWriteDeadline (Timeout (args s))])
      /\ exists r new,
           V1Trap env varPduV1 s t = (r, s, new ++ t)
           /\ (filter is_network new = []
               \/ exists datagram,
                    filter is_network new
                    = [EvWrite datagram; EvSetWriteDeadline (Timeout (args s))])).
Proof.
  intros env p s t. split.
  - intros Hv. unfold V1Trap.
    replace (Version (args s) >? V1) with true; [eauto|].
    symmetry. rewrite Z.gtb_ltb. apply Z.ltb_lt.
    unfold V1, V2c, V3 in *. lia.
  - intros Hv. split.
    + intros Hc raw Hb. rewrite (V1Trap_writes env p s t raw Hv Hc Hb).
      eexists. eexists. split; reflexivity.
    + destruct (trap_body (args s) p) as [raw | e | pn |] eqn:Hb.
      * destruct (conn s) eqn:Hc.
        -- rewrite (V1Trap_writes env p s t raw Hv Hc Hb).
           eexists. eexists. split; [reflexivity|]. right. eexists. reflexivity.
        -- unfold V1Trap. rewrite Hv, Hb, Hc.
           exists (Panic Go.NilDereference), [EvHexDump (Ber.marshalRawSequence raw)].
           split; [reflexivity | left; reflexivity].
      * unfold V1Trap. rewrite Hv, Hb. exists (Err e), [].
        split; [reflexivity | left; reflexivity].
      * unfold V1Trap. rewrite Hv, Hb. exists (Panic pn), [].
        split; [reflexivity | left; reflexivity].
      * unfold V1Trap. rewrite Hv, Hb. exists Nil, [].
        split; [reflexivity | left; reflexivity].
Qed.

Lemma V1Trap_version_gate_witness :
  (exists v m,
     V1Trap (Agent.env []) scenario_trap Requests.open_v2c []
     = (Err (ArgumentError v m), Requests.open_v2c, []))
  /\ (exists raw,
        trap_body (args v1_client) scenario_trap = Ok raw
        /\ exists r new,
             V1Trap (Agent.env []) scenario_trap v1_client [] = (r, v1_client, new ++ [])
             /\ filter is_network new
                = [EvWrite (Ber.marshalRawSequence raw);
                   EvSetWriteDeadline (Timeout (args v1_client))]).
Proof.
  split.
  - apply (proj1 (V1Trap_version_gate (Agent.env []) scenario_trap
                    Requests.open_v2c [])).
    left. reflexivity.
  - eexists. split; [vm_compute; reflexivity|].
    apply (proj1 (proj2 (V1Trap_version_gate (Agent.env []) scenario_trap
                           v1_client []) eq_refl));
      reflexivity.
Defined.

(** C7: [V1Trap] never opens the connection, as [sendPdu] does for the
    other operations.  On the V1 client of the trap example as [NewSNMP]
    hands it back, the call encodes and dumps the datagram and then
    panics on the [nil] connection: no deadline is set and nothing is
    written, whatever the transport. *)
Theorem V1Trap_on_new_client : forall env t,
  exists s raw,
    NewSNMP (args v1_client) = Ok s
    /\ conn s = false
    /\ trap_body (args s) scenario_trap = Ok raw
    /\ V1Trap env scenario_trap s t
       = (Panic Go.NilDereference, s,
          EvHexDump (Ber.marshalRawSequence raw) :: t)
    /\ filter is_network [EvHexDump (Ber.marshalRawSequence raw)] = [].
Proof.
  intros env t.
  assert (E : exists raw,
            trap_body (setDefault (args v1_client)) scenario_trap = Ok raw)
    by (eexists; vm_compute; reflexivity).
  destruct E as [raw E].
  exists (mkSNMP false (setDefault (args v1_client)) false), raw.
  split; [reflexivity|]. split; [reflexivity|]. split; [exact E|].
  split; [|reflexivity].
  unfold V1Trap. cbn [args conn]. rewrite E. reflexivity.
Qed.

(** *** The agent address *)




(** *** The trap of the example, written and read back *)

Definition scenario_fields : list Z :=
  [6; 12; 43; 6; 1; 4; 1; 130; 161; 80; 130; 46; 2; 3;
   64; 4; 192; 168; 16; 221; 2; 1; 4; 2; 1; 0; 67; 2; 46; 158; 48; 0].

Lemma scenario_body : forall a,
  trap_body a scenario_trap
  = Ok (Ber.marshalInt (Version a)
        ++ Ber.marshalOctetString (bytes_of_string (Community a))
        ++ Ber.tlv Ber.tagTrapV1 scenario_fields).
Proof.
  intros a.
  rewrite (trap_body_ok a scenario_trap
             [6; 12; 43; 6; 1; 4; 1; 130; 161; 80; 130; 46; 2; 3]
             (192, 168, 16, 221));
    [| vm_compute; reflexivity | vm_compute; reflexivity].
  reflexivity.
Qed.

(** C3: on an open V1 client, [V1Trap] of the example trap (enterprise
    1.3.6.1.4.1.37072.302.2.3, agent address 192.168.16.221, generic trap
    4, specific trap 0, time stamp 11934) dumps and writes one datagram,
    under the configured write deadline; the datagram is a message of the
    client's version and community whose PDU has tag 0xA4 and decodes to
    exactly these fields and an empty var-bind list. *)
Theorem V1Trap_scenario_roundtrip : forall env s t,
  Version (args s) = V1 -> conn s = true ->
  exists r datagram,
    V1Trap env scenario_trap s t
    = (r, s,
       [EvPrintErr
          (write_reply env
             (EvWrite datagram :: EvSetWriteDeadline (Timeout (args s))
              :: EvHexDump datagram :: t));
        EvWrite datagram;
        EvSetWriteDeadline (Timeout (args s));
        EvHexDump datagram] ++ t)
    /\ Ber.decode_trap_message datagram
       = Some (Ber.mkMessageV1 V1 (bytes_of_string (Community (args s)))
                 (Ber.mkTrapV1 [1; 3; 6; 1; 4; 1; 37072; 302; 2; 3]
                    [192; 168; 16; 221] 4 0 11934 [])).
Proof.
  intros env s t Hv Hc.
  rewrite (V1Trap_writes env scenario_trap s t _ Hv Hc (scenario_body (args s))).
  eexists. eexists. split; [reflexivity|].
  unfold Ber.decode_trap_message, Ber.marshalRawSequence.
  rewrite <- (app_nil_r (Ber.tlv Ber.tagSequence _)), expect_tlv.
  unfold Ber.marshalInt. rewrite expect_tlv.
  unfold Ber.marshalOctetString. rewrite expect_tlv.
  rewrite <- (app_nil_r (Ber.tlv Ber.tagTrapV1 _)), expect_tlv.
  rewrite Hv. reflexivity.
Qed.

Lemma V1Trap_scenario_roundtrip_witness :
  exists r datagram,
    V1Trap (Agent.env []) scenario_trap v1_client []
    = (r, v1_client,
       [EvPrintErr
          (write_reply (Agent.env [])
             (EvWrite datagram :: EvSetWriteDeadline (Timeout (args v1_client))
              :: EvHexDump datagram :: []));
        EvWrite datagram;
        EvSetWriteDeadline (Timeout (args v1_client));
        EvHexDump datagram] ++ [])
    /\ Ber.decode_trap_message datagram
       = Some (Ber.mkMessageV1 V1 (bytes_of_string (Community (args v1_client)))
                 (Ber.mkTrapV1 [1; 3; 6; 1; 4; 1; 37072; 302; 2; 3]
                    [192; 168; 16; 221] 4 0 11934 [])).
Proof.
  apply (V1Trap_scenario_roundtrip (Agent.env []) v1_client []); reflexivity.
Defined.

End TrapFacts.

(** ** GetBulkWalk against the simulated agent *)

Module Completeness.

(** *** The order on OIDs *)

Lemma OidCompare_refl : forall a, OidCompare a a = Eq.
Proof.
  induction a as [|x a IH]; simpl; [reflexivity|].
  rewrite Z.compare_refl. assumption.
Qed.

Lemma OidCompare_eq : forall a b, OidCompare a b = Eq -> a = b.
Proof.
  induction a as [|x a IH]; intros [|y b] H; simpl in H;
    try discriminate; [reflexivity|].
  destruct (x ?= y) eqn:E; try discriminate.
  apply Z.compare_eq in E. subst. f_equal. apply IH. assumption.
Qed.

Lemma OidCompare_flip : forall a b, OidCompare b a = CompOpp (OidCompare a b).
Proof.
  induction a as [|x a IH]; intros [|y b]; simpl; try reflexivity.
  rewrite (Z.compare_antisym x y).
  destruct (x ?= y); simpl; [apply IH | reflexivity | reflexivity].
Qed.

Lemma OidCompare_trans : forall a b c,
  OidCompare a b = Lt -> OidCompare b c = Lt -> OidCompare a c = Lt.
Proof.
  induction a as [|x a IH]; intros [|y b] [|z c] H1 H2; simpl in *;
    try discriminate; try reflexivity.
  destruct (x ?= y) eqn:E1; try discriminate;
    destruct (y ?= z) eqn:E2; try discriminate.
  - apply Z.compare_eq in E1, E2. subst. rewrite Z.compare_refl. eapply IH; eassumption.
  - apply Z.compare_eq in E1. subst. rewrite E2. reflexivity.
  - apply Z.compare_eq in E2. subst. rewrite E1. reflexivity.
  - rewrite Z.compare_lt_iff in E1, E2.
    replace (x ?= z) with Lt by (symmetry; apply Z.compare_lt_iff; lia).
    reflexivity.
Qed.

(** An OID under [P] is [P] itself or comes after it. *)
Lemma contains_not_before : forall o P,
  OidContains o P = true -> OidCompare P o <> Gt.
Proof.
  intros o P. revert o. induction P as [|p P IH]; intros [|x o] H; simpl in *;
    try discriminate.
  apply andb_true_iff in H. destruct H as [E H]. apply Z.eqb_eq in E. subst.
  rewrite Z.compare_refl. apply IH. assumption.
Qed.

(** The OIDs under [P] are contiguous in the order: what lies between [P]
    and an OID under [P] is under [P]. *)
Lemma contains_between : forall P a b,
  OidContains a P = true ->
  OidCompare P b = Lt -> OidCompare b a = Lt ->
  OidContains b P = true.
Proof.
  induction P as [|p P IH]; intros [|x a] [|y b] Ha H1 H2; simpl in *;
    try discriminate; try reflexivity.
  apply andb_true_iff in Ha. destruct Ha as [E Ha]. apply Z.eqb_eq in E. subst x.
  destruct (p ?= y) eqn:E1; try discriminate.
  - apply Z.compare_eq in E1. subst y. rewrite Z.compare_refl in H2.
    rewrite Z.eqb_refl. simpl. eapply IH; eassumption.
  - rewrite (Z.compare_antisym p y), E1 in H2. simpl in H2. discriminate.
Qed.

(** *** Lists *)

Fixpoint take_while {A} (f : A -> bool) (l : list A) : list A :=
  match l with
  | [] => []
  | x :: l' => if f x then x :: take_while f l' else []
  end.

Lemma take_while_firstn_short : forall (A : Type) (f : A -> bool) n l,
  (length (take_while f (firstn n l)) < n)%nat ->
  take_while f l = take_while f (firstn n l).
Proof.
  intros A f. induction n as [|n IH]; intros l H; [simpl in H; lia|].
  destruct l as [|x l]; simpl in *; [reflexivity|].
  destruct (f x); [|reflexivity]. simpl in H. f_equal. apply IH. lia.
Qed.

Lemma take_while_firstn_full : forall (A : Type) (f : A -> bool) n l,
  length (take_while f (firstn n l)) = n ->
  take_while f (firstn n l) = firstn n l
  /\ take_while f l = firstn n l ++ take_while f (skipn n l).
Proof.
  intros A f. induction n as [|n IH]; intros l H; [split; reflexivity|].
  destruct l as [|x l]; simpl in *; [discriminate|].
  destruct (f x); simpl in H; [|discriminate].
  destruct (IH l) as [H1 H2]; [lia|]. rewrite H1. split; [reflexivity|].
  f_equal. assumption.
Qed.

Lemma take_while_length : forall (A : Type) (f : A -> bool) l,
  (length (take_while f l) <= length l)%nat.
Proof.
  intros A f. induction l as [|x l IH]; simpl; [lia|].
  destruct (f x); simpl; lia.
Qed.

Lemma take_while_In : forall (A : Type) (f : A -> bool) l x,
  In x (take_while f l) -> In x l.
Proof.
  intros A f. induction l as [|y l IH]; intros x H; simpl in *; [assumption|].
  destruct (f y); simpl in H; [|contradiction].
  destruct H as [H | H]; [left; assumption | right; apply IH; assumption].
Qed.

Lemma firstn_In' : forall (A : Type) n (l : list A) x,
  In x (firstn n l) -> In x l.
Proof.
  intros A n l x H. rewrite <- (firstn_skipn n l). apply in_or_app. left. assumption.
Qed.

Lemma skipn_In' : forall (A : Type) n (l : list A) x,
  In x (skipn n l) -> In x l.
Proof.
  intros A n l x H. rewrite <- (firstn_skipn n l). apply in_or_app. right. assumption.
Qed.

Lemma last_cons : forall (A : Type) (l : list A) a d,
  last (a :: l) d = last l a.
Proof.
  intros A. induction l as [|b l IH]; intros a d; [reflexivity|].
  change (last (a :: b :: l) d) with (last (b :: l) d).
  rewrite IH. symmetry. apply IH.
Qed.

Lemma last_In : forall (A : Type) (l : list A) d,
  l <> [] -> In (last l d) l.
Proof.
  intros A. induction l as [|a l IH]; intros d H; [congruence|].
  destruct l as [|b l]; [left; reflexivity|].
  right. apply IH. discriminate.
Qed.

Lemma last_map_default : forall (A B : Type) (f : A -> B) l d,
  last (map f l) (f d) = f (last l d).
Proof.
  intros A B f. induction l as [|a l IH]; intros d; [reflexivity|].
  destruct l as [|b l]; [reflexivity|]. apply (IH d).
Qed.

Lemma find_app' : forall (A : Type) (f : A -> bool) l1 l2,
  find f (l1 ++ l2)
  = match find f l1 with Some x => Some x | None => find f l2 end.
Proof.
  intros A f. induction l1 as [|x l1 IH]; intros l2; simpl; [reflexivity|].
  destruct (f x); [reflexivity | apply IH].
Qed.

Lemma find_filter : forall (A : Type) (f : A -> bool) l,
  find f l = hd_error (filter f l).
Proof.
  intros A f. induction l as [|x l IH]; simpl; [reflexivity|].
  destruct (f x); [reflexivity | assumption].
Qed.

Lemma find_none_all : forall (A : Type) (f : A -> bool) l,
  (forall x, In x l -> f x = false) -> find f l = None.
Proof.
  intros A f. induction l as [|x l IH]; intros H; simpl; [reflexivity|].
  rewrite (H x (or_introl eq_refl)). apply IH. intros y Hy. apply H. right. assumption.
Qed.

Lemma filter_all : forall (A : Type) (f : A -> bool) l,
  (forall x, In x l -> f x = true) -> filter f l = l.
Proof.
  intros A f. induction l as [|x l IH]; intros H; simpl; [reflexivity|].
  rewrite (H x (or_introl eq_refl)). f_equal. apply IH.
  intros y Hy. apply H. right. assumption.
Qed.

Lemma filter_none : forall (A : Type) (f : A -> bool) l,
  (forall x, In x l -> f x = false) -> filter f l = [].
Proof.
  intros A f. induction l as [|x l IH]; intros H; simpl; [reflexivity|].
  rewrite (H x (or_introl eq_refl)). apply IH.
  intros y Hy. apply H. right. assumption.
Qed.

(** *** The MIB of the agent *)

Definition entry : Type := (Oid * SnmpVariable)%type.

Definition before (e1 e2 : entry) : Prop := OidCompare (fst e1) (fst e2) = Lt.

(** OIDs in strictly increasing order. *)
Fixpoint increasing (l : list Oid) : bool :=
  match l with
  | a :: l' =>
      match l' with
      | b :: _ => match OidCompare a b with Lt => true | _ => false end
      | [] => true
      end && increasing l'
  | [] => true
  end.

(** A MIB: entries in strictly increasing OID order, none of them one of
    the exception values that only replies carry. *)
Definition is_mib (mib : Agent.Mib) : bool :=
  increasing (map fst mib)
  && forallb (fun e => negb (is_sentinel (snd e))) mib.

Definition under (P : Oid) (e : entry) : bool := OidContains (fst e) P.

Definition to_bind (e : entry) : VarBind := mkVarBind (Some (fst e)) (snd e).

(** The var-binds of the agent under [P], in MIB order. *)
Definition subtree (P : Oid) (mib : Agent.Mib) : VarBinds :=
  map to_bind (filter (under P) mib).

(** The entries strictly under [P]: under [P] and not at [P] itself. *)
Definition below (P : Oid) (e : entry) : bool :=
  under P e && negb (OidEqual (fst e) P).

(** The var-binds of the agent strictly under [P], in MIB order. *)
Definition descendants (P : Oid) (mib : Agent.Mib) : VarBinds :=
  map to_bind (filter (below P) mib).

(** The entries the agent still has after [cur]. *)
Definition rest (mib : Agent.Mib) (cur : Oid) : list entry :=
  filter (Agent.after cur) mib.

Lemma after_before : forall (x y : entry),
  Agent.after (fst x) y = true <-> before x y.
Proof.
  intros x y. unfold Agent.after, before.
  destruct (OidCompare (fst x) (fst y)); split; congruence.
Qed.

Lemma after_self : forall (x : entry), Agent.after (fst x) x = false.
Proof. intros x. unfold Agent.after. rewrite OidCompare_refl. reflexivity. Qed.

Lemma before_not_after : forall (x y : entry),
  before x y -> Agent.after (fst y) x = false.
Proof.
  intros x y H. unfold Agent.after, before in *.
  rewrite OidCompare_flip, H. reflexivity.
Qed.

Lemma after_trans : forall cur (x y : entry),
  Agent.after cur x = true -> before x y -> Agent.after cur y = true.
Proof.
  intros cur x y H1 H2. unfold Agent.after, before in *.
  destruct (OidCompare cur (fst x)) eqn:E; try discriminate.
  rewrite (OidCompare_trans _ _ _ E H2). reflexivity.
Qed.

Lemma increasing_sorted : forall mib,
  increasing (map fst mib) = true -> StronglySorted before mib.
Proof.
  induction mib as [|x mib IH]; intros H; [constructor|].
  simpl in H. apply andb_true_iff in H. destruct H as [H1 H2].
  specialize (IH H2). constructor; [assumption|].
  destruct mib as [|y mib]; [constructor|].
  simpl in H1. inversion IH as [|? ? Hs Hy]; subst.
  assert (Hxy : before x y).
  { unfold before. destruct (OidCompare (fst x) (fst y)); congruence. }
  constructor; [assumption|].
  eapply Forall_impl; [|exact Hy]. intros z Hz.
  unfold before in *. eapply OidCompare_trans; eassumption.
Qed.

Lemma sorted_filter : forall (f : entry -> bool) l,
  StronglySorted before l -> StronglySorted before (filter f l).
Proof.
  intros f. induction l as [|x l IH]; intros H; simpl; [constructor|].
  inversion H as [|? ? Hs Hx]; subst.
  destruct (f x); [|apply IH; assumption].
  constructor; [apply IH; assumption|].
  apply Forall_forall. intros y Hy. apply filter_In in Hy.
  rewrite Forall_forall in Hx. apply Hx. tauto.
Qed.

Lemma sorted_skipn : forall n (l : list entry),
  StronglySorted before l -> StronglySorted before (skipn n l).
Proof.
  induction n as [|n IH]; intros l H; [assumption|].
  destruct l as [|x l]; [constructor|].
  inversion H; subst. simpl. apply IH. assumption.
Qed.

Lemma sorted_firstn : forall n (l : list entry),
  StronglySorted before l -> StronglySorted before (firstn n l).
Proof.
  induction n as [|n IH]; intros l H; [constructor|].
  destruct l as [|x l]; [constructor|].
  inversion H as [|? ? Hs Hx]; subst. simpl. constructor; [apply IH; assumption|].
  apply Forall_forall. intros y Hy. rewrite Forall_forall in Hx.
  apply Hx. eapply firstn_In'. eassumption.
Qed.

(** In a sorted list, what comes first is before what comes later. *)
Lemma sorted_split : forall n (l : list entry) x y,
  StronglySorted before l ->
  In x (firstn n l) -> In y (skipn n l) -> before x y.
Proof.
  induction n as [|n IH]; intros l x y H Hx Hy; [contradiction|].
  destruct l as [|z l]; [contradiction|].
  inversion H as [|? ? Hs Hz]; subst. simpl in Hx, Hy.
  destruct Hx as [-> | Hx].
  - rewrite Forall_forall in Hz. apply Hz. eapply skipn_In'. eassumption.
  - eapply IH; eassumption.
Qed.

(** Once the agent has answered with an entry, what it has left is what
    followed that entry. *)
Lemma rest_next : forall mib cur e tl,
  StronglySorted before mib ->
  rest mib cur = e :: tl -> rest mib (fst e) = tl.
Proof.
  unfold rest. induction mib as [|x l IH]; intros cur e tl Hs H; [discriminate|].
  inversion Hs as [|? ? Hl Hx]; subst. rewrite Forall_forall in Hx.
  simpl in H. simpl. destruct (Agent.after cur x) eqn:Ex.
  - inversion H; subst. rewrite after_self.
    rewrite filter_all.
    + symmetry. apply filter_all. intros y Hy.
      eapply after_trans; [exact Ex | apply Hx; assumption].
    + intros y Hy. apply after_before. apply Hx. assumption.
  - assert (He : In e l).
    { assert (Hin : In e (filter (Agent.after cur) l)) by (rewrite H; left; reflexivity).
      apply filter_In in Hin. tauto. }
    rewrite (before_not_after x e (Hx e He)).
    eapply IH; eassumption.
Qed.

Lemma rest_advance : forall mib, StronglySorted before mib ->
  forall n cur,
    rest mib (last (map fst (firstn n (rest mib cur))) cur)
    = skipn n (rest mib cur).
Proof.
  intros mib Hs. induction n as [|n IH]; intros cur; [reflexivity|].
  destruct (rest mib cur) as [|e tl] eqn:E.
  - simpl. assumption.
  - simpl firstn. simpl skipn. simpl map. rewrite last_cons.
    pose proof (rest_next mib cur e tl Hs E) as Hn.
    rewrite <- Hn. apply IH.
Qed.

(** *** What the agent answers to a request for one name *)

Fixpoint chain (r : nat) (cur : Oid) (todo : list entry) : VarBinds :=
  match r with
  | O => []
  | S r' =>
      match todo with
      | e :: todo' => to_bind e :: chain r' (fst e) todo'
      | [] => mkVarBind (Some cur) EndOfMibView :: chain r' cur []
      end
  end.

Lemma rounds_chain : forall mib, StronglySorted before mib ->
  forall r cur, Agent.rounds mib r [Some cur] = chain r cur (rest mib cur).
Proof.
  intros mib Hs. induction r as [|r IH]; intros cur; [reflexivity|].
  simpl. unfold Agent.successor at 1 2. rewrite find_filter.
  fold (rest mib cur). destruct (rest mib cur) as [|[o v] tl] eqn:E; simpl.
  - f_equal. rewrite IH, E. reflexivity.
  - f_equal. rewrite IH.
    pose proof (rest_next mib cur (o, v) tl Hs E) as Hn. simpl in Hn.
    rewrite Hn. reflexivity.
Qed.

Lemma chain_length : forall r cur todo, length (chain r cur todo) = r.
Proof.
  induction r as [|r IH]; intros cur todo; [reflexivity|].
  destruct todo; simpl; rewrite IH; reflexivity.
Qed.

(** *** Sorting and deduplicating a reply *)

Fixpoint ordered {A} (leb : A -> A -> bool) (l : list A) : Prop :=
  match l with
  | x :: l' =>
      match l' with
      | y :: _ => leb x y = true
      | [] => True
      end /\ ordered leb l'
  | [] => True
  end.

Lemma stable_sort_ordered : forall (A : Type) (leb : A -> A -> bool) l,
  ordered leb l -> stable_sort leb l = l.
Proof.
  intros A leb. induction l as [|x l IH]; intros H; [reflexivity|].
  destruct H as [H1 H2]. simpl. rewrite (IH H2).
  destruct l as [|y l]; [reflexivity|]. simpl. rewrite H1. reflexivity.
Qed.

Definition bind_leb (a b : VarBind) : bool := ptrLeb (vbOid a) (vbOid b).
Definition bind_same (a b : VarBind) : bool := ptrEqual (vbOid b) (vbOid a).

Lemma ptrLeb_refl : forall o, ptrLeb (Some o) (Some o) = true.
Proof. intros o. simpl. rewrite OidCompare_refl. reflexivity. Qed.

Lemma chain_ordered : forall r cur todo,
  StronglySorted before todo -> ordered bind_leb (chain r cur todo).
Proof.
  induction r as [|r IH]; intros cur todo Hs; [exact I|].
  destruct todo as [|e todo]; simpl.
  - split; [|apply IH; constructor].
    destruct r; [exact I|]. apply ptrLeb_refl.
  - inversion Hs as [|? ? Hs' He]; subst.
    split; [|apply IH; assumption].
    destruct r; [exact I|]. destruct todo as [|e' todo]; unfold bind_leb; simpl.
    + rewrite OidCompare_refl. reflexivity.
    + inversion He as [|? ? Hee _]; subst. unfold before in Hee.
      rewrite Hee. reflexivity.
Qed.

Lemma uniq_after_pads : forall r cur x,
  vbOid x = Some cur -> uniq_after bind_same x (chain r cur []) = [].
Proof.
  induction r as [|r IH]; intros cur x Hx; [reflexivity|].
  simpl. unfold bind_same at 1. rewrite Hx. simpl.
  unfold OidEqual. rewrite OidCompare_refl. apply IH. assumption.
Qed.

Lemma uniq_after_chain : forall r e todo,
  StronglySorted before (e :: todo) ->
  uniq_after bind_same (to_bind e) (chain r (fst e) todo)
  = map to_bind (firstn r todo).
Proof.
  induction r as [|r IH]; intros e todo Hs; [reflexivity|].
  inversion Hs as [|? ? Hs' He]; subst.
  destruct todo as [|e' todo].
  - simpl. unfold bind_same at 1. simpl. unfold OidEqual.
    rewrite OidCompare_refl. apply uniq_after_pads. reflexivity.
  - simpl. unfold bind_same at 1. simpl. unfold OidEqual.
    inversion He as [|? ? Hee _]; subst. unfold before in Hee.
    rewrite OidCompare_flip, Hee. simpl. f_equal. apply IH. assumption.
Qed.

(** The reply to a request for one name, sorted and deduplicated: the
    entries handed out, or the one end-of-MIB mark when there was none. *)
Lemma reply_sorted_uniq : forall r cur todo,
  StronglySorted before todo ->
  VarBindsUniq (VarBindsSort (chain (S r) cur todo))
  = match todo with
    | [] => [mkVarBind (Some cur) EndOfMibView]
    | _ :: _ => map to_bind (firstn (S r) todo)
    end.
Proof.
  intros r cur todo Hs. unfold VarBindsSort.
  change (fun a b : VarBind => ptrLeb (vbOid a) (vbOid b)) with bind_leb.
  rewrite stable_sort_ordered by (apply chain_ordered; assumption).
  unfold VarBindsUniq.
  change (fun a b : VarBind => ptrEqual (vbOid b) (vbOid a)) with bind_same.
  destruct todo as [|e todo]; simpl.
  - rewrite uniq_after_pads; reflexivity.
  - rewrite uniq_after_chain by assumption. reflexivity.
Qed.

Lemma MatchBaseOids_binds : forall P l,
  MatchBaseOids (map to_bind l) (Some P) = map to_bind (filter (under P) l).
Proof.
  intros P. unfold MatchBaseOids. induction l as [|e l IH]; simpl; [reflexivity|].
  change (OidContains (fst e) P) with (under P e).
  destruct (under P e); simpl; rewrite IH; reflexivity.
Qed.

(** Among sorted entries after [P], those under [P] come first. *)
Lemma filter_take_while : forall P l,
  StronglySorted before l ->
  Forall (fun e => Agent.after P e = true) l ->
  filter (under P) l = take_while (under P) l.
Proof.
  intros P. induction l as [|x l IH]; intros Hs Ha; simpl; [reflexivity|].
  inversion Hs as [|? ? Hs' Hx]; subst. inversion Ha as [|? ? Hax Hal]; subst.
  destruct (under P x) eqn:Ex; [f_equal; apply IH; assumption|].
  apply filter_none. intros y Hy.
  destruct (under P y) eqn:Ey; [|reflexivity].
  rewrite Forall_forall in Hx. specialize (Hx y Hy).
  unfold under, Agent.after, before in *.
  destruct (OidCompare P (fst x)) eqn:E; try discriminate.
  rewrite (contains_between P (fst y) (fst x) Ey E Hx) in Ex. discriminate.
Qed.

(** *** One iteration of the walk for a single OID *)

Lemma iteration_single : forall k P cur nrb res pdu,
  walk_iteration k (mkWalk [Some P] [Some cur] 0 nrb res) pdu
  = match visit k (Z.of_nat (length (PduVarBinds pdu)) =? Z.of_nat 1 * k)
            (VarBindsUniq (VarBindsSort (PduVarBinds pdu)))
            [Some P] (Ok ([Some cur], res)) 0%nat with
    | Ok (reqOids, resBinds) =>
        match sweep reqOids [Some P] with
        | Ok (reqOids', oids') => Ok (mkWalk oids' reqOids' 0 nrb resBinds)
        | Err e => Err e
        | Panic p => Panic p
        | Nil => Nil
        end
    | Err e => Err e
    | Panic p => Panic p
    | Nil => Nil
    end.
Proof. reflexivity. Qed.

Lemma collect_all : forall matched res c,
  Forall (fun v => is_sentinel (vbVariable v) = false) matched ->
  fold_left (collect 0) matched (false, res, [c])
  = (false, res ++ matched, [last (map vbOid matched) c]).
Proof.
  induction matched as [|m matched IH]; intros res c H.
  - simpl. rewrite app_nil_r. reflexivity.
  - inversion H as [|? ? Hm Hr]; subst. cbn [fold_left].
    replace (collect 0 (false, res, [c]) m) with (false, res ++ [m], [vbOid m])
      by (unfold collect; rewrite Hm; reflexivity).
    rewrite IH by assumption.
    rewrite <- app_assoc. cbn [map app]. rewrite last_cons. reflexivity.
Qed.

(** Nothing under the base OID in the reply, or only an exception value:
    the position is completed and the results stay as they are. *)
Lemma iteration_done : forall k P cur nrb res pdu,
  (MatchBaseOids (VarBindsUniq (VarBindsSort (PduVarBinds pdu))) (Some P) = []
   \/ exists x,
        MatchBaseOids (VarBindsUniq (VarBindsSort (PduVarBinds pdu))) (Some P) = [x]
        /\ is_sentinel (vbVariable x) = true) ->
  walk_iteration k (mkWalk [Some P] [Some cur] 0 nrb res) pdu
  = Ok (mkWalk [] [] 0 nrb res).
Proof.
  intros k P cur nrb res pdu H. rewrite iteration_single. unfold visit.
  cbn [nth_error].
  destruct H as [H | (x & H & Hx)]; rewrite H.
  - reflexivity.
  - cbn [length last fold_left]. unfold collect. rewrite Hx.
    change (Z.of_nat 1 =? 0) with false. cbn [orb].
    destruct (MatchOid res (vbOid x)); reflexivity.
Qed.

(** Entries under the base OID in the reply, the last of them new: they
    are added to the results, and the walk goes on from the last one unless
    the reply was full and held fewer of them than asked for. *)
Lemma iteration_collects : forall k P cur nrb res pdu matched next,
  MatchBaseOids (VarBindsUniq (VarBindsSort (PduVarBinds pdu))) (Some P) = matched ->
  matched <> [] ->
  MatchOid res (vbOid (last matched (mkVarBind None Null))) = None ->
  Forall (fun v => is_sentinel (vbVariable v) = false) matched ->
  last (map vbOid matched) (Some cur) = Some next ->
  walk_iteration k (mkWalk [Some P] [Some cur] 0 nrb res) pdu
  = Ok (if (Z.of_nat (length (PduVarBinds pdu)) =? Z.of_nat 1 * k)
           && (Z.of_nat (length matched) <? k)
        then mkWalk [] [] 0 nrb (res ++ matched)
        else mkWalk [Some P] [Some next] 0 nrb (res ++ matched)).
Proof.
  intros k P cur nrb res pdu matched next Hm Hne Hnew Hval Hnext.
  rewrite iteration_single. unfold visit. cbn [nth_error]. rewrite Hm, Hnew.
  replace (Z.of_nat (length matched) =? 0) with false.
  2:{ symmetry. apply Z.eqb_neq. destruct matched; [congruence|]. simpl length. lia. }
  cbn [orb]. rewrite collect_all by assumption. cbn [orb]. rewrite Hnext.
  destruct ((Z.of_nat (length (PduVarBinds pdu)) =? Z.of_nat 1 * k)
            && (Z.of_nat (length matched) <? k)); reflexivity.
Qed.

(** *** Requests to the agent *)

Lemma retry_first_ok : forall (R St : Type) (f : St -> (R + error) * St) n st x st',
  0 <= n ->
  f st = (inl x, st') -> retry n f st = (Some (inl x), st').
Proof.
  intros R St f n st x st' Hn H. unfold retry.
  replace (n <? 0) with false by (symmetry; apply Z.ltb_ge; assumption).
  destruct (Z.to_nat n); simpl; rewrite H; reflexivity.
Qed.

(** A request that is answered at once: the connection is open, or the
    first dial and the discovery succeed, and the first attempt to send
    brings a reply. *)
Lemma sendPdu_answered : forall env pdu reply s t,
  (conn s = true -> engine s = true) ->
  0 <= Go.to_int (Retries (args s)) ->
  (conn s = false ->
   dial_reply env
     (EvDial (Network (args s)) (Address (args s)) (Timeout (args s))
      :: EvPrintln "sendPdu" :: t) = None
   /\ discover_reply env
        (EvDiscover (args s)
         :: EvDial (Network (args s)) (Address (args s)) (Timeout (args s))
         :: EvPrintln "sendPdu" :: t) = None) ->
  (forall t', send_reply env (EvSendPdu pdu (args s) :: t') = inl reply) ->
  exists s1 t1,
    sendPdu env pdu s t = (Ok reply, s1, t1)
    /\ args s1 = args s /\ conn s1 = true /\ engine s1 = true.
Proof.
  intros env pdu reply s t Hwf Hr Hopen Hsend.
  assert (Hr' : (Go.to_int (Retries (args s)) <? 0) = false)
    by (apply Z.ltb_ge; assumption).
  unfold sendPdu, Open. destruct (conn s) eqn:Hc.
  - rewrite Hr', (Hwf eq_refl).
    rewrite (retry_first_ok _ _ _ _ _ reply
               (EvSendPdu pdu (args s) :: EvPrintln "sendPdu" :: t) Hr)
      by (unfold send_once; rewrite Hsend; reflexivity).
    eexists. eexists. split; [reflexivity|].
    split; [reflexivity|]. split; [assumption | apply Hwf; reflexivity].
  - destruct (Hopen eq_refl) as [Hdial Hdisc].
    rewrite (retry_first_ok _ _ _ _ _ tt
               (set_conn s true,
                EvDial (Network (args s)) (Address (args s)) (Timeout (args s))
                :: EvPrintln "sendPdu" :: t) Hr)
      by (unfold dial_once; rewrite Hdial; reflexivity).
    cbn [set_engine set_conn engine conn args].
    rewrite Hdisc. cbn [set_engine set_conn engine conn args].
    rewrite Hr'.
    rewrite (retry_first_ok _ _ _ _ _ reply
               (EvSendPdu pdu (args s)
                :: EvDiscover (args s)
                :: EvDial (Network (args s)) (Address (args s)) (Timeout (args s))
                :: EvPrintln "sendPdu" :: t) Hr)
      by (unfold send_once; rewrite Hsend; reflexivity).
    eexists. eexists. split; [reflexivity|]. repeat split.
Qed.

(** The agent answers a GetBulkRequest of a V2c or V3 client, and leaves
    the connection open. *)
Lemma agent_request : forall mib oids nr k s t,
  V2c <= Version (args s) ->
  0 <= nr <= Go.MaxInt32 -> 0 <= k <= Go.MaxInt32 ->
  (conn s = true -> engine s = true) ->
  0 <= Go.to_int (Retries (args s)) ->
  exists pdu s1 t1,
    GetBulkRequest (Agent.env mib) oids nr k s t = (Ok pdu, s1, t1)
    /\ PduVarBinds pdu = Agent.getbulk mib oids nr k
    /\ ErrorStatus pdu = NoError
    /\ args s1 = args s /\ conn s1 = true /\ engine s1 = true.
Proof.
  intros mib oids nr k s t Hv Hn Hk Hwf Hr. unfold GetBulkRequest.
  replace (Version (args s) <? V2c) with false
    by (symmetry; apply Z.ltb_ge; assumption).
  replace ((nr <? 0) || (nr >? Go.MaxInt32)) with false
    by (symmetry; apply orb_false_iff; rewrite Z.gtb_ltb; split; apply Z.ltb_ge; lia).
  replace ((k <? 0) || (k >? Go.MaxInt32)) with false
    by (symmetry; apply orb_false_iff; rewrite Z.gtb_ltb; split; apply Z.ltb_ge; lia).
  set (pdu := SetMaxRepetitions
                (SetNonrepeaters
                   (NewPduWithOids (Version (args s)) GetBulkRequestT oids) nr) k).
  assert (Hb : PduVarBinds (Agent.respond mib pdu) = Agent.getbulk mib oids nr k).
  { unfold Agent.respond, pdu. simpl. rewrite map_map. simpl. rewrite map_id.
    reflexivity. }
  destruct (sendPdu_answered (Agent.env mib) pdu (Agent.respond mib pdu) s t Hwf Hr)
    as (s1 & t1 & E & Ha & Hc & He).
  - intros _. split; reflexivity.
  - intros t'. reflexivity.
  - exists (Agent.respond mib pdu), s1, t1. split; [exact E|].
    split; [exact Hb|]. split; [reflexivity|]. repeat split; assumption.
Qed.

(** For one name and no non-repeaters the reply is the chain of
    successors. *)
Lemma getbulk_single : forall mib cur r,
  StronglySorted before mib ->
  Agent.getbulk mib [Some cur] 0 (Z.of_nat r) = chain r cur (rest mib cur).
Proof.
  intros mib cur r Hs. unfold Agent.getbulk.
  change (Z.to_nat 0) with 0%nat. cbn [firstn skipn map app].
  rewrite Nat2Z.id. apply rounds_chain. assumption.
Qed.

(** *** The invariant of the walk *)

Lemma filter_filter_imp : forall (A : Type) (f g : A -> bool) l,
  (forall x, In x l -> f x = true -> g x = true) ->
  filter f (filter g l) = filter f l.
Proof.
  intros A f g. induction l as [|x l IH]; intros H; simpl; [reflexivity|].
  assert (IH' : filter f (filter g l) = filter f l)
    by (apply IH; intros y Hy; apply H; right; assumption).
  destruct (g x) eqn:Eg; simpl.
  - rewrite IH'. reflexivity.
  - destruct (f x) eqn:Ef; [|assumption].
    rewrite (H x (or_introl eq_refl) Ef) in Eg. discriminate.
Qed.

Lemma chain_exact : forall todo cur,
  chain (length todo) cur todo = map to_bind todo.
Proof.
  induction todo as [|e todo IH]; intros cur; [reflexivity|].
  simpl. rewrite IH. reflexivity.
Qed.

(** Sorted entries, as var-binds, are left alone by [Sort] and [Uniq]. *)
Lemma binds_sorted_uniq : forall l,
  StronglySorted before l ->
  VarBindsUniq (VarBindsSort (map to_bind l)) = map to_bind l.
Proof.
  intros l Hs. destruct l as [|e l]; [reflexivity|].
  rewrite <- (chain_exact (e :: l) []). simpl length.
  rewrite reply_sorted_uniq by assumption.
  change (S (length l)) with (length (e :: l)).
  rewrite firstn_all, chain_exact. reflexivity.
Qed.

Section Single.
Variable mib : Agent.Mib.
Variable P : Oid.
Variable r : nat.
Hypothesis mib_sorted : StronglySorted before mib.
Hypothesis mib_values : forall e, In e mib -> is_sentinel (snd e) = false.

(** What holds between two requests: the walk has reached [cur] and
    gathered [res]. *)
Definition walk_inv (cur : Oid) (res : VarBinds) : Prop :=
  Forall (fun e => Agent.after P e = true) (rest mib cur)
  /\ res ++ map to_bind (take_while (under P) (rest mib cur))
     = descendants P mib
  /\ (forall e, In e (rest mib cur) -> MatchOid res (Some (fst e)) = None).

Lemma rest_sorted : forall cur, StronglySorted before (rest mib cur).
Proof. intros cur. apply sorted_filter. assumption. Qed.

Lemma rest_in_mib : forall cur e, In e (rest mib cur) -> In e mib.
Proof. intros cur e H. apply filter_In in H. tauto. Qed.

(** Under [P], the entries after [P] are those not at [P]. *)
Lemma under_after : forall e,
  under P e && Agent.after P e = below P e.
Proof.
  intros e. unfold below. destruct (under P e) eqn:Hu; [|reflexivity].
  cbn [andb]. unfold under in Hu. unfold Agent.after, OidEqual.
  pose proof (contains_not_before _ _ Hu) as Hnb.
  rewrite (OidCompare_flip P (fst e)).
  destruct (OidCompare P (fst e)); try reflexivity. congruence.
Qed.

Lemma walk_inv_start : walk_inv P [].
Proof.
  unfold walk_inv.
  assert (Ha : Forall (fun e => Agent.after P e = true) (rest mib P)).
  { apply Forall_forall. intros e He. apply filter_In in He. tauto. }
  split; [exact Ha|]. split; [|reflexivity].
  simpl. rewrite <- filter_take_while by (apply rest_sorted || exact Ha).
  unfold descendants, rest. f_equal.
  clear. induction mib as [|e l IH]; [reflexivity|]. cbn [filter].
  rewrite <- under_after.
  destruct (Agent.after P e); cbn [filter];
    destruct (under P e); cbn [andb]; rewrite IH; reflexivity.
Qed.

(** One iteration against the agent: either the walk is over with the
    whole subtree gathered, or it goes on, the invariant holds again and
    the agent has less left. *)
Lemma walk_iteration_agent : forall cur res pdu,
  walk_inv cur res ->
  PduVarBinds pdu = chain (S r) cur (rest mib cur) ->
  walk_iteration (Z.of_nat (S r)) (mkWalk [Some P] [Some cur] 0 [] res) pdu
  = Ok (mkWalk [] [] 0 [] (descendants P mib))
  \/ exists cur' res',
       walk_iteration (Z.of_nat (S r)) (mkWalk [Some P] [Some cur] 0 [] res) pdu
       = Ok (mkWalk [Some P] [Some cur'] 0 [] res')
       /\ walk_inv cur' res'
       /\ (length (rest mib cur') < length (rest mib cur))%nat.
Proof.
  intros cur res pdu (Hafter & Hres & Hnew) Hpdu.
  pose proof (rest_sorted cur) as Hs.
  pose proof (reply_sorted_uniq r cur (rest mib cur) Hs) as Hreply.
  rewrite <- Hpdu in Hreply.
  destruct (rest mib cur) as [|e0 todo0] eqn:Htodo.
  - (* the agent has nothing left *)
    left. simpl in Hres. rewrite app_nil_r in Hres. subst res.
    apply iteration_done. rewrite Hreply. unfold MatchBaseOids. simpl.
    destruct (OidContains cur P); [right | left; reflexivity].
    eexists. split; reflexivity.
  - set (todo := e0 :: todo0) in *.
    set (F := firstn (S r) todo).
    set (M := take_while (under P) F).
    assert (HF : forall x, In x F -> In x todo) by (intros x; apply firstn_In').
    assert (HM : forall x, In x M -> In x todo)
      by (intros x Hx; apply HF; eapply take_while_In; exact Hx).
    assert (Hmatched :
      MatchBaseOids (VarBindsUniq (VarBindsSort (PduVarBinds pdu))) (Some P)
      = map to_bind M).
    { rewrite Hreply. unfold todo at 1. fold F. rewrite MatchBaseOids_binds.
      unfold M. f_equal. apply filter_take_while.
      - apply sorted_firstn. assumption.
      - apply Forall_forall. intros x Hx. rewrite Forall_forall in Hafter.
        apply Hafter, HF, Hx. }
    assert (HlenM : (length M <= S r)%nat).
    { unfold M. etransitivity; [apply take_while_length|].
      unfold F. rewrite length_firstn. lia. }
    destruct M as [|m0 M0] eqn:EM.
    + (* nothing under P in the reply *)
      left.
      assert (Htw : take_while (under P) todo = []).
      { rewrite (take_while_firstn_short _ (under P) (S r) todo);
          fold F; fold M; rewrite EM; simpl; [reflexivity | lia]. }
      rewrite Htw in Hres. simpl in Hres. rewrite app_nil_r in Hres. subst res.
      apply iteration_done. left. exact Hmatched.
    + rewrite <- EM in *.
      assert (HMne : map to_bind M <> []) by (rewrite EM; discriminate).
      assert (Hlast :
        MatchOid res (vbOid (last (map to_bind M) (mkVarBind None Null))) = None).
      { pose proof (last_In _ (map to_bind M) (mkVarBind None Null) HMne) as Hin.
        apply in_map_iff in Hin. destruct Hin as (x & Hx & HxM).
        rewrite <- Hx. simpl. apply Hnew. apply HM. assumption. }
      assert (Hvals : Forall (fun v => is_sentinel (vbVariable v) = false)
                        (map to_bind M)).
      { apply Forall_forall. intros v Hv. apply in_map_iff in Hv.
        destruct Hv as (x & <- & HxM). simpl. apply mib_values.
        apply (rest_in_mib cur). rewrite Htodo. apply HM. assumption. }
      assert (Hnext :
        last (map vbOid (map to_bind M)) (Some cur) = Some (last (map fst M) cur)).
      { rewrite map_map.
        replace (map (fun x : entry => vbOid (to_bind x)) M)
          with (map (@Some Oid) (map fst M))
          by (rewrite map_map; reflexivity).
        apply last_map_default. }
      pose proof (iteration_collects (Z.of_nat (S r)) P cur [] res pdu
                    (map to_bind M) (last (map fst M) cur)
                    Hmatched HMne Hlast Hvals Hnext) as Hiter.
      rewrite Hpdu, chain_length, length_map in Hiter.
      replace (Z.of_nat (S r) =? Z.of_nat 1 * Z.of_nat (S r)) with true in Hiter
        by (symmetry; apply Z.eqb_eq; lia).
      cbn [andb] in Hiter.
      destruct (Z.of_nat (length M) <? Z.of_nat (S r)) eqn:Hshort.
      * (* fewer entries under P than asked for: the subtree is exhausted *)
        left. rewrite Hiter. do 2 f_equal.
        apply Z.ltb_lt in Hshort.
        rewrite (take_while_firstn_short _ (under P) (S r) todo) in Hres
          by (fold F; fold M; lia).
        exact Hres.
      * (* a full reply under P: the walk goes on from its last entry *)
        right. apply Z.ltb_ge in Hshort.
        assert (Hfull : length (take_while (under P) (firstn (S r) todo)) = S r)
          by (fold F; fold M; lia).
        destruct (take_while_firstn_full _ (under P) (S r) todo Hfull) as [HMF Htw].
        fold F in HMF, Htw. fold M in HMF.
        assert (Hrest : rest mib (last (map fst M) cur) = skipn (S r) todo).
        { rewrite HMF. unfold F. rewrite <- Htodo. apply rest_advance.
          assumption. }
        exists (last (map fst M) cur), (res ++ map to_bind M).
        split; [exact Hiter|]. split.
        -- unfold walk_inv. rewrite Hrest. split; [|split].
           ++ apply Forall_forall. intros x Hx. rewrite Forall_forall in Hafter.
              apply Hafter. eapply skipn_In'. exact Hx.
           ++ rewrite <- Hres, Htw, map_app, <- app_assoc, HMF. reflexivity.
           ++ intros x Hx. unfold MatchOid. rewrite find_app'.
              fold (MatchOid res (Some (fst x))).
              rewrite (Hnew x) by (eapply skipn_In'; exact Hx).
              apply find_none_all. intros v Hv. apply in_map_iff in Hv.
              destruct Hv as (y & <- & Hy). simpl. unfold OidEqual.
              rewrite HMF in Hy.
              pose proof (sorted_split (S r) todo y x Hs Hy Hx) as Hyx.
              unfold before in Hyx. rewrite Hyx. reflexivity.
        -- rewrite Hrest, length_skipn. unfold todo. simpl length. lia.
Qed.

End Single.

(** *** The whole walk *)

Lemma walk_loop_next : forall env fuel k w s t pdu s1 t1 w',
  w_reqOids w <> [] ->
  GetBulkRequest env (w_reqOids w) (w_nonRepeaters w) k s t = (Ok pdu, s1, t1) ->
  walk_stops pdu (w_nonRepeaters w) = false ->
  walk_iteration k w pdu = Ok w' ->
  walk_loop env (S fuel) k w s t = walk_loop env fuel k w' s1 t1.
Proof.
  intros env fuel k w s t pdu s1 t1 w' Hne Hreq Hstop Hiter. simpl.
  destruct (w_reqOids w); [congruence|].
  rewrite Hreq, Hstop, Hiter. reflexivity.
Qed.

Lemma walk_loop_end : forall env fuel k w s t,
  w_reqOids w = [] ->
  walk_loop env fuel k w s t
  = Some (Ok (NewPduWithVarBinds (Version (args s)) GetResponse
                (w_nonRepBinds w ++ VarBindsUniq (VarBindsSort (w_resBinds w)))),
          s, t).
Proof.
  intros env fuel k w s t H. destruct fuel; simpl; rewrite H; reflexivity.
Qed.

Lemma walk_single : forall mib P r,
  StronglySorted before mib ->
  (forall e, In e mib -> is_sentinel (snd e) = false) ->
  Z.of_nat (S r) <= Go.MaxInt32 ->
  forall n cur res s t,
    (length (rest mib cur) <= n)%nat ->
    walk_inv mib P cur res ->
    V2c <= Version (args s) ->
    (conn s = true -> engine s = true) ->
    0 <= Go.to_int (Retries (args s)) ->
    exists s' t',
      forall fuel, (n < fuel)%nat ->
        walk_loop (Agent.env mib) fuel (Z.of_nat (S r))
          (mkWalk [Some P] [Some cur] 0 [] res) s t
        = Some (Ok (NewPduWithVarBinds (Version (args s)) GetResponse
                      (descendants P mib)), s', t').
Proof.
  intros mib P r Hs Hvals Hk.
  induction n as [|n IH]; intros cur res s t Hlen Hinv Hv Hwf Hretries;
    (destruct (agent_request mib [Some cur] 0 (Z.of_nat (S r)) s t Hv)
       as (pdu & s1 & t1 & Hreq & Hb & He & Ha & Hc & Heng);
     [unfold Go.MaxInt32; lia | lia | exact Hwf | exact Hretries |]);
    rewrite getbulk_single in Hb by assumption;
    (assert (Hstop : walk_stops pdu 0 = false)
       by (unfold walk_stops; rewrite He; reflexivity));
    destruct (walk_iteration_agent mib P r Hs Hvals cur res pdu Hinv Hb)
      as [Hiter | (cur' & res' & Hiter & Hinv' & Hlt)].
  - exists s1, t1. intros [|fuel] Hf; [lia|].
    rewrite (walk_loop_next (Agent.env mib) fuel (Z.of_nat (S r))
               (mkWalk [Some P] [Some cur] 0 [] res) s t pdu s1 t1 _
               ltac:(discriminate) Hreq Hstop Hiter).
    rewrite walk_loop_end by reflexivity. simpl w_nonRepBinds. simpl w_resBinds.
    unfold descendants at 1.
    rewrite binds_sorted_uniq by (apply sorted_filter; assumption).
    rewrite Ha. reflexivity.
  - lia.
  - exists s1, t1. intros [|fuel] Hf; [lia|].
    rewrite (walk_loop_next (Agent.env mib) fuel (Z.of_nat (S r))
               (mkWalk [Some P] [Some cur] 0 [] res) s t pdu s1 t1 _
               ltac:(discriminate) Hreq Hstop Hiter).
    rewrite walk_loop_end by reflexivity. simpl w_nonRepBinds. simpl w_resBinds.
    unfold descendants at 1.
    rewrite binds_sorted_uniq by (apply sorted_filter; assumption).
    rewrite Ha. reflexivity.
  - destruct (IH cur' res' s1 t1) as (s' & t' & Hloop);
      [lia | assumption | rewrite Ha; assumption | intros _; assumption
       | rewrite Ha; assumption |].
    exists s', t'. intros [|fuel] Hf; [lia|].
    rewrite (walk_loop_next (Agent.env mib) fuel (Z.of_nat (S r))
               (mkWalk [Some P] [Some cur] 0 [] res) s t pdu s1 t1 _
               ltac:(discriminate) Hreq Hstop Hiter).
    rewrite Hloop by lia. rewrite Ha. reflexivity.
Qed.

Lemma is_mib_sorted : forall mib,
  is_mib mib = true ->
  StronglySorted before mib
  /\ (forall e, In e mib -> is_sentinel (snd e) = false).
Proof.
  intros mib H. unfold is_mib in H. apply andb_true_iff in H. destruct H as [H1 H2].
  split; [apply increasing_sorted; assumption|].
  intros e He. rewrite forallb_forall in H2. specialize (H2 e He).
  apply negb_true_iff in H2. assumption.
Qed.

(** The interface table of the walk example, between two other entries. *)
Definition example_mib : Agent.Mib :=
  [([1; 3; 6; 1; 2; 1; 1; 1; 0], OctetString [108; 105; 110; 117; 120]);
   ([1; 3; 6; 1; 2; 1; 2; 2; 1; 2; 1], OctetString [108; 111]);
   ([1; 3; 6; 1; 2; 1; 2; 2; 1; 2; 2], OctetString [101; 116; 104; 48]);
   ([1; 3; 6; 1; 2; 1; 2; 2; 1; 2; 3], OctetString [101; 116; 104; 49]);
   ([1; 3; 6; 1; 2; 1; 2; 2; 1; 2; 4], OctetString [119; 108; 48]);
   ([1; 3; 6; 1; 2; 1; 2; 2; 1; 3; 1], Integer 24)].

Definition ifDescr : Oid := [1; 3; 6; 1; 2; 1; 2; 2; 1; 2].

(** C1, the claim as it stands fails: an entry at [P] itself is under [P],
    and it is not a successor of [P].  Against the MIB of the example,
    which holds [sysDescr.0], the walk of that name ends with an empty
    list and not with the entry. *)
Lemma GetBulkWalk_misses_instance :
  ~ (forall mib P k s t,
       is_mib mib = true ->
       1 <= k <= Go.MaxInt32 ->
       V2c <= Version (args s) ->
       (conn s = true -> engine s = true) ->
       exists s' t',
         forall fuel, (length mib < fuel)%nat ->
           GetBulkWalk (Agent.env mib) fuel (Go.mkSlice [Some P] []) 0 k s t
           = Some (Ok (NewPduWithVarBinds (Version (args s)) GetResponse
                         (subtree P mib)), s', t')).
Proof.
  intros H.
  destruct (H example_mib [1; 3; 6; 1; 2; 1; 1; 1; 0] 3 Requests.open_v2c [])
    as (s' & t' & Hw).
  - reflexivity.
  - unfold Go.MaxInt32. lia.
  - vm_compute. discriminate.
  - reflexivity.
  - specialize (Hw 7%nat ltac:(simpl; lia)).
    apply (f_equal (option_map (fun x => fst (fst x)))) in Hw.
    vm_compute in Hw. discriminate Hw.
Qed.

(** C1, amended: against an agent whose MIB holds a finite set of entries,
    a V2c or V3 client's [GetBulkWalk([P], 0, k)] with [k] from 1 to
    2^31-1 (1, 5 and 100 among them) and [Retries] below 2^63 ends, and
    returns a Response PDU whose var-bind list is exactly the agent's
    entries strictly under [P], a list sorted by OID and free of
    duplicates: [Sort] and [Uniq] leave it as it is.  When the loop ends,
    from whatever state, the result is the non-repeater binds followed by
    the sorted, deduplicated repeater binds. *)
Theorem GetBulkWalk_complete : forall mib P k spare s t,
  is_mib mib = true ->
  1 <= k <= Go.MaxInt32 ->
  V2c <= Version (args s) ->
  (conn s = true -> engine s = true) ->
  0 <= Go.to_int (Retries (args s)) ->
  (forall fuel w s0 t0,
     w_reqOids w = [] ->
     walk_loop (Agent.env mib) fuel k w s0 t0
     = Some (Ok (NewPduWithVarBinds (Version (args s0)) GetResponse
                   (w_nonRepBinds w
                    ++ VarBindsUniq (VarBindsSort (w_resBinds w)))), s0, t0))
  /\ VarBindsUniq (VarBindsSort (descendants P mib)) = descendants P mib
  /\ exists s' t',
       forall fuel, (length mib < fuel)%nat ->
         GetBulkWalk (Agent.env mib) fuel (Go.mkSlice [Some P] spare) 0 k s t
         = Some (Ok (NewPduWithVarBinds (Version (args s)) GetResponse
                       (descendants P mib)), s', t').
Proof.
  intros mib P k spare s t Hmib Hk Hv Hwf Hretries.
  destruct (is_mib_sorted mib Hmib) as [Hs Hvals].
  split; [intros fuel w s0 t0 Hw; apply walk_loop_end; assumption|].
  split; [apply binds_sorted_uniq, sorted_filter; assumption|].
  assert (Hr : k = Z.of_nat (S (Z.to_nat k - 1))) by lia.
  destruct (walk_single mib P (Z.to_nat k - 1) Hs Hvals ltac:(lia)
              (length mib) P [] s t) as (s' & t' & Hloop).
  - unfold rest. apply filter_length_le.
  - apply walk_inv_start; assumption.
  - assumption.
  - assumption.
  - assumption.
  - exists s', t'. intros fuel Hf. unfold GetBulkWalk.
    replace (walk_init (Go.mkSlice [Some P] spare) 0)
      with (Some (mkWalk [Some P] [Some P] 0 [] [])) by reflexivity.
    rewrite Hr. apply Hloop. assumption.
Qed.

Lemma GetBulkWalk_complete_witness :
  (forall fuel w s0 t0,
     w_reqOids w = [] ->
     walk_loop (Agent.env example_mib) fuel 5 w s0 t0
     = Some (Ok (NewPduWithVarBinds (Version (args s0)) GetResponse
                   (w_nonRepBinds w
                    ++ VarBindsUniq (VarBindsSort (w_resBinds w)))), s0, t0))
  /\ VarBindsUniq (VarBindsSort (descendants ifDescr example_mib))
     = descendants ifDescr example_mib
  /\ exists s' t',
       forall fuel, (length example_mib < fuel)%nat ->
         GetBulkWalk (Agent.env example_mib) fuel (Go.mkSlice [Some ifDescr] []) 0 5
           Requests.open_v2c []
         = Some (Ok (NewPduWithVarBinds (Version (args Requests.open_v2c))
                       GetResponse (descendants ifDescr example_mib)), s', t').
Proof.
  apply (GetBulkWalk_complete example_mib ifDescr 5 [] Requests.open_v2c []).
  - reflexivity.
  - unfold Go.MaxInt32. lia.
  - vm_compute. discriminate.
  - reflexivity.
  - vm_compute. discriminate.
Defined.

(** The walk of the example, run: the four interface names, in order. *)
Example GetBulkWalk_example :
  option_map (fun x => fst (fst x))
    (GetBulkWalk (Agent.env example_mib) 7 (Go.mkSlice [Some ifDescr] []) 0 3
       Requests.open_v2c [])
  = Some (Ok (NewPduWithVarBinds V2c GetResponse
                [mkVarBind (Some [1; 3; 6; 1; 2; 1; 2; 2; 1; 2; 1]) (OctetString [108; 111]);
                 mkVarBind (Some [1; 3; 6; 1; 2; 1; 2; 2; 1; 2; 2]) (OctetString [101; 116; 104; 48]);
                 mkVarBind (Some [1; 3; 6; 1; 2; 1; 2; 2; 1; 2; 3]) (OctetString [101; 116; 104; 49]);
                 mkVarBind (Some [1; 3; 6; 1; 2; 1; 2; 2; 1; 2; 4]) (OctetString [119; 108; 48])])).
Proof. vm_compute. reflexivity. Qed.

(** An entry at [P] itself is not a successor of [P]: the walk of a name
    the agent holds as an instance comes back empty. *)
Example GetBulkWalk_instance :
  option_map (fun x => fst (fst x))
    (GetBulkWalk (Agent.env example_mib) 7
       (Go.mkSlice [Some [1; 3; 6; 1; 2; 1; 1; 1; 0]] []) 0 3 Requests.open_v2c [])
  = Some (Ok (NewPduWithVarBinds V2c GetResponse [])).
Proof. vm_compute. reflexivity. Qed.

End Completeness.

(** * Further properties of the client *)

(** ** Construction, continued *)

Module Constructed.

Import Construction.

(** The arguments as [validate] leaves them when it accepts them: for V3
    the engine IDs have lost their 0x. *)
Definition stripped (a : SNMPArguments) : SNMPArguments :=
  if Version a =? V3 then
    set_ContextEngineId
      (set_SecurityEngineId a (stripHexPrefix (SecurityEngineId a)))
      (stripHexPrefix (ContextEngineId a))
  else a.

Lemma validateV3_accepts : forall a,
  fst (validateV3 a) = None ->
  snd (validateV3 a)
  = set_ContextEngineId
      (set_SecurityEngineId a (stripHexPrefix (SecurityEngineId a)))
      (stripHexPrefix (ContextEngineId a)).
Proof.
  intros a. unfold validateV3.
  repeat match goal with
         | |- context [if ?c then (Some _, _) else _] =>
             destruct c; [simpl; discriminate|]
         end.
  destruct a as [v nw ad to re ms co un sl ap apr pp ppr sec ctx cn b ti].
  simpl. destruct (sec =? "")%string eqn:Es; simpl.
  - apply String.eqb_eq in Es. subst sec.
    destruct (ctx =? "")%string eqn:Ec; simpl.
    + apply String.eqb_eq in Ec. subst ctx. reflexivity.
    + reflexivity.
  - destruct (snd (engineIdToBytes (stripHexPrefix sec))); simpl; [discriminate|].
    destruct (ctx =? "")%string eqn:Ec; simpl.
    + apply String.eqb_eq in Ec. subst ctx. reflexivity.
    + reflexivity.
Qed.

Lemma validateV3_user : forall a,
  fst (validateV3 a) = None -> 1 <= strlen (UserName a) <= 32.
Proof.
  intros a. unfold validateV3.
  destruct ((strlen (UserName a) <? 1) || (strlen (UserName a) >? 32)) eqn:E;
    [simpl; discriminate|].
  intros _. boolprop. lia.
Qed.

Lemma validate_accepts : forall a,
  fst (validate a) = None ->
  snd (validate a) = stripped a
  /\ (Version a = V1 \/ Version a = V2c \/ Version a = V3)
  /\ (MessageMaxSize a = 0 \/ msgSizeMinimum <= MessageMaxSize a <= Go.MaxInt32)
  /\ (Version a = V3 -> 1 <= strlen (UserName a) <= 32).
Proof.
  intros a. unfold validate, stripped.
  destruct (negb (Version a =? V1) && negb (Version a =? V2c)
            && negb (Version a =? V3)) eqn:Ev; [simpl; discriminate|].
  destruct (negb (MessageMaxSize a =? 0) && (MessageMaxSize a <? msgSizeMinimum)
            || (MessageMaxSize a >? Go.MaxInt32)) eqn:Em; [simpl; discriminate|].
  assert (Hv : Version a = V1 \/ Version a = V2c \/ Version a = V3).
  { destruct (Version a =? V1) eqn:E1; [left; boolprop; assumption|].
    destruct (Version a =? V2c) eqn:E2; [right; left; boolprop; assumption|].
    destruct (Version a =? V3) eqn:E3; [right; right; boolprop; assumption|].
    discriminate. }
  assert (Hm : MessageMaxSize a = 0
               \/ msgSizeMinimum <= MessageMaxSize a <= Go.MaxInt32).
  { apply orb_false_iff in Em. destruct Em as [Em1 Em2].
    apply andb_false_iff in Em1. boolprop.
    destruct Em1 as [Em1 | Em1]; boolprop; [left; assumption | right; lia]. }
  destruct (Version a =? V3) eqn:E3.
  - intros H. split; [apply validateV3_accepts; assumption|].
    split; [assumption|]. split; [assumption|].
    intros _. apply validateV3_user. assumption.
  - intros _. split; [reflexivity|]. split; [assumption|]. split; [assumption|].
    intros H. boolprop. congruence.
Qed.

(** X1: a client handed back by [NewSNMP] is not connected; it holds the
    arguments given, with the three defaults filled in and, for V3, the
    engine IDs without their 0x, and nothing else changed.  Its version is
    one of V1, V2c, V3, its message size lies in 484..2^31-1, its network
    is named, its timeout is positive, and a V3 user name has 1 to 32
    bytes. *)
Theorem NewSNMP_client : forall a s,
  NewSNMP a = Ok s ->
  s = mkSNMP false (setDefault (stripped a)) false
  /\ (Version (args s) = V1 \/ Version (args s) = V2c \/ Version (args s) = V3)
  /\ msgSizeMinimum <= MessageMaxSize (args s) <= Go.MaxInt32
  /\ Network (args s) <> ""
  /\ 0 < Timeout (args s)
  /\ (Version (args s) = V3 -> 1 <= strlen (UserName (args s)) <= 32).
Proof.
  intros a s H. unfold NewSNMP in H.
  destruct (validate a) as [[e|] a'] eqn:Ev; [discriminate|].
  inversion H; subst s; clear H.
  destruct (validate_accepts a) as (Ha' & Hver & Hsize & Huser);
    [rewrite Ev; reflexivity|].
  rewrite Ev in Ha'. simpl in Ha'. subst a'.
  assert (Hsame : Version (stripped a) = Version a
                  /\ MessageMaxSize (stripped a) = MessageMaxSize a
                  /\ UserName (stripped a) = UserName a).
  { unfold stripped. destruct (Version a =? V3); repeat split. }
  destruct Hsame as (Sv & Sm & Su).
  split; [reflexivity|]. cbn [args].
  unfold setDefault.
  destruct (Network (stripped a) =? "")%string eqn:En;
    destruct (Timeout (stripped a) <=? 0) eqn:Et; simpl;
    try rewrite Et; simpl;
    destruct (MessageMaxSize (stripped a) =? 0) eqn:Em; simpl;
    try rewrite Em; simpl;
    rewrite ?Sv, ?Su; rewrite ?Sm in *; boolprop.
  all: split; [assumption|].
  all: split; [unfold msgSizeMinimum, msgSizeDefault, Go.MaxInt32 in *; lia|].
  all: split; [first [discriminate | assumption]|].
  all: split; [unfold timeoutDefault; lia | assumption].
Qed.

Lemma NewSNMP_client_witness :
  exists s,
    NewSNMP no_address_args = Ok s
    /\ s = mkSNMP false (setDefault (stripped no_address_args)) false
    /\ msgSizeMinimum <= MessageMaxSize (args s) <= Go.MaxInt32
    /\ Network (args s) <> ""
    /\ 0 < Timeout (args s).
Proof.
  eexists. split; [reflexivity|].
  destruct (NewSNMP_client no_address_args _ eq_refl) as (H1 & _ & H3 & H4 & H5 & _).
  split; [exact H1 | split; [exact H3 | split; [exact H4 | exact H5]]].
Defined.

(** X2: [NewSNMP] refuses every version that is not V1, V2c or V3, whatever
    the other fields.  For V1 and V2c the fields of V3 are not looked at:
    construction fails exactly when the message size is refused, and
    otherwise hands back the arguments with the defaults filled in. *)
Theorem NewSNMP_versions : forall a,
  (Version a <> V1 -> Version a <> V2c -> Version a <> V3 ->
   NewSNMP a
   = Err (ArgumentError (VInt (Version a)) (Text "Unknown SNMP Version")))
  /\ (Version a = V1 \/ Version a = V2c ->
      (is_argument_error (NewSNMP a) <-> size_refused a)
      /\ (~ size_refused a -> NewSNMP a = Ok (mkSNMP false (setDefault a) false))).
Proof.
  intros a. split.
  - intros H1 H2 H3. unfold NewSNMP, validate.
    apply Z.eqb_neq in H1, H2, H3. rewrite H1, H2, H3. reflexivity.
  - intros Hv. unfold NewSNMP, validate, size_refused, is_argument_error.
    replace (negb (Version a =? V1) && negb (Version a =? V2c)
             && negb (Version a =? V3)) with false
      by (destruct Hv as [-> | ->]; reflexivity).
    replace (Version a =? V3) with false
      by (destruct Hv as [-> | ->]; reflexivity).
    destruct (negb (MessageMaxSize a =? 0) && (MessageMaxSize a <? msgSizeMinimum)
              || (MessageMaxSize a >? Go.MaxInt32)) eqn:Hm.
    + assert (Hr : (MessageMaxSize a <> 0 /\ MessageMaxSize a < msgSizeMinimum)
                   \/ MessageMaxSize a > Go.MaxInt32).
      { boolprop. destruct Hm as [Hm | Hm]; boolprop; [left | right]; lia. }
      split; [split; [intros _; exact Hr | eauto] | tauto].
    + assert (Hr : ~ ((MessageMaxSize a <> 0 /\ MessageMaxSize a < msgSizeMinimum)
                      \/ MessageMaxSize a > Go.MaxInt32)).
      { boolprop. intros [[Hn Hl] | Hg]; [|lia].
        destruct H as [H | H]; boolprop; [congruence | lia]. }
      split; [split; [intros (v & m & E); discriminate | tauto] | reflexivity].
Qed.

(** A configuration whose version is none of the three. *)
Definition unknown_version_args : SNMPArguments :=
  mkArgs 2 "udp" "192.168.1.1:161" 0 0 0 "public" "" NoAuthNoPriv
    "" "" "" "" "" "" "" 0 0.

Lemma NewSNMP_versions_witness :
  NewSNMP unknown_version_args
  = Err (ArgumentError (VInt (Version unknown_version_args))
           (Text "Unknown SNMP Version"))
  /\ (is_argument_error (NewSNMP no_address_args) <-> size_refused no_address_args)
  /\ NewSNMP no_address_args = Ok (mkSNMP false (setDefault no_address_args) false).
Proof.
  split.
  - apply (proj1 (NewSNMP_versions unknown_version_args)); discriminate.
  - destruct (proj2 (NewSNMP_versions no_address_args)) as [H1 H2].
    + right. reflexivity.
    + split; [exact H1|]. apply H2. unfold size_refused. vm_compute.
      intros [[H _] | H]; [apply H; reflexivity | discriminate].
Defined.

(** *** The defaults *)

(** X3: [setDefault] fills in only what is unset.  A configuration with
    a network, a positive timeout and a nonzero message size is left as
    it is, and in every case a second pass changes nothing: the values
    filled in are themselves set. *)
Theorem setDefault_idempotent : forall a,
  setDefault (setDefault a) = setDefault a
  /\ (Network a <> ""%string -> 0 < Timeout a -> MessageMaxSize a <> 0 ->
      setDefault a = a).
Proof.
  assert (Hkeep : forall a, Network a <> ""%string -> 0 < Timeout a ->
                            MessageMaxSize a <> 0 -> setDefault a = a).
  { intros a Hn Ht Hm. unfold setDefault.
    apply String.eqb_neq in Hn. rewrite Hn.
    replace (Timeout a <=? 0) with false by (symmetry; apply Z.leb_gt; assumption).
    apply Z.eqb_neq in Hm. rewrite Hm. reflexivity. }
  intros a. split; [|apply Hkeep].
  apply Hkeep; destruct a; unfold setDefault;
    cbn [Network Timeout MessageMaxSize];
    destruct (String.eqb Network0 "") eqn:En;
    destruct (Timeout0 <=? 0) eqn:Et;
    destruct (MessageMaxSize0 =? 0) eqn:Em;
    cbn [set_Network set_Timeout set_MessageMaxSize Network Timeout MessageMaxSize];
    rewrite ?Et, ?Em;
    cbn [set_Network set_Timeout set_MessageMaxSize Network Timeout MessageMaxSize];
    rewrite ?Em;
    cbn [set_Network set_Timeout set_MessageMaxSize Network Timeout MessageMaxSize];
    try (apply String.eqb_neq; assumption);
    try (apply Z.leb_gt; assumption);
    try (apply Z.eqb_neq; assumption);
    try discriminate; reflexivity.
Qed.

Lemma setDefault_idempotent_witness :
  setDefault (setDefault (args Requests.open_v2c))
  = setDefault (args Requests.open_v2c)
  /\ setDefault (args Requests.open_v2c) = args Requests.open_v2c.
Proof.
  destruct (setDefault_idempotent (args Requests.open_v2c)) as [H1 H2].
  split; [exact H1|]. apply H2.
  - vm_compute. discriminate.
  - vm_compute. reflexivity.
  - vm_compute. discriminate.
Defined.

End Constructed.

(** ** The connection *)

Module Connection.

(** The connection and the engine are there together or not at all. *)
Definition consistent (s : SNMP) : Prop := conn s = engine s.

Lemma retry_rel : forall (R St : Type) (P : St -> Prop)
    (Rel : (R + error) * St -> Prop) (f : St -> (R + error) * St),
  (forall st, P st -> Rel (f st)) ->
  (forall st e, P st -> fst (f st) = inr e -> P (snd (f st))) ->
  forall n st, P st -> Rel (retry_loop n f st).
Proof.
  intros R St P Rel f Hrel Hkeep. induction n as [|n IH]; intros st Hst.
  - simpl. specialize (Hrel st Hst). destruct (f st) as [r st'].
    destruct r as [x|[]]; exact Hrel.
  - simpl. pose proof (Hrel st Hst) as Hr. pose proof (Hkeep st) as Hk.
    destruct (f st) as [r st']. simpl in Hk.
    destruct r as [x|[]]; try exact Hr; apply IH; eapply Hk; eauto.
Qed.

(** Dialling changes nothing but the connection, and only when it
    succeeds; with a count that is not negative it is attempted. *)
Lemma dial_outcome : forall env n s t,
  0 <= n ->
  match retry n (dial_once env) (s, t) with
  | (Some (inl _), (s1, _)) => s1 = set_conn s true
  | (Some (inr _), (s1, _)) => s1 = s
  | (None, _) => False
  end.
Proof.
  intros env n s t Hn. unfold retry.
  replace (n <? 0) with false by (symmetry; apply Z.ltb_ge; assumption).
  pose proof (retry_rel unit (SNMP * trace) (fun st => fst st = s)
                (fun x => match x with
                          | (inl _, (s1, _)) => s1 = set_conn s true
                          | (inr _, (s1, _)) => s1 = s
                          end) (dial_once env)) as H.
  specialize (H ltac:(intros [s0 t0] H0; simpl in H0; subst s0; unfold dial_once;
                      destruct (dial_reply env _); reflexivity)).
  specialize (H ltac:(intros [s0 t0] e H0; simpl in H0; subst s0; unfold dial_once;
                      destruct (dial_reply env _); simpl;
                      [reflexivity | discriminate])).
  specialize (H (Z.to_nat n) (s, t) eq_refl).
  destruct (retry_loop (Z.to_nat n) (dial_once env) (s, t)) as [[u|e] [s1 t1]];
    exact H.
Qed.

(** What [Open] leaves behind on a client that was not connected. *)
Lemma Open_closed : forall env s t,
  conn s = false ->
  0 <= Go.to_int (Retries (args s)) ->
  match Open env s t with
  | (None, s', _) => s' = mkSNMP true (args s) true
  | (Some _, s', _) => s' = s \/ s' = mkSNMP false (args s) false
  end.
Proof.
  intros env s t Hc Hr. unfold Open. rewrite Hc.
  pose proof (dial_outcome env (Go.to_int (Retries (args s))) s t Hr) as Hd.
  destruct (retry (Go.to_int (Retries (args s))) (dial_once env) (s, t))
    as [[[u|e]|] [s1 t1]].
  - subst s1. simpl. destruct (discover_reply env _); reflexivity || (right; reflexivity).
  - subst s1. left. reflexivity.
  - contradiction.
Qed.

Lemma Open_consistent : forall env s t,
  consistent s ->
  0 <= Go.to_int (Retries (args s)) ->
  consistent (snd (fst (Open env s t)))
  /\ (fst (fst (Open env s t)) = None <-> conn (snd (fst (Open env s t))) = true).
Proof.
  intros env s t Hs Hr. unfold consistent in *. destruct (conn s) eqn:Hc.
  - unfold Open. rewrite Hc. simpl. rewrite Hc. split; [assumption | tauto].
  - pose proof (Open_closed env s t Hc Hr) as Ho.
    destruct (Open env s t) as [[[e|] s'] t']; simpl.
    + destruct Ho as [-> | ->]; simpl; rewrite ?Hc; split; try assumption;
        try reflexivity; split; discriminate.
    + subst s'. simpl. split; [reflexivity | tauto].
Qed.

Lemma sendPdu_consistent : forall env pdu s t,
  consistent s ->
  0 <= Go.to_int (Retries (args s)) ->
  consistent (snd (fst (sendPdu env pdu s t)))
  /\ (forall reply, fst (fst (sendPdu env pdu s t)) = Ok reply ->
      conn (snd (fst (sendPdu env pdu s t))) = true).
Proof.
  intros env pdu s t Hs Hr. unfold sendPdu.
  destruct (Open_consistent env s (EvPrintln "sendPdu" :: t) Hs Hr) as [H1 H2].
  destruct (Open env s (EvPrintln "sendPdu" :: t)) as [[[e|] s1] t1];
    simpl in H1, H2; simpl.
  - split; [assumption | discriminate].
  - assert (Hc : conn s1 = true) by (apply H2; reflexivity).
    destruct (Go.to_int (Retries (args s1)) <? 0); simpl;
      [split; [assumption | discriminate]|].
    destruct (engine s1); simpl; [|split; [assumption | discriminate]].
    destruct (retry _ _ t1) as [[[reply | e]|] t2]; simpl;
      (split; [assumption|]); intros; assumption || discriminate.
Qed.

Lemma GetBulkRequest_args : forall env oids nr mr s t,
  args (snd (fst (GetBulkRequest env oids nr mr s t))) = args s.
Proof.
  intros env oids nr mr s t. unfold GetBulkRequest.
  repeat match goal with
         | |- context [if ?c then (Err _, _, _) else _] => destruct c; [reflexivity|]
         end.
  apply (proj1 (Requests.sendPdu_args env (args s) _ s t eq_refl)).
Qed.

Lemma GetBulkRequest_consistent : forall env oids nr mr s t,
  consistent s ->
  0 <= Go.to_int (Retries (args s)) ->
  consistent (snd (fst (GetBulkRequest env oids nr mr s t))).
Proof.
  intros env oids nr mr s t Hs Hr. unfold GetBulkRequest.
  repeat match goal with
         | |- context [if ?c then (Err _, _, _) else _] => destruct c; [assumption|]
         end.
  apply sendPdu_consistent; assumption.
Qed.

Lemma walk_loop_consistent : forall env fuel mr w s t r s' t',
  consistent s ->
  0 <= Go.to_int (Retries (args s)) ->
  walk_loop env fuel mr w s t = Some (r, s', t') -> consistent s'.
Proof.
  intros env. induction fuel as [|fuel IH]; intros mr w s t r s' t' Hs Hr H;
    simpl in H.
  - destruct (w_reqOids w); [|discriminate]. inversion H; subst. assumption.
  - destruct (w_reqOids w) eqn:Hw; [inversion H; subst; assumption|].
    rewrite <- Hw in H.
    pose proof (GetBulkRequest_consistent env (w_reqOids w) (w_nonRepeaters w) mr s t
                  Hs Hr) as Hc.
    pose proof (GetBulkRequest_args env (w_reqOids w) (w_nonRepeaters w) mr s t)
      as Ha.
    destruct (GetBulkRequest env (w_reqOids w) (w_nonRepeaters w) mr s t)
      as [[res s1] t1]. simpl in Hc, Ha.
    destruct res as [pdu | e | p |]; try (inversion H; subst; assumption).
    destruct (walk_stops pdu (w_nonRepeaters w)); [inversion H; subst; assumption|].
    destruct (walk_iteration mr w pdu) as [w' | e | p |];
      try (inversion H; subst; assumption).
    eapply IH; [exact Hc | rewrite Ha; exact Hr | exact H].
Qed.

Lemma v2trap_consistent : forall env ty vbs s t,
  consistent s ->
  0 <= Go.to_int (Retries (args s)) ->
  consistent (snd (fst (v2trap env ty vbs s t))).
Proof.
  intros env ty vbs s t Hs Hr. unfold v2trap.
  destruct (Version (args s) <? V2c); [assumption|].
  pose proof (sendPdu_consistent env
                (NewPduWithVarBinds (Version (args s)) ty vbs) s
                (EvPrintln "v2trap" :: t) Hs Hr) as [H _].
  destruct (sendPdu env _ s _) as [[r s1] t1]. exact H.
Qed.

(** X4: with [Retries] below 2^63, so that [int(Retries)] is not
    negative, every operation of the client keeps the connection and the
    engine together: both set or both [nil].  [Open] reports no error
    exactly when it leaves the client connected, a reply from [sendPdu]
    comes with a connected client, and [Close] leaves neither. *)
Theorem client_stays_consistent : forall env s t,
  consistent s ->
  0 <= Go.to_int (Retries (args s)) ->
  (consistent (snd (fst (Open env s t)))
   /\ (fst (fst (Open env s t)) = None <-> conn (snd (fst (Open env s t))) = true))
  /\ (conn (fst (Close s t)) = false /\ engine (fst (Close s t)) = false)
  /\ (forall pdu,
        consistent (snd (fst (sendPdu env pdu s t)))
        /\ (forall reply, fst (fst (sendPdu env pdu s t)) = Ok reply ->
            conn (snd (fst (sendPdu env pdu s t))) = true))
  /\ (forall oids nr mr,
        consistent (snd (fst (GetBulkRequest env oids nr mr s t))))
  /\ (forall fuel oids nr mr r s' t',
        GetBulkWalk env fuel oids nr mr s t = Some (r, s', t') -> consistent s')
  /\ (forall ty vbs, consistent (snd (fst (v2trap env ty vbs s t))))
  /\ (forall vbs eBoots eTime,
        consistent (snd (fst (V2TrapWithBootsTime env vbs eBoots eTime s t))))
  /\ (forall p, snd (fst (V1Trap env p s t)) = s).
Proof.
  intros env s t Hs Hr.
  split; [apply Open_consistent; assumption|].
  split.
  { unfold Close. unfold consistent in Hs.
    destruct (conn s) eqn:Hc; simpl; [split; reflexivity|].
    split; [assumption | congruence]. }
  split; [intros pdu; apply sendPdu_consistent; assumption|].
  split; [intros; apply GetBulkRequest_consistent; assumption|].
  split.
  { intros fuel oids nr mr r s' t' H. unfold GetBulkWalk in H.
    destruct (walk_init oids nr).
    - eapply walk_loop_consistent; eassumption.
    - inversion H; subst. assumption. }
  split; [intros; apply v2trap_consistent; assumption|].
  split.
  { intros vbs eBoots eTime. unfold V2TrapWithBootsTime.
    repeat match goal with
           | |- context [if ?c then (Err _, _, _) else _] => destruct c; [assumption|]
           end.
    pose proof (v2trap_consistent env SNMPTrapV2 vbs
                  (set_args s (set_authEngine (args s) eBoots eTime)) t Hs Hr) as H.
    destruct (v2trap env SNMPTrapV2 vbs _ t) as [[r s1] t1]. exact H. }
  intros p. unfold V1Trap.
  destruct (Version (args s) >? V1); [reflexivity|].
  destruct (trap_body (args s) p); try reflexivity.
  destruct (conn s); reflexivity.
Qed.

Lemma client_stays_consistent_witness :
  consistent (snd (fst (Open Walk.failing_env (mkSNMP false (args Requests.open_v2c) false) [])))
  /\ conn (snd (fst (sendPdu Walk.failing_env Walk.failing_reply
                       (mkSNMP false (args Requests.open_v2c) false) []))) = true.
Proof.
  pose proof (client_stays_consistent Walk.failing_env
                (mkSNMP false (args Requests.open_v2c) false) [] eq_refl
                ltac:(vm_compute; discriminate))
    as (H1 & _ & H3 & _).
  split; [exact (proj1 H1)|].
  apply (proj2 (H3 Walk.failing_reply) Walk.failing_reply). reflexivity.
Defined.

(** X5: [Close] after [Close] closes nothing: the first call leaves the
    client without connection, and the second one only prints, whatever
    the client was before. *)
Theorem Close_twice : forall s t,
  Close (fst (Close s t)) (snd (Close s t))
  = (fst (Close s t), EvPrintln "Close" :: snd (Close s t))
  /\ conn (fst (Close s t)) = false
  /\ args (fst (Close s t)) = args s.
Proof.
  intros s t. unfold Close. destruct (conn s) eqn:Hc; simpl.
  - repeat split; try reflexivity.
  - rewrite Hc. repeat split; try assumption.
Qed.

(** X6: on a connected client with [Retries] below 2^63 [sendPdu] neither
    dials nor discovers nor closes: the client is handed back as it was,
    and what is added to the trace is the print and then one or more
    attempts to send that very PDU with the client's arguments. *)
Theorem sendPdu_reuses_connection : forall env pdu s t,
  conn s = true -> engine s = true ->
  0 <= Go.to_int (Retries (args s)) ->
  exists r attempts,
    sendPdu env pdu s t = (r, s, attempts ++ EvPrintln "sendPdu" :: t)
    /\ attempts <> []
    /\ Forall (eq (EvSendPdu pdu (args s))) attempts.
Proof.
  intros env pdu s t Hc He Hr. unfold sendPdu, Open. rewrite Hc, He.
  replace (Go.to_int (Retries (args s)) <? 0) with false
    by (symmetry; apply Z.ltb_ge; assumption).
  destruct (Requests.send_retry env pdu (args s) (Go.to_int (Retries (args s)))
              (EvPrintln "sendPdu" :: t) Hr) as (new & E & Hall & Hin).
  destruct (retry _ _ _) as [r t2]. simpl in E. subst t2.
  exists (match r with
          | Some (inl x) => Ok x
          | Some (inr e) => Err e
          | None => Nil
          end), new.
  split; [destruct r as [[x|e]|]; reflexivity|].
  split; [intros ->; contradiction | assumption].
Qed.

Lemma sendPdu_reuses_connection_witness :
  exists r attempts,
    sendPdu Walk.failing_env Walk.failing_reply Requests.open_v2c []
    = (r, Requests.open_v2c, attempts ++ EvPrintln "sendPdu" :: [])
    /\ attempts <> []
    /\ Forall (eq (EvSendPdu Walk.failing_reply (args Requests.open_v2c))) attempts.
Proof.
  apply (sendPdu_reuses_connection Walk.failing_env Walk.failing_reply
           Requests.open_v2c []);
    [reflexivity | reflexivity | vm_compute; discriminate].
Defined.

(** X7: with [Retries] below 2^63, when the first dial succeeds and
    discovery fails, [sendPdu] gives the error of the discovery, the
    connection just made is closed again, the client is left without
    connection and engine, and the PDU is never handed to the engine. *)
Theorem sendPdu_failed_discovery : forall env pdu s t e,
  conn s = false ->
  0 <= Go.to_int (Retries (args s)) ->
  dial_reply env
    (EvDial (Network (args s)) (Address (args s)) (Timeout (args s))
     :: EvPrintln "sendPdu" :: t) = None ->
  discover_reply env
    (EvDiscover (args s)
     :: EvDial (Network (args s)) (Address (args s)) (Timeout (args s))
     :: EvPrintln "sendPdu" :: t) = Some e ->
  sendPdu env pdu s t
  = (Err e, mkSNMP false (args s) false,
     [EvConnClose; EvPrintln "Close"; EvDiscover (args s);
      EvDial (Network (args s)) (Address (args s)) (Timeout (args s));
      EvPrintln "sendPdu"] ++ t).
Proof.
  intros env pdu s t e Hc Hr Hd He. unfold sendPdu, Open. rewrite Hc.
  rewrite (Completeness.retry_first_ok _ _ _ _ _ tt
             (set_conn s true,
              EvDial (Network (args s)) (Address (args s)) (Timeout (args s))
              :: EvPrintln "sendPdu" :: t) Hr)
    by (unfold dial_once; rewrite Hd; reflexivity).
  cbn [set_engine set_conn args conn engine]. rewrite He. reflexivity.
Qed.

(** A transport on which discovery always fails. *)
Definition no_discovery_env : Env :=
  mkEnv (fun _ => None) (fun _ => Some (TransportError "no report"))
    (fun _ => inl Walk.failing_reply) (fun _ => None).

(** A V3 configuration, for which discovery exchanges a message with the
    peer. *)
Definition v3_args : SNMPArguments :=
  mkArgs V3 "udp" "192.168.1.1:161" timeoutDefault 0 msgSizeDefault
    "" "operator" AuthPriv "88888888" Sha "88888888" Aes "" "" "" 0 0.

Lemma sendPdu_failed_discovery_witness :
  sendPdu no_discovery_env Walk.failing_reply (mkSNMP false v3_args false) []
  = (Err (TransportError "no report"),
     mkSNMP false v3_args false,
     [EvConnClose; EvPrintln "Close"; EvDiscover v3_args;
      EvDial (Network v3_args) (Address v3_args) (Timeout v3_args);
      EvPrintln "sendPdu"] ++ []).
Proof.
  apply (sendPdu_failed_discovery no_discovery_env Walk.failing_reply
           (mkSNMP false v3_args false) []
           (TransportError "no report"));
    [reflexivity | vm_compute; discriminate | reflexivity | reflexivity].
Defined.

(** X8: [GetRequest] and [GetNextRequest] check nothing, neither the
    version nor the OIDs: on a connected client with [Retries] below 2^63
    whose first attempt is answered, the reply is returned as it is after
    one exchange of a PDU of that type which names the OIDs in order with
    [Null] values. *)
Theorem Get_requests_send : forall env oids s t reply,
  conn s = true -> engine s = true ->
  0 <= Go.to_int (Retries (args s)) ->
  (send_reply env
     (EvSendPdu (NewPduWithOids (Version (args s)) GetRequest oids) (args s)
      :: EvPrintln "sendPdu" :: t) = inl reply ->
   GetRequestOp env oids s t
   = (Ok reply, s,
      [EvSendPdu (mkPdu (Version (args s)) GetRequest 0 NoError 0
                    (map (fun o => mkVarBind o Null) oids)) (args s);
       EvPrintln "sendPdu"] ++ t))
  /\ (send_reply env
        (EvSendPdu (NewPduWithOids (Version (args s)) GetNextRequest oids) (args s)
         :: EvPrintln "sendPdu" :: t) = inl reply ->
      GetNextRequestOp env oids s t
      = (Ok reply, s,
         [EvSendPdu (mkPdu (Version (args s)) GetNextRequest 0 NoError 0
                       (map (fun o => mkVarBind o Null) oids)) (args s);
          EvPrintln "sendPdu"] ++ t)).
Proof.
  intros env oids s t reply Hc He Hn.
  split; intros Hr; unfold GetRequestOp, GetNextRequestOp, sendPdu, Open;
    rewrite Hc, He;
    replace (Go.to_int (Retries (args s)) <? 0) with false
      by (symmetry; apply Z.ltb_ge; assumption);
    match goal with
    | |- context [retry ?n (send_once env ?pdu ?a) ?t0] =>
        rewrite (Completeness.retry_first_ok _ _ _ n t0 reply
                   (EvSendPdu pdu a :: t0) Hn)
          by (unfold send_once; rewrite Hr; reflexivity)
    end; reflexivity.
Qed.

Lemma Get_requests_send_witness :
  GetRequestOp Walk.failing_env [] Requests.open_v2c []
  = (Ok Walk.failing_reply, Requests.open_v2c,
     [EvSendPdu (mkPdu (Version (args Requests.open_v2c)) GetRequest 0 NoError 0 [])
        (args Requests.open_v2c);
      EvPrintln "sendPdu"] ++ [])
  /\ GetNextRequestOp Walk.failing_env [Some [1; 3; 6; 1]] Requests.open_v2c []
     = (Ok Walk.failing_reply, Requests.open_v2c,
        [EvSendPdu (mkPdu (Version (args Requests.open_v2c)) GetNextRequest 0 NoError 0
                      [mkVarBind (Some [1; 3; 6; 1]) Null])
           (args Requests.open_v2c);
         EvPrintln "sendPdu"] ++ []).
Proof.
  split.
  - apply (proj1 (Get_requests_send Walk.failing_env [] Requests.open_v2c []
                    Walk.failing_reply eq_refl eq_refl
                    ltac:(vm_compute; discriminate))).
    reflexivity.
  - apply (proj2 (Get_requests_send Walk.failing_env [Some [1; 3; 6; 1]]
                    Requests.open_v2c [] Walk.failing_reply eq_refl eq_refl
                    ltac:(vm_compute; discriminate))).
    reflexivity.
Defined.

(** *** The guards of GetBulkRequest *)

(** X9: [GetBulkRequest] tests [nonRepeaters] before [maxRepetitions].
    With [nonRepeaters] in range, a [maxRepetitions] outside
    [0..MaxInt32] is refused with an [ArgumentError] that carries the
    value of [maxRepetitions] under the name [NonRepeaters]; nothing is
    sent and the client is unchanged. *)
Theorem GetBulkRequest_maxRepetitions_error : forall env oids nr mr s t,
  V2c <= Version (args s) ->
  0 <= nr <= Go.MaxInt32 ->
  mr < 0 \/ Go.MaxInt32 < mr ->
  GetBulkRequest env oids nr mr s t
  = (Err (ArgumentError (VInt mr) (Range "NonRepeaters" 0 Go.MaxInt32)), s, t).
Proof.
  intros env oids nr mr s t Hv Hnr Hmr. unfold GetBulkRequest.
  replace (Version (args s) <? V2c) with false by (symmetry; apply Z.ltb_ge; lia).
  replace ((nr <? 0) || (nr >? Go.MaxInt32)) with false.
  2:{ symmetry. apply orb_false_iff. split; [apply Z.ltb_ge; lia|].
      rewrite Z.gtb_ltb. apply Z.ltb_ge. lia. }
  replace ((mr <? 0) || (mr >? Go.MaxInt32)) with true.
  2:{ symmetry. apply orb_true_iff. rewrite Z.gtb_ltb.
      destruct Hmr; [left | right]; apply Z.ltb_lt; assumption. }
  reflexivity.
Qed.

Lemma GetBulkRequest_maxRepetitions_error_witness :
  GetBulkRequest Walk.failing_env [Some [1; 3; 6; 1]] 0 (-1) Requests.open_v2c []
  = (Err (ArgumentError (VInt (-1)) (Range "NonRepeaters" 0 Go.MaxInt32)),
     Requests.open_v2c, []).
Proof.
  apply (GetBulkRequest_maxRepetitions_error Walk.failing_env
           [Some [1; 3; 6; 1]] 0 (-1) Requests.open_v2c []).
  - vm_compute. discriminate.
  - vm_compute. split; discriminate.
  - left. reflexivity.
Defined.

(** *** A count of retries that wraps *)

(** X26: with [Retries] from 2^63 on, [int(Retries)] is negative and
    [Open], on a client that is not connected, dials nothing: the engine
    is made and discovery is run without a connection.  When discovery
    reports no error, [Open] reports none either and leaves a client with
    an engine and no connection; when it fails, [Close] finds no
    connection and leaves the engine in place. *)
Theorem Open_without_dial : forall env s t,
  conn s = false ->
  Go.to_int (Retries (args s)) < 0 ->
  Open env s t
  = match discover_reply env (EvDiscover (args s) :: t) with
    | None => (None, mkSNMP false (args s) true, EvDiscover (args s) :: t)
    | Some e =>
        (Some e, mkSNMP false (args s) true,
         EvPrintln "Close" :: EvDiscover (args s) :: t)
    end.
Proof.
  intros env s t Hc Hr. unfold Open, retry. rewrite Hc.
  replace (Go.to_int (Retries (args s)) <? 0) with true
    by (symmetry; apply Z.ltb_lt; assumption).
  unfold Close, set_engine. cbn [args conn engine]. rewrite Hc.
  destruct (discover_reply env (EvDiscover (args s) :: t)); reflexivity.
Qed.

Lemma Open_without_dial_witness :
  Open Walk.failing_env (mkSNMP false (args Requests.wrapped_v2c) false) []
  = (None, mkSNMP false (args Requests.wrapped_v2c) true,
     [EvDiscover (args Requests.wrapped_v2c)]).
Proof.
  apply (Open_without_dial Walk.failing_env
           (mkSNMP false (args Requests.wrapped_v2c) false) []).
  - reflexivity.
  - vm_compute. reflexivity.
Defined.

End Connection.

(** ** Notifications *)

Module Notifications.

(** X10: [V2Trap] and [InformRequest] are for V2c and V3: on a client of a
    lower version they print, answer with an [ArgumentError] and touch
    neither the client nor the network.  [V2TrapWithBootsTime] with values
    in range does the same and leaves the two engine fields at 0. *)
Theorem v2trap_version_gate : forall env varBinds s t,
  Version (args s) < V2c ->
  V2Trap env varBinds s t
  = (Err (ArgumentError (VInt (Version (args s))) (Text "Unsupported SNMP Version")),
     s, EvPrintln "v2trap" :: t)
  /\ InformRequest env varBinds s t
     = (Err (ArgumentError (VInt (Version (args s))) (Text "Unsupported SNMP Version")),
        s, EvPrintln "v2trap" :: t)
  /\ forall eBoots eTime,
       0 <= eBoots <= Go.MaxInt32 -> 0 <= eTime <= Go.MaxInt32 ->
       V2TrapWithBootsTime env varBinds eBoots eTime s t
       = (Err (ArgumentError (VInt (Version (args s)))
                 (Text "Unsupported SNMP Version")),
          set_args s (set_authEngine (args s) 0 0), EvPrintln "v2trap" :: t).
Proof.
  intros env vbs s t Hv. apply Z.ltb_lt in Hv.
  split; [unfold V2Trap, v2trap; rewrite Hv; reflexivity|].
  split; [unfold InformRequest, v2trap; rewrite Hv; reflexivity|].
  intros eBoots eTime Hb Ht. unfold V2TrapWithBootsTime.
  replace ((eBoots <? 0) || (eBoots >? Go.MaxInt32)) with false
    by (symmetry; apply orb_false_iff; rewrite Z.gtb_ltb; split; apply Z.ltb_ge; lia).
  replace ((eTime <? 0) || (eTime >? Go.MaxInt32)) with false
    by (symmetry; apply orb_false_iff; rewrite Z.gtb_ltb; split; apply Z.ltb_ge; lia).
  unfold v2trap. cbn [args set_args]. cbn [Version set_authEngine].
  rewrite Hv. reflexivity.
Qed.

Lemma v2trap_version_gate_witness :
  V2Trap (Agent.env []) [] TrapFacts.v1_client []
  = (Err (ArgumentError (VInt (Version (args TrapFacts.v1_client)))
            (Text "Unsupported SNMP Version")),
     TrapFacts.v1_client, EvPrintln "v2trap" :: []).
Proof.
  apply (proj1 (v2trap_version_gate (Agent.env []) [] TrapFacts.v1_client [] eq_refl)).
Defined.

Lemma reset_at_rest : forall s,
  authEngineBoots (args s) = 0 -> authEngineTime (args s) = 0 ->
  set_args s (set_authEngine (args s) 0 0) = s.
Proof.
  intros [c a e] Hb Ht. destruct a. simpl in *. subst. reflexivity.
Qed.

(** X11: with both values 0, on a client whose two engine fields are at
    rest, [V2TrapWithBootsTime] is [V2Trap]: the same outcome, the same
    client, the same effects. *)
Theorem V2TrapWithBootsTime_zero : forall env varBinds s t,
  authEngineBoots (args s) = 0 -> authEngineTime (args s) = 0 ->
  V2TrapWithBootsTime env varBinds 0 0 s t = V2Trap env varBinds s t.
Proof.
  intros env vbs s t Hb Ht. unfold V2TrapWithBootsTime, V2Trap.
  change ((0 <? 0) || (0 >? Go.MaxInt32)) with false. cbv iota.
  rewrite (reset_at_rest s Hb Ht).
  destruct (Requests.v2trap_args env (args s) SNMPTrapV2 vbs s t eq_refl) as [Ha _].
  destruct (v2trap env SNMPTrapV2 vbs s t) as [[r s1] t1]. simpl in Ha.
  unfold reset_authEngine. rewrite reset_at_rest; [reflexivity | |];
    rewrite Ha; assumption.
Qed.

Lemma V2TrapWithBootsTime_zero_witness :
  V2TrapWithBootsTime Walk.failing_env [] 0 0 Requests.open_v2c []
  = V2Trap Walk.failing_env [] Requests.open_v2c [].
Proof.
  apply (V2TrapWithBootsTime_zero Walk.failing_env [] Requests.open_v2c []);
    reflexivity.
Defined.

(** The byte the loop of [V1Trap] leaves at index [n] of [ipByte]. *)
Definition addr_byte (parts : list string) (n : nat) : Z :=
  match nth_error parts n with
  | Some v => Go.to_byte (fst (Go.Atoi v))
  | None => 0
  end.

Lemma atoi_loop_error : forall s n,
  match Go.atoi_loop n s with
  | (x, Some Go.ErrSyntax) => x = 0
  | (_, Some Go.ErrRange) => False
  | (_, None) => True
  end.
Proof.
  induction s as [|c s IH]; intros n; cbn [Go.atoi_loop]; [exact I|].
  destruct (negb (Go.is_digit c)); [reflexivity | apply IH].
Qed.

(** The value that comes with an error of [strconv.Atoi]: 0 with a syntax
    error, a bound of [int] with a range error. *)
Lemma Atoi_error_value : forall v,
  match Go.Atoi v with
  | (x, Some Go.ErrSyntax) => x = 0
  | (x, Some Go.ErrRange) => x = Go.MaxInt64 \/ x = Go.MinInt64
  | (_, None) => True
  end.
Proof.
  intros v. unfold Go.Atoi.
  destruct ((0 <? Z.of_nat (String.length v))
            && (Z.of_nat (String.length v) <? 19)).
  - destruct v as [|c rest]; [reflexivity|].
    match goal with
    | |- context [if ?b then (0, Some Go.ErrSyntax) else _] =>
        destruct b; [reflexivity|]
    end.
    match goal with
    | |- context [Go.atoi_loop 0 ?s'] =>
        pose proof (atoi_loop_error s' 0) as H;
        destruct (Go.atoi_loop 0 s') as [x [[|]|]]
    end; [exact H | contradiction | exact I].
  - unfold Go.ParseInt. destruct v as [|c rest]; [reflexivity|].
    match goal with
    | |- context [Go.ParseUint ?s'] => destruct (Go.ParseUint s') as [un [[|]|]]
    end; try reflexivity;
      repeat match goal with
             | |- context [if ?b then _ else _] => destruct b
             end;
      try exact I; (left; reflexivity) || (right; reflexivity).
Qed.

(** X12: with at most four components, the agent address becomes four
    bytes without any check: byte [n] is the value [strconv.Atoi] returns
    for component [n], its error dropped, reduced modulo 256, and 0 where
    the component is missing.  A component with a syntax error gives the
    byte 0; one with a range error gives 0xFF or 0x00, the low byte of the
    bound of [int] that [strconv.Atoi] returns. *)
Theorem agentAddr_bytes_value : forall addr,
  (length (Go.Split addr ".") <= 4)%nat ->
  agentAddr_bytes addr
  = Ok (addr_byte (Go.Split addr ".") 0, addr_byte (Go.Split addr ".") 1,
        addr_byte (Go.Split addr ".") 2, addr_byte (Go.Split addr ".") 3)
  /\ forall n v,
       nth_error (Go.Split addr ".") n = Some v ->
       (snd (Go.Atoi v) = Some Go.ErrSyntax ->
        addr_byte (Go.Split addr ".") n = 0)
       /\ (snd (Go.Atoi v) = Some Go.ErrRange ->
           addr_byte (Go.Split addr ".") n = 255
           \/ addr_byte (Go.Split addr ".") n = 0).
Proof.
  intros addr H. split.
  - unfold agentAddr_bytes, addr_byte.
    destruct (Go.Split addr ".") as [|a [|b [|c [|d [|e rest]]]]];
      simpl in H; try lia;
      cbn [length seq combine fold_left nth_error];
      repeat (rewrite TrapFacts.agentAddr_step_ok; cbn [set_ipByte]);
      reflexivity.
  - intros n v Hn. unfold addr_byte. rewrite Hn.
    pose proof (Atoi_error_value v) as Hv.
    destruct (Go.Atoi v) as [x [[|]|]]; cbn [fst snd]; split; intros E;
      try discriminate.
    + subst x. reflexivity.
    + destruct Hv as [-> | ->]; [left | right]; reflexivity.
Qed.

Lemma agentAddr_bytes_value_witness :
  agentAddr_bytes "10.300.-1"
  = Ok (addr_byte (Go.Split "10.300.-1" ".") 0, addr_byte (Go.Split "10.300.-1" ".") 1,
        addr_byte (Go.Split "10.300.-1" ".") 2, addr_byte (Go.Split "10.300.-1" ".") 3)
  /\ agentAddr_bytes "10.300.-1" = Ok (10, 44, 255, 0)
  /\ agentAddr_bytes "" = Ok (0, 0, 0, 0)
  /\ agentAddr_bytes "99999999999999999999x.-99999999999999999999.x.7"
     = Ok (255, 0, 0, 7).
Proof.
  split; [|split; [|split]; vm_compute; reflexivity].
  apply (proj1 (agentAddr_bytes_value "10.300.-1" ltac:(vm_compute; lia))).
Defined.

(** X13: [V1Trap] does not open the connection.  On a V1 client as
    [NewSNMP] hands it back, with a PDU that can be encoded, the call dumps
    the datagram, then panics on the [nil] connection: nothing is written
    and the client is left as it was. *)
Theorem V1Trap_unopened : forall env a s varPduV1 raw t,
  NewSNMP a = Ok s ->
  Version a = V1 ->
  trap_body (args s) varPduV1 = Ok raw ->
  V1Trap env varPduV1 s t
  = (Panic Go.NilDereference, s, EvHexDump (Ber.marshalRawSequence raw) :: t).
Proof.
  intros env a s p raw t Hnew Hv Hb.
  destruct (Constructed.NewSNMP_client a s Hnew) as (Hs & _).
  assert (Hsv : Version (args s) = V1).
  { rewrite Hs. cbn [args]. unfold Constructed.stripped. rewrite Hv.
    change (V1 =? V3) with false. cbv iota.
    unfold setDefault.
    repeat match goal with
           | |- context [if ?c then _ else _] => destruct c
           end; simpl; assumption. }
  assert (Hc : conn s = false) by (rewrite Hs; reflexivity).
  unfold V1Trap. rewrite Hsv, Hb, Hc. reflexivity.
Qed.

(** The configuration of the trap example, before it is opened. *)
Definition v1_args : SNMPArguments :=
  mkArgs V1 "" "192.168.16.254:162" 0 1 0 "public" "" NoAuthNoPriv
    "" "" "" "" "" "" "" 0 0.

Lemma V1Trap_unopened_witness :
  exists s raw,
    NewSNMP v1_args = Ok s
    /\ V1Trap (Agent.env []) TrapFacts.scenario_trap s []
       = (Panic Go.NilDereference, s, EvHexDump (Ber.marshalRawSequence raw) :: []).
Proof.
  eexists. eexists. split; [reflexivity|].
  apply (V1Trap_unopened (Agent.env []) v1_args _ TrapFacts.scenario_trap _ []).
  - reflexivity.
  - reflexivity.
  - vm_compute. reflexivity.
Defined.

(** *** The length byte of the Trap-v1 PDU *)

Lemma unsigned_bytes_acc_length : forall fuel n acc,
  (1 <= length (Ber.unsigned_bytes_acc fuel n acc))%nat.
Proof.
  induction fuel as [|fuel IH]; intros n acc; simpl.
  - lia.
  - destruct (n <? 256); [simpl; lia | apply IH].
Qed.

(** X14: the PDU that [V1Trap] builds is the tag [0xA4], one byte, and the
    fields; the byte is the number of bytes of the fields reduced to a
    byte.  This is the BER header of the fields exactly when they take
    fewer than 128 bytes. *)
Theorem V1Trap_length_byte : forall a varPduV1 raw,
  trap_body a varPduV1 = Ok raw ->
  exists fields,
    raw = Ber.marshalInt (Version a)
          ++ Ber.marshalOctetString (bytes_of_string (Community a))
          ++ 164 :: Go.to_byte (Z.of_nat (length fields)) :: fields
    /\ ((length fields < 128)%nat <->
        164 :: Go.to_byte (Z.of_nat (length fields)) :: fields
        = Ber.tlv 164 fields).
Proof.
  intros a p raw H.
  destruct (Ber.marshalOid (NewOid (Enterprise p))) as [buf| | |] eqn:Hoid;
    try (unfold trap_body, bind in H; rewrite Hoid in H; discriminate).
  destruct (agentAddr_bytes (AgentAddr p)) as [ip| | |] eqn:Hip;
    try (unfold trap_body, bind in H; rewrite Hoid, Hip in H; discriminate).
  rewrite (TrapFacts.trap_body_ok a p buf ip Hoid Hip) in H.
  injection H as <-. exists (TrapFacts.trap_fields buf ip p).
  split; [reflexivity|].
  set (fields := TrapFacts.trap_fields buf ip p). unfold Ber.tlv, Ber.encode_length.
  split.
  - intros Hl.
    replace (Z.of_nat (length fields) <? 128) with true
      by (symmetry; apply Z.ltb_lt; lia).
    unfold Go.to_byte. rewrite Z.mod_small by lia. reflexivity.
  - intros E. destruct (Z.of_nat (length fields) <? 128) eqn:El.
    + apply Z.ltb_lt in El. lia.
    + apply (f_equal (@length Z)) in E. cbn [length app] in E.
      rewrite length_app in E. unfold Ber.unsigned_bytes in E.
      pose proof (unsigned_bytes_acc_length
                    (Z.to_nat (Z.log2 (Z.of_nat (length fields))))
                    (Z.of_nat (length fields)) []).
      lia.
Qed.

Lemma V1Trap_length_byte_witness :
  exists fields,
    Ber.marshalInt V1 ++ Ber.marshalOctetString (bytes_of_string "public")
    ++ 164 :: Go.to_byte (Z.of_nat (length TrapFacts.scenario_fields))
    :: TrapFacts.scenario_fields
    = Ber.marshalInt (Version (args TrapFacts.v1_client))
      ++ Ber.marshalOctetString
           (bytes_of_string (Community (args TrapFacts.v1_client)))
      ++ 164 :: Go.to_byte (Z.of_nat (length fields)) :: fields.
Proof.
  destruct (V1Trap_length_byte (args TrapFacts.v1_client) TrapFacts.scenario_trap
              (Ber.marshalInt V1 ++ Ber.marshalOctetString (bytes_of_string "public")
               ++ 164 :: Go.to_byte (Z.of_nat (length TrapFacts.scenario_fields))
               :: TrapFacts.scenario_fields))
    as (fields & E & _).
  - vm_compute. reflexivity.
  - exists fields. exact E.
Defined.

End Notifications.

(** ** GetBulkWalk, continued *)

Module WalkMore.

(** X15: [GetBulkWalk] of no OIDs asks nothing: it returns at once a
    Response PDU of the client's version with no var-binds, the client and
    the trace untouched, whatever the version of the client and the value
    of [maxRepetitions]: the version and the counts are only checked by
    the requests of the loop. *)
Theorem GetBulkWalk_no_oids : forall env fuel spare maxRepetitions s t,
  GetBulkWalk env fuel (Go.mkSlice [] spare) 0 maxRepetitions s t
  = Some (Ok (NewPduWithVarBinds (Version (args s)) GetResponse []), s, t).
Proof.
  intros env fuel spare mr s t. unfold GetBulkWalk.
  replace (walk_init (Go.mkSlice [] spare) 0) with (Some (mkWalk [] [] 0 [] [])).
  - destruct fuel; reflexivity.
  - unfold walk_init, Go.slice_to, Go.slice_from.
    replace (0 <=? Go.cap (Go.mkSlice [] spare)) with true
      by (symmetry; apply Z.leb_le; unfold Go.cap; lia).
    reflexivity.
Qed.

(** What the first statements of [GetBulkWalk] set up. *)
Lemma walk_init_shape : forall oids nr w,
  walk_init oids nr = Some w ->
  0 <= nr <= Go.len oids
  /\ w_nonRepeaters w = nr
  /\ w_nonRepBinds w = [] /\ w_resBinds w = []
  /\ w_oids w = w_reqOids w
  /\ w_reqOids w
     = firstn (Z.to_nat nr) (Go.elems oids)
       ++ OidsUniqBase (OidsSort (skipn (Z.to_nat nr) (Go.elems oids))).
Proof.
  intros oids nr w H. unfold walk_init, Go.slice_to, Go.slice_from in H.
  destruct ((0 <=? nr) && (nr <=? Go.cap oids)) eqn:E1; [|discriminate].
  destruct ((0 <=? nr) && (nr <=? Go.len oids)) eqn:E2; [|discriminate].
  inversion H; subst w; clear H. boolprop. cbn.
  repeat split; try assumption.
  rewrite firstn_app.
  replace (Z.to_nat nr - length (Go.elems oids))%nat with 0%nat
    by (unfold Go.len in *; lia).
  simpl. rewrite app_nil_r. reflexivity.
Qed.

(** X16: the slice expressions at the head of [GetBulkWalk] are in range
    exactly when [nonRepeaters] lies in 0..len(oids); then the first
    [nonRepeaters] OIDs are asked for as they are, in the order given,
    ahead of the others, and the walk starts with no results. *)
Theorem walk_init_in_range : forall oids nonRepeaters,
  (0 <= nonRepeaters <= Go.len oids <->
   exists w, walk_init oids nonRepeaters = Some w)
  /\ (forall w, walk_init oids nonRepeaters = Some w ->
      firstn (Z.to_nat nonRepeaters) (w_reqOids w)
      = firstn (Z.to_nat nonRepeaters) (Go.elems oids)
      /\ w_oids w = w_reqOids w
      /\ w_nonRepBinds w = [] /\ w_resBinds w = []).
Proof.
  intros oids nr. split.
  - split.
    + intros H. unfold walk_init, Go.slice_to, Go.slice_from.
      replace ((0 <=? nr) && (nr <=? Go.cap oids)) with true.
      2:{ symmetry. apply andb_true_iff. split; apply Z.leb_le;
          unfold Go.cap, Go.len in *; lia. }
      replace ((0 <=? nr) && (nr <=? Go.len oids)) with true.
      2:{ symmetry. apply andb_true_iff. split; apply Z.leb_le; lia. }
      eauto.
    + intros [w H]. apply walk_init_shape in H. tauto.
  - intros w H. apply walk_init_shape in H.
    destruct H as (Hr & _ & Hn & Hres & Ho & Hq).
    repeat split; try assumption.
    rewrite Hq, firstn_app, firstn_firstn, Nat.min_id.
    rewrite length_firstn.
    replace (Z.to_nat nr - Nat.min (Z.to_nat nr) (length (Go.elems oids)))%nat
      with 0%nat by (unfold Go.len in *; lia).
    simpl. apply app_nil_r.
Qed.

Lemma walk_init_in_range_witness :
  (exists w, walk_init (Go.mkSlice [Some [1; 3; 7]; Some [1; 3; 6]] [None]) 1 = Some w)
  /\ ~ (exists w, walk_init (Go.mkSlice [Some [1; 3; 7]; Some [1; 3; 6]] [None]) 3 = Some w).
Proof.
  split.
  - apply (proj1 (proj1 (walk_init_in_range
                           (Go.mkSlice [Some [1; 3; 7]; Some [1; 3; 6]] [None]) 1))).
    vm_compute. split; discriminate.
  - intros H.
    apply (proj2 (proj1 (walk_init_in_range
                           (Go.mkSlice [Some [1; 3; 7]; Some [1; 3; 6]] [None]) 3)))
      in H.
    vm_compute in H. destruct H as [_ H]. apply H. reflexivity.
Defined.

(** X17: an error of a [GetBulkRequest] inside the walk, after any number
    of iterations that went on, ends the walk: the call returns that error
    and no PDU, and the results gathered so far are dropped. *)
Theorem GetBulkWalk_returns_request_error :
  forall env oids nonRepeaters maxRepetitions s t w0 n w s' t' e s1 t1,
    walk_init oids nonRepeaters = Some w0 ->
    walk_steps env maxRepetitions n (w0, s, t) (w, s', t') ->
    w_reqOids w <> [] ->
    GetBulkRequest env (w_reqOids w) (w_nonRepeaters w) maxRepetitions s' t'
      = (Err e, s1, t1) ->
    forall fuel, (n < fuel)%nat ->
      GetBulkWalk env fuel oids nonRepeaters maxRepetitions s t
      = Some (Err e, s1, t1).
Proof.
  intros env oids nr mr s t w0 n w s' t' e s1 t1 Hinit Hsteps Hne Hreq fuel Hfuel.
  unfold GetBulkWalk. rewrite Hinit.
  replace fuel with (n + S (fuel - S n))%nat by lia.
  rewrite (Walk.walk_loop_steps env mr n _ _ Hsteps). simpl fst. simpl snd.
  simpl. destruct (w_reqOids w); [congruence|]. rewrite Hreq. reflexivity.
Qed.

(** X18: with at least one OID to ask for, [GetBulkWalk] on a V1 client,
    or with [maxRepetitions] outside 0..2^31-1, returns the
    [ArgumentError] of its first [GetBulkRequest]; the client and the
    trace are untouched. *)
Theorem GetBulkWalk_argument_error :
  forall env fuel oids nonRepeaters maxRepetitions s t w0,
    walk_init oids nonRepeaters = Some w0 ->
    w_reqOids w0 <> [] ->
    Version (args s) < V2c \/ maxRepetitions < 0 \/ maxRepetitions > Go.MaxInt32 ->
    (0 < fuel)%nat ->
    exists v m,
      GetBulkWalk env fuel oids nonRepeaters maxRepetitions s t
      = Some (Err (ArgumentError v m), s, t).
Proof.
  intros env fuel oids nr mr s t w0 Hinit Hne Hbad Hfuel.
  assert (Hreq : exists v m,
            GetBulkRequest env (w_reqOids w0) (w_nonRepeaters w0) mr s t
            = (Err (ArgumentError v m), s, t)).
  { unfold GetBulkRequest.
    destruct (Version (args s) <? V2c) eqn:Hv; [eauto|].
    destruct ((w_nonRepeaters w0 <? 0) || (w_nonRepeaters w0 >? Go.MaxInt32));
      [eauto|].
    destruct ((mr <? 0) || (mr >? Go.MaxInt32)) eqn:Hm; [eauto|].
    exfalso. boolprop. lia. }
  destruct Hreq as (v & m & Hreq). exists v, m.
  apply (GetBulkWalk_returns_request_error env oids nr mr s t w0 0 w0 s t
           (ArgumentError v m) s t Hinit (walk_steps_none env mr _) Hne Hreq).
  assumption.
Qed.

Lemma GetBulkWalk_argument_error_witness :
  exists v m,
    GetBulkWalk (Agent.env []) 1 (Go.mkSlice [Some [1; 3; 6; 1]] []) 0 5
      TrapFacts.v1_client []
    = Some (Err (ArgumentError v m), TrapFacts.v1_client, []).
Proof.
  apply (GetBulkWalk_argument_error (Agent.env []) 1
           (Go.mkSlice [Some [1; 3; 6; 1]] []) 0 5 TrapFacts.v1_client []
           (mkWalk [Some [1; 3; 6; 1]] [Some [1; 3; 6; 1]] 0 [] [])).
  - reflexivity.
  - discriminate.
  - left. vm_compute. reflexivity.
  - lia.
Defined.

(** A peer that never answers. *)
Definition silent_env : Env :=
  mkEnv (fun _ => None) (fun _ => None) (fun _ => inr TimeoutError)
    (fun _ => None).

Lemma GetBulkWalk_returns_request_error_witness :
  exists s1 t1,
    GetBulkWalk silent_env 1 (Go.mkSlice [Some [1; 3; 6; 1]] []) 0 5
      Requests.open_v2c []
    = Some (Err TimeoutError, s1, t1).
Proof.
  eexists. eexists.
  apply (GetBulkWalk_returns_request_error silent_env
           (Go.mkSlice [Some [1; 3; 6; 1]] []) 0 5 Requests.open_v2c []
           (mkWalk [Some [1; 3; 6; 1]] [Some [1; 3; 6; 1]] 0 [] [])
           0 (mkWalk [Some [1; 3; 6; 1]] [Some [1; 3; 6; 1]] 0 [] [])
           Requests.open_v2c [] TimeoutError).
  - reflexivity.
  - apply walk_steps_none.
  - discriminate.
  - reflexivity.
  - lia.
Defined.

(** X19: a first reply with fewer var-binds than [nonRepeaters] makes
    [GetBulkWalk] panic: the reply is sliced at [nonRepeaters] without a
    look at its length. *)
Theorem GetBulkWalk_short_reply_panics :
  forall env fuel oids nonRepeaters maxRepetitions s t w0 pdu s1 t1,
    walk_init oids nonRepeaters = Some w0 ->
    0 < nonRepeaters ->
    GetBulkRequest env (w_reqOids w0) nonRepeaters maxRepetitions s t
      = (Ok pdu, s1, t1) ->
    walk_stops pdu nonRepeaters = false ->
    Z.of_nat (length (PduVarBinds pdu)) < nonRepeaters ->
    (0 < fuel)%nat ->
    GetBulkWalk env fuel oids nonRepeaters maxRepetitions s t
    = Some (Panic Go.SliceBoundsOutOfRange, s1, t1).
Proof.
  intros env fuel oids nr mr s t w0 pdu s1 t1 Hinit Hnr Hreq Hstop Hshort Hfuel.
  destruct (walk_init_shape oids nr w0 Hinit) as (Hr & Hn & _ & _ & _ & Hq).
  unfold GetBulkWalk. rewrite Hinit.
  destruct fuel as [|fuel]; [lia|]. simpl.
  destruct (w_reqOids w0) eqn:Hw.
  - exfalso. symmetry in Hq. apply app_eq_nil in Hq. destruct Hq as [Hq _].
    apply (f_equal (@length _)) in Hq. rewrite length_firstn in Hq.
    simpl in Hq. unfold Go.len in Hr. lia.
  - rewrite Hn, Hreq, Hstop.
    unfold walk_iteration, peel. rewrite Hn.
    replace (nr >? 0) with true by (symmetry; rewrite Z.gtb_ltb; apply Z.ltb_lt; lia).
    replace (list_to (PduVarBinds pdu) nr) with (@None (list VarBind)).
    + reflexivity.
    + symmetry. unfold list_to, Go.slice_to.
      replace (nr <=? Go.cap (Go.mkSlice (PduVarBinds pdu) [])) with false.
      * rewrite andb_false_r. reflexivity.
      * symmetry. apply Z.leb_gt. unfold Go.cap. simpl. lia.
Qed.

(** A peer whose replies hold no var-binds at all. *)
Definition empty_reply : Pdu := mkPdu V2c GetResponse 0 0 0 [].

Definition empty_env : Env :=
  mkEnv (fun _ => None) (fun _ => None) (fun _ => inl empty_reply)
    (fun _ => None).

Lemma GetBulkWalk_short_reply_panics_witness :
  exists s1 t1,
    GetBulkWalk empty_env 1 (Go.mkSlice [Some [1; 3; 6; 1]] []) 1 5
      Requests.open_v2c []
    = Some (Panic Go.SliceBoundsOutOfRange, s1, t1).
Proof.
  eexists. eexists.
  apply (GetBulkWalk_short_reply_panics empty_env 1
           (Go.mkSlice [Some [1; 3; 6; 1]] []) 1 5 Requests.open_v2c []
           (mkWalk [Some [1; 3; 6; 1]] [Some [1; 3; 6; 1]] 1 [] []) empty_reply).
  - reflexivity.
  - lia.
  - reflexivity.
  - reflexivity.
  - simpl. lia.
  - lia.
Defined.

(** *** The sweep of completed OIDs *)

Definition is_set (o : option Oid) : bool :=
  match o with Some _ => true | None => false end.

(** The positions of [reqOids] that are not [nil], with the base OID of
    each. *)
Definition kept (reqOids oids : Oids) : list (option Oid * option Oid) :=
  filter (fun p => is_set (fst p)) (combine reqOids oids).

Lemma combine_app' : forall (A B : Type) (l1 l2 : list A) (m1 m2 : list B),
  length l1 = length m1 ->
  combine (l1 ++ l2) (m1 ++ m2) = combine l1 m1 ++ combine l2 m2.
Proof.
  intros A B. induction l1 as [|x l1 IH]; intros l2 [|y m1] m2 H;
    simpl in *; try discriminate; [reflexivity|].
  f_equal. apply IH. lia.
Qed.

Lemma remove_at_middle : forall (A : Type) (l1 : list A) x l2,
  remove_at (length l1) (l1 ++ x :: l2) = Some (l1 ++ l2).
Proof.
  intros A l1 x l2. unfold remove_at.
  replace (length l1 <? length (l1 ++ x :: l2))%nat with true
    by (symmetry; apply Nat.ltb_lt; rewrite length_app; simpl; lia).
  f_equal. rewrite firstn_app, Nat.sub_diag, firstn_all. simpl. rewrite app_nil_r.
  f_equal. induction l1 as [|y l1 IH]; [reflexivity | exact IH].
Qed.

Lemma sweep_prefix : forall r0 o0 tr to,
  length r0 = length o0 ->
  fold_left sweep_at (rev (seq 0 (length r0))) (Ok (r0 ++ tr, o0 ++ to))
  = Ok (map fst (kept r0 o0) ++ tr, map snd (kept r0 o0) ++ to).
Proof.
  induction r0 as [|x r0 IH] using rev_ind; intros o0 tr to Hlen.
  - destruct o0; [reflexivity | discriminate].
  - destruct (exists_last (l := o0)) as (o' & y & ->).
    { intros ->. rewrite length_app in Hlen. simpl in Hlen. lia. }
    repeat rewrite length_app in Hlen. simpl in Hlen.
    assert (Hl : length r0 = length o') by lia.
    rewrite length_app. simpl length. rewrite Nat.add_1_r, seq_S, rev_app_distr.
    simpl rev. simpl app. cbn [fold_left].
    unfold kept. rewrite combine_app' by assumption. rewrite filter_app.
    simpl combine. cbn [filter fst].
    repeat rewrite <- app_assoc. simpl app.
    unfold sweep_at at 2.
    rewrite nth_error_app2 by lia. rewrite Nat.sub_diag. simpl nth_error.
    destruct x as [x|]; cbn [is_set].
    + rewrite IH by assumption. unfold kept.
      repeat rewrite map_app. repeat rewrite <- app_assoc. reflexivity.
    + rewrite remove_at_middle. rewrite Hl, remove_at_middle. rewrite <- Hl.
      rewrite IH by assumption. unfold kept.
      repeat rewrite app_nil_r. reflexivity.
Qed.

(** X20: the sweep is a deletion in place done right: on lists of equal
    length it never panics, keeps exactly the positions of [reqOids] that
    are not [nil], in their order, and keeps the same positions of [oids],
    so that the two lists stay in step and no [nil] is left. *)
Theorem sweep_compacts : forall reqOids oids,
  length reqOids = length oids ->
  sweep reqOids oids
  = Ok (map fst (kept reqOids oids), map snd (kept reqOids oids))
  /\ map fst (kept reqOids oids) = filter is_set reqOids
  /\ length (map fst (kept reqOids oids)) = length (map snd (kept reqOids oids)).
Proof.
  intros r o H. split; [|split].
  - unfold sweep.
    rewrite <- (app_nil_r r) at 2. rewrite <- (app_nil_r o) at 1.
    rewrite sweep_prefix by assumption. repeat rewrite app_nil_r. reflexivity.
  - unfold kept. revert o H. induction r as [|x r IH]; intros [|y o] H;
      simpl in *; try discriminate; [reflexivity|].
    destruct (is_set x); simpl; rewrite IH by lia; reflexivity.
  - repeat rewrite length_map. reflexivity.
Qed.

Lemma sweep_compacts_witness :
  sweep [Some [1; 3]; None; Some [1; 5]; None]
        [Some [1]; Some [2]; Some [3]; Some [4]]
  = Ok ([Some [1; 3]; Some [1; 5]], [Some [1]; Some [3]]).
Proof.
  apply (proj1 (sweep_compacts [Some [1; 3]; None; Some [1; 5]; None]
                  [Some [1]; Some [2]; Some [3]; Some [4]] eq_refl)).
Defined.

(** *** The shape of the state from one iteration to the next *)

Definition plain (v : VarBind) : Prop := is_sentinel (vbVariable v) = false.

Lemma update_length : forall (A : Type) i (x : A) l,
  length (update i x l) = length l.
Proof.
  intros A i x l. revert i. induction l as [|y l IH]; intros [|i]; simpl;
    try reflexivity. rewrite IH. reflexivity.
Qed.

Lemma collect_shape : forall i matched h res req,
  exists h' more req',
    fold_left (collect i) matched (h, res, req) = (h', res ++ more, req')
    /\ length req' = length req
    /\ Forall plain more.
Proof.
  intros i. induction matched as [|m matched IH]; intros h res req.
  - exists h, [], req. rewrite app_nil_r. repeat split. constructor.
  - cbn [fold_left].
    destruct (is_sentinel (vbVariable m)) eqn:Em.
    + replace (collect i (h, res, req) m) with (true, res, req)
        by (unfold collect; rewrite Em; reflexivity).
      apply IH.
    + replace (collect i (h, res, req) m)
        with (h, res ++ [m], update i (vbOid m) req)
        by (unfold collect; rewrite Em; reflexivity).
      destruct (IH h (res ++ [m]) (update i (vbOid m) req))
        as (h' & more & req' & E & Hl & Hp).
      exists h', (m :: more), req'.
      split; [etransitivity; [exact E|]; rewrite <- app_assoc; reflexivity|].
      split; [rewrite Hl; apply update_length|].
      constructor; assumption.
Qed.

Lemma visit_shape : forall mr filled vbs oids req res i,
  (i < length oids)%nat ->
  exists req' more,
    visit mr filled vbs oids (Ok (req, res)) i = Ok (req', res ++ more)
    /\ length req' = length req
    /\ Forall plain more.
Proof.
  intros mr filled vbs oids req res i Hi. unfold visit.
  destruct (nth_error oids i) as [base|] eqn:Eb.
  2:{ apply nth_error_None in Eb. lia. }
  destruct ((Z.of_nat (length (MatchBaseOids vbs base)) =? 0)
            || match MatchOid res
                       (vbOid (last (MatchBaseOids vbs base) (mkVarBind None Null)))
               with Some _ => true | None => false end).
  - exists (update i None req), []. rewrite app_nil_r.
    split; [reflexivity|]. split; [apply update_length | constructor].
  - destruct (collect_shape i (MatchBaseOids vbs base) false res req)
      as (h' & more & req' & E & Hl & Hp).
    rewrite E.
    destruct (h' || (filled && (Z.of_nat (length (MatchBaseOids vbs base)) <? mr))).
    + exists (update i None req'), more.
      split; [reflexivity|]. split; [rewrite update_length; assumption | assumption].
    + exists req', more. repeat split; assumption.
Qed.

Lemma visits_shape : forall mr filled vbs oids idxs req res,
  Forall (fun i => (i < length oids)%nat) idxs ->
  exists req' more,
    fold_left (visit mr filled vbs oids) idxs (Ok (req, res))
    = Ok (req', res ++ more)
    /\ length req' = length req
    /\ Forall plain more.
Proof.
  intros mr filled vbs oids. induction idxs as [|i idxs IH]; intros req res H.
  - exists req, []. rewrite app_nil_r. repeat split. constructor.
  - inversion H as [|? ? Hi Hrest]; subst. cbn [fold_left].
    destruct (visit_shape mr filled vbs oids req res i Hi)
      as (req1 & more1 & E1 & Hl1 & Hp1).
    rewrite E1.
    destruct (IH req1 (res ++ more1) Hrest) as (req2 & more2 & E2 & Hl2 & Hp2).
    exists req2, (more1 ++ more2).
    split; [etransitivity; [exact E2|]; rewrite <- app_assoc; reflexivity|].
    split; [lia|]. apply Forall_app. split; assumption.
Qed.

(** Once the non-repeaters are peeled off, the rest of an iteration cannot
    panic when [oids] and [reqOids] are in step. *)
Lemma iteration_after_peel : forall mr w pdu w1 vbs,
  peel w (PduVarBinds pdu) = Ok (w1, vbs) ->
  length (w_oids w1) = length (w_reqOids w1) ->
  exists w' more,
    walk_iteration mr w pdu = Ok w'
    /\ length (w_oids w') = length (w_reqOids w')
    /\ Forall (fun o => is_set o = true) (w_reqOids w')
    /\ w_nonRepeaters w' = w_nonRepeaters w1
    /\ w_nonRepBinds w' = w_nonRepBinds w1
    /\ w_resBinds w' = w_resBinds w1 ++ more
    /\ Forall plain more.
Proof.
  intros mr w pdu w1 vbs Hpeel Hlen. unfold walk_iteration. rewrite Hpeel.
  destruct (visits_shape mr
              (Z.of_nat (length vbs) =? Z.of_nat (length (w_reqOids w1)) * mr)
              (VarBindsUniq (VarBindsSort vbs)) (w_oids w1)
              (seq 0 (length (w_reqOids w1))) (w_reqOids w1) (w_resBinds w1))
    as (req' & more & E & Hl & Hp).
  { apply Forall_forall. intros i Hi. apply in_seq in Hi. lia. }
  rewrite E.
  destruct (sweep_compacts req' (w_oids w1)) as (Hs & Hf & Hk); [lia|].
  rewrite Hs. eexists. exists more. split; [reflexivity|]. cbn.
  split; [symmetry; exact Hk|]. split.
  - rewrite Hf. apply Forall_forall. intros o Ho. apply filter_In in Ho. tauto.
  - repeat split; assumption.
Qed.

Lemma peel_shape : forall w binds w1 vbs,
  peel w binds = Ok (w1, vbs) ->
  length (w_oids w) = length (w_reqOids w) ->
  0 <= w_nonRepeaters w ->
  length (w_oids w1) = length (w_reqOids w1)
  /\ w_nonRepeaters w1 = 0
  /\ w_resBinds w1 = w_resBinds w
  /\ w_nonRepBinds w1
     = w_nonRepBinds w ++ firstn (Z.to_nat (w_nonRepeaters w)) binds.
Proof.
  intros w binds w1 vbs H Hlen Hn. unfold peel in H.
  destruct (w_nonRepeaters w >? 0) eqn:E.
  - unfold list_to, list_from, Go.slice_to, Go.slice_from in H.
    cbn [Go.elems Go.spare] in H.
    repeat match type of H with
           | context [if ?c then _ else _] => destruct c; [|discriminate]
           end.
    inversion H; subst; clear H. cbn.
    repeat rewrite length_skipn. rewrite app_nil_r.
    repeat split; try reflexivity. lia.
  - inversion H; subst; clear H. boolprop.
    replace (w_nonRepeaters w1) with 0 by lia. simpl. rewrite app_nil_r.
    repeat split; assumption.
Qed.

Lemma peel_in_range : forall w binds,
  length (w_oids w) = length (w_reqOids w) ->
  0 <= w_nonRepeaters w <= Z.of_nat (length binds) ->
  w_nonRepeaters w <= Z.of_nat (length (w_reqOids w)) ->
  exists w1 vbs, peel w binds = Ok (w1, vbs).
Proof.
  intros w binds Hlen Hn Hr. unfold peel.
  destruct (w_nonRepeaters w >? 0); [|eauto].
  unfold list_to, list_from, Go.slice_to, Go.slice_from, Go.cap, Go.len.
  cbn [Go.elems Go.spare length]. rewrite Nat.add_0_r.
  replace ((0 <=? w_nonRepeaters w)
           && (w_nonRepeaters w <=? Z.of_nat (length binds))) with true
    by (symmetry; apply andb_true_iff; split; apply Z.leb_le; lia).
  replace ((0 <=? w_nonRepeaters w)
           && (w_nonRepeaters w <=? Z.of_nat (length (w_oids w)))) with true
    by (symmetry; apply andb_true_iff; split; apply Z.leb_le; lia).
  replace ((0 <=? w_nonRepeaters w)
           && (w_nonRepeaters w <=? Z.of_nat (length (w_reqOids w)))) with true
    by (symmetry; apply andb_true_iff; split; apply Z.leb_le; lia).
  eauto.
Qed.

(** X21: an iteration of the walk on a reply that holds at least
    [nonRepeaters] var-binds does not panic, however odd the reply.  After
    it [oids] and [reqOids] are still in step, no [nil] is left in
    [reqOids], [nonRepeaters] is 0, the non-repeater binds have grown by
    the first [nonRepeaters] var-binds of the reply, and the results have
    only grown, by var-binds that are no exception values. *)
Theorem walk_iteration_keeps_shape : forall maxRepetitions w pdu,
  length (w_oids w) = length (w_reqOids w) ->
  0 <= w_nonRepeaters w <= Z.of_nat (length (PduVarBinds pdu)) ->
  w_nonRepeaters w <= Z.of_nat (length (w_reqOids w)) ->
  exists w' more,
    walk_iteration maxRepetitions w pdu = Ok w'
    /\ length (w_oids w') = length (w_reqOids w')
    /\ Forall (fun o => is_set o = true) (w_reqOids w')
    /\ w_nonRepeaters w' = 0
    /\ w_nonRepBinds w'
       = w_nonRepBinds w
         ++ firstn (Z.to_nat (w_nonRepeaters w)) (PduVarBinds pdu)
    /\ w_resBinds w' = w_resBinds w ++ more
    /\ Forall plain more.
Proof.
  intros mr w pdu Hlen Hn Hr.
  destruct (peel_in_range w (PduVarBinds pdu) Hlen Hn Hr) as (w1 & vbs & Hpeel).
  destruct (peel_shape w _ w1 vbs Hpeel Hlen ltac:(lia)) as (H1 & H2 & H3 & H4).
  destruct (iteration_after_peel mr w pdu w1 vbs Hpeel H1)
    as (w' & more & E & K1 & K2 & K3 & K4 & K5 & K6).
  exists w', more. split; [exact E|]. split; [exact K1|]. split; [exact K2|].
  split; [congruence|]. split; [congruence|]. split; [congruence | exact K6].
Qed.

Lemma walk_iteration_keeps_shape_witness :
  exists w' more,
    walk_iteration 2
      (mkWalk [Some [1; 3]; Some [1; 4]] [Some [1; 3]; Some [1; 4]] 1 [] [])
      (mkPdu V2c GetResponse 0 0 0
         [mkVarBind (Some [1; 3; 0]) (Integer 1);
          mkVarBind (Some [1; 4; 1]) (Integer 2);
          mkVarBind (Some [1; 4; 1]) EndOfMibView]) = Ok w'
    /\ length (w_oids w') = length (w_reqOids w')
    /\ Forall (fun o => is_set o = true) (w_reqOids w')
    /\ w_nonRepeaters w' = 0
    /\ w_nonRepBinds w'
       = [] ++ firstn (Z.to_nat 1)
                 [mkVarBind (Some [1; 3; 0]) (Integer 1);
                  mkVarBind (Some [1; 4; 1]) (Integer 2);
                  mkVarBind (Some [1; 4; 1]) EndOfMibView]
    /\ w_resBinds w' = [] ++ more
    /\ Forall plain more.
Proof.
  apply (walk_iteration_keeps_shape 2
           (mkWalk [Some [1; 3]; Some [1; 4]] [Some [1; 3]; Some [1; 4]] 1 [] [])
           (mkPdu V2c GetResponse 0 0 0
              [mkVarBind (Some [1; 3; 0]) (Integer 1);
               mkVarBind (Some [1; 4; 1]) (Integer 2);
               mkVarBind (Some [1; 4; 1]) EndOfMibView])).
  - reflexivity.
  - simpl. lia.
  - simpl. lia.
Defined.

(** What every state of a walk satisfies. *)
Definition walk_shape (w : walk_state) : Prop :=
  length (w_oids w) = length (w_reqOids w)
  /\ 0 <= w_nonRepeaters w
  /\ Forall plain (w_resBinds w).

Lemma walk_steps_shape : forall env mr n c1 c2,
  walk_steps env mr n c1 c2 ->
  walk_shape (fst (fst c1)) ->
  walk_shape (fst (fst c2))
  /\ ((0 < n)%nat ->
      w_nonRepeaters (fst (fst c2)) = 0
      /\ Forall (fun o => is_set o = true) (w_reqOids (fst (fst c2)))).
Proof.
  intros env mr n c1 c2 H. induction H as [c | n c1 c2 c3 Hstep Hsteps IH].
  - intros Hs. split; [assumption | lia].
  - intros Hs.
    destruct Hstep as [w s t pdu s1 t1 w' Hne Hreq Hstop Hiter].
    simpl in Hs. destruct Hs as (Hlen & Hn & Hres).
    assert (Hw' : walk_shape w' /\ w_nonRepeaters w' = 0
                  /\ Forall (fun o => is_set o = true) (w_reqOids w')).
    { destruct (peel w (PduVarBinds pdu)) as [[w1 vbs] | e | p |] eqn:Hpeel;
        try (unfold walk_iteration in Hiter; rewrite Hpeel in Hiter; discriminate).
      destruct (peel_shape w _ w1 vbs Hpeel Hlen Hn) as (H1 & H2 & H3 & H4).
      destruct (iteration_after_peel mr w pdu w1 vbs Hpeel H1)
        as (w2 & more & E & K1 & K2 & K3 & K4 & K5 & K6).
      rewrite Hiter in E. inversion E; subst w2; clear E.
      unfold walk_shape. rewrite K3, H2, K5, H3.
      repeat split; try assumption; try lia.
      apply Forall_app. split; assumption. }
    destruct Hw' as (Hs' & Hz & Hset).
    destruct (IH Hs') as [Hs3 Hmore]. split; [assumption|]. intros _.
    inversion Hsteps; subst.
    + simpl. split; assumption.
    + apply Hmore. lia.
Qed.

(** X22: through a whole call of [GetBulkWalk], from its first statement
    on and whatever the peer answers, [oids] and [reqOids] stay in step,
    so that [oids[i]] is never out of range, and no exception value
    (NoSuchObject, NoSuchInstance, EndOfMibView) enters the results; after
    the first iteration [nonRepeaters] is 0 and [reqOids] holds no
    [nil]. *)
Theorem GetBulkWalk_keeps_shape :
  forall env oids nonRepeaters maxRepetitions s t w0 n w s' t',
    walk_init oids nonRepeaters = Some w0 ->
    walk_steps env maxRepetitions n (w0, s, t) (w, s', t') ->
    length (w_oids w) = length (w_reqOids w)
    /\ Forall plain (w_resBinds w)
    /\ ((0 < n)%nat ->
        w_nonRepeaters w = 0
        /\ Forall (fun o => is_set o = true) (w_reqOids w)).
Proof.
  intros env oids nr mr s t w0 n w s' t' Hinit Hsteps.
  destruct (walk_init_shape oids nr w0 Hinit) as (Hr & Hn & _ & Hres & Ho & _).
  destruct (walk_steps_shape env mr n _ _ Hsteps) as [(H1 & _ & H3) H4].
  - unfold walk_shape. simpl. rewrite Ho, Hn, Hres.
    repeat split; [lia | constructor].
  - simpl in *. split; [assumption|]. split; assumption.
Qed.

Lemma GetBulkWalk_keeps_shape_witness :
  exists w s' t',
    walk_steps (Agent.env Completeness.example_mib) 3 1
      (mkWalk [Some Completeness.ifDescr] [Some Completeness.ifDescr] 0 [] [],
       Requests.open_v2c, [])
      (w, s', t')
    /\ length (w_oids w) = length (w_reqOids w)
    /\ Forall plain (w_resBinds w)
    /\ w_nonRepeaters w = 0.
Proof.
  eexists. eexists. eexists.
  assert (Hstep :
    walk_steps (Agent.env Completeness.example_mib) 3 1
      (mkWalk [Some Completeness.ifDescr] [Some Completeness.ifDescr] 0 [] [],
       Requests.open_v2c, [])
      (mkWalk [Some Completeness.ifDescr]
         [Some [1; 3; 6; 1; 2; 1; 2; 2; 1; 2; 3]] 0 []
         [mkVarBind (Some [1; 3; 6; 1; 2; 1; 2; 2; 1; 2; 1]) (OctetString [108; 111]);
          mkVarBind (Some [1; 3; 6; 1; 2; 1; 2; 2; 1; 2; 2])
            (OctetString [101; 116; 104; 48]);
          mkVarBind (Some [1; 3; 6; 1; 2; 1; 2; 2; 1; 2; 3])
            (OctetString [101; 116; 104; 49])],
       snd (fst (GetBulkRequest (Agent.env Completeness.example_mib)
                   [Some Completeness.ifDescr] 0 3 Requests.open_v2c [])),
       snd (GetBulkRequest (Agent.env Completeness.example_mib)
              [Some Completeness.ifDescr] 0 3 Requests.open_v2c []))).
  { eapply walk_steps_more; [|apply walk_steps_none].
    eapply walk_step_next with
      (pdu := Agent.respond Completeness.example_mib
                (SetMaxRepetitions
                   (SetNonrepeaters
                      (NewPduWithOids V2c GetBulkRequestT [Some Completeness.ifDescr]) 0) 3)).
    - discriminate.
    - vm_compute. reflexivity.
    - vm_compute. reflexivity.
    - vm_compute. reflexivity. }
  split; [exact Hstep|].
  destruct (GetBulkWalk_keeps_shape (Agent.env Completeness.example_mib)
              (Go.mkSlice [Some Completeness.ifDescr] []) 0 3 Requests.open_v2c []
              _ 1 _ _ _ eq_refl Hstep) as (H1 & H2 & H3).
  split; [exact H1|]. split; [exact H2|]. apply H3. lia.
Defined.

(** *** A walk that does not end *)

(** A peer that answers every name with a longer name under it. *)
Definition deeper (vb : VarBind) : VarBind :=
  mkVarBind (match vbOid vb with Some o => Some (o ++ [1]) | None => None end)
    (Integer 0).

Definition deeper_reply (req : Pdu) : Pdu :=
  mkPdu (pduVersion req) GetResponse (RequestId req) NoError 0
    (map deeper (PduVarBinds req)).

Definition deeper_env : Env :=
  mkEnv (fun _ => None) (fun _ => None)
    (fun t =>
       match t with
       | EvSendPdu pdu _ :: _ => inl (deeper_reply pdu)
       | _ => inr (TransportError "nothing was sent")
       end)
    (fun _ => None).

Lemma deeper_request : forall cur s t,
  V2c <= Version (args s) ->
  (conn s = true -> engine s = true) ->
  0 <= Go.to_int (Retries (args s)) ->
  exists pdu s1 t1,
    GetBulkRequest deeper_env [Some cur] 0 1 s t = (Ok pdu, s1, t1)
    /\ PduVarBinds pdu = [mkVarBind (Some (cur ++ [1])) (Integer 0)]
    /\ ErrorStatus pdu = NoError
    /\ args s1 = args s /\ conn s1 = true /\ engine s1 = true.
Proof.
  intros cur s t Hv Hwf Hr. unfold GetBulkRequest.
  replace (Version (args s) <? V2c) with false
    by (symmetry; apply Z.ltb_ge; assumption).
  change ((0 <? 0) || (0 >? Go.MaxInt32)) with false.
  change ((1 <? 0) || (1 >? Go.MaxInt32)) with false. cbv iota.
  set (pdu := SetMaxRepetitions
                (SetNonrepeaters
                   (NewPduWithOids (Version (args s)) GetBulkRequestT [Some cur]) 0) 1).
  destruct (Completeness.sendPdu_answered deeper_env pdu (deeper_reply pdu) s t Hwf Hr)
    as (s1 & t1 & E & Ha & Hc & He).
  - intros _. split; reflexivity.
  - intros t'. reflexivity.
  - exists (deeper_reply pdu), s1, t1. split; [exact E|]. repeat split; assumption.
Qed.

Lemma contains_longer : forall P o l,
  OidContains o P = true -> OidContains (o ++ l) P = true.
Proof.
  induction P as [|p P IH]; intros o l H; [destruct (o ++ l); reflexivity|].
  destruct o as [|x o]; simpl in *; [discriminate|].
  apply andb_true_iff in H. destruct H as [H1 H2]. rewrite H1. simpl.
  apply IH. assumption.
Qed.

(** Every name gathered so far is no longer than the current one. *)
Definition shorter_names (cur : Oid) (res : VarBinds) : Prop :=
  forall v, In v res ->
    exists o, vbOid v = Some o /\ (length o <= length cur)%nat.

Lemma deeper_is_new : forall cur res,
  shorter_names cur res -> MatchOid res (Some (cur ++ [1])) = None.
Proof.
  intros cur res H. unfold MatchOid. apply Completeness.find_none_all.
  intros v Hv. destruct (H v Hv) as (o & Ho & Hl). rewrite Ho. simpl.
  unfold OidEqual. destruct (OidCompare o (cur ++ [1])) eqn:E; try reflexivity.
  apply Completeness.OidCompare_eq in E. subst o.
  rewrite length_app in Hl. simpl in Hl. lia.
Qed.

Lemma deeper_walk : forall P fuel cur res s t,
  OidContains cur P = true ->
  shorter_names cur res ->
  V2c <= Version (args s) ->
  (conn s = true -> engine s = true) ->
  0 <= Go.to_int (Retries (args s)) ->
  walk_loop deeper_env fuel 1 (mkWalk [Some P] [Some cur] 0 [] res) s t = None.
Proof.
  intros P. induction fuel as [|fuel IH]; intros cur res s t Hc Hres Hv Hwf Hr;
    [reflexivity|].
  destruct (deeper_request cur s t Hv Hwf Hr)
    as (pdu & s1 & t1 & Hreq & Hb & He & Ha & Hc1 & He1).
  assert (Hstop : walk_stops pdu 0 = false)
    by (unfold walk_stops; rewrite He; reflexivity).
  assert (Hmatched :
    MatchBaseOids (VarBindsUniq (VarBindsSort (PduVarBinds pdu))) (Some P)
    = [mkVarBind (Some (cur ++ [1])) (Integer 0)]).
  { rewrite Hb. unfold MatchBaseOids. cbn.
    rewrite (contains_longer P cur [1] Hc). reflexivity. }
  pose proof (Completeness.iteration_collects 1 P cur [] res pdu
                [mkVarBind (Some (cur ++ [1])) (Integer 0)] (cur ++ [1])
                Hmatched ltac:(discriminate) (deeper_is_new cur res Hres)
                ltac:(repeat constructor) eq_refl) as Hiter.
  rewrite Hb in Hiter. cbn [length andb] in Hiter.
  change ((Z.of_nat 1 =? Z.of_nat 1 * 1) && (Z.of_nat 1 <? 1)) with false in Hiter.
  cbv iota in Hiter.
  rewrite (Completeness.walk_loop_next deeper_env fuel 1
             (mkWalk [Some P] [Some cur] 0 [] res) s t pdu s1 t1 _
             ltac:(discriminate) Hreq Hstop Hiter).
  apply IH.
  - apply contains_longer. assumption.
  - intros v Hv'. apply in_app_or in Hv'. destruct Hv' as [Hv' | [<- | []]].
    + destruct (Hres v Hv') as (o & Ho & Hl). exists o. split; [assumption|].
      rewrite length_app. lia.
    + eexists. split; [reflexivity | lia].
  - rewrite Ha. assumption.
  - intros _. assumption.
  - rewrite Ha. assumption.
Qed.

(** X23: the walk has no bound of its own.  Against a peer that answers
    each name with a longer name under it, [GetBulkWalk([P], 0, 1)] of a
    V2c or V3 client with [Retries] below 2^63 is still asking after any
    number of requests: every reply is new and under [P], so no position
    is ever completed. *)
Theorem GetBulkWalk_may_not_end : forall P fuel s t,
  V2c <= Version (args s) ->
  (conn s = true -> engine s = true) ->
  0 <= Go.to_int (Retries (args s)) ->
  GetBulkWalk deeper_env fuel (Go.mkSlice [Some P] []) 0 1 s t = None.
Proof.
  intros P fuel s t Hv Hwf Hr. unfold GetBulkWalk.
  replace (walk_init (Go.mkSlice [Some P] []) 0)
    with (Some (mkWalk [Some P] [Some P] 0 [] [])) by reflexivity.
  apply deeper_walk; try assumption.
  - clear. induction P as [|p P IH]; simpl; [reflexivity|].
    rewrite Z.eqb_refl. assumption.
  - intros v [].
Qed.

Lemma GetBulkWalk_may_not_end_witness :
  GetBulkWalk deeper_env 1000 (Go.mkSlice [Some [1; 3; 6; 1]] []) 0 1
    Requests.open_v2c []
  = None.
Proof.
  apply (GetBulkWalk_may_not_end [1; 3; 6; 1] 1000 Requests.open_v2c []).
  - vm_compute. discriminate.
  - reflexivity.
  - vm_compute. discriminate.
Defined.

(** *** A walk that sends nothing *)



End WalkMore.
